(** * MiniClub: identity store, score ledger, mirror relay and ranking

    A shallow embedding of [app.py].  The Streamlit page is a script that
    is re-run on every interaction; each form handler is embedded as a
    computation over the state the script touches: the two CSV files, the
    session, the remote worksheet and the messages written to the page.

    Conventions
    - Python [str] is [string]; Python [int] is [Z].
    - A pandas cell is a [cell]: text, an integer or the missing value
      [NaN].
    - A CSV file is represented by the table [pd.read_csv] gives back for
      it, so [to_csv] stores an empty text as [NaN] (an empty field is read
      as a missing value).  pandas' further guesses on read are not
      modelled: a text such as NA, None or null, which it takes for a
      missing value, and a column of number-like texts, which it reads as
      numbers.  Names, nicknames and display names are the only cells
      they can reach; what is stated of emails, times, strokes and totals
      does not depend on them.
    - [df.sort_values("total")] takes the rows in the order of
      [argsort(kind="quicksort")] on the column; [sort_values_quicksort]
      embeds numpy's scalar routine for it, [aquicksort_] (the one run
      when no vectorized sort is dispatched).
    - Writing a text into a column read as all missing succeeds, as in
      pandas before 3.0, which widens the column.
    - An exception is a value; [try]/[except Exception] is [try_except].
      Writing a file is taken to succeed. *)

From Stdlib Require Import ZArith List String Ascii Bool Arith Lia.
From Stdlib Require Import Permutation Sorted.
From Stdlib Require Import Numbers.DecimalString.
Import ListNotations.

Local Open Scope string_scope.
Local Open Scope Z_scope.
Local Open Scope list_scope.

(* ------------------------------------------------------------------ *)
(** ** Python strings *)

Module Str.

(** [str.isspace] on the 7-bit range: TAB..CR, FS..US and SPACE. *)
Definition isspace (c : ascii) : bool :=
  let n := nat_of_ascii c in
  (((9 <=? n) && (n <=? 13)) || ((28 <=? n) && (n <=? 32)))%nat.

Fixpoint lstrip (s : string) : string :=
  match s with
  | EmptyString => EmptyString
  | String c s' => if isspace c then lstrip s' else s
  end.

Fixpoint rstrip (s : string) : string :=
  match s with
  | EmptyString => EmptyString
  | String c s' =>
      match rstrip s' with
      | EmptyString => if isspace c then EmptyString else String c EmptyString
      | r => String c r
      end
  end.

(** [s.strip()] *)
Definition strip (s : string) : string := lstrip (rstrip s).

Definition lower_char (c : ascii) : ascii :=
  let n := nat_of_ascii c in
  if ((65 <=? n) && (n <=? 90))%nat then ascii_of_nat (n + 32)%nat else c.

(** [s.lower()] *)
Fixpoint lower (s : string) : string :=
  match s with
  | EmptyString => EmptyString
  | String c s' => String (lower_char c) (lower s')
  end.

(** Truth value of a [str]: non-empty. *)
Definition truthy (s : string) : bool :=
  match s with EmptyString => false | _ => true end.

(** [str(i)] for a natural number. *)
Definition of_nat (n : nat) : string :=
  NilEmpty.string_of_uint (Nat.to_uint n).

End Str.

(* ------------------------------------------------------------------ *)
(** ** Regular expressions: [re.compile] and [Pattern.match] *)

Module Re.

Inductive regex : Type :=
| Void                          (* matches nothing *)
| Eps                           (* the empty string *)
| Chr (c : ascii)               (* a literal character *)
| NotChr (c : ascii)            (* [^c] *)
| Cat (r1 r2 : regex)
| Alt (r1 r2 : regex)
| Star (r : regex).

(** [r+] *)
Definition Plus (r : regex) : regex := Cat r (Star r).

(** The language of a pattern. *)
Inductive matches : regex -> string -> Prop :=
| m_eps : matches Eps ""
| m_chr c : matches (Chr c) (String c "")
| m_notchr c d : d <> c -> matches (NotChr c) (String d "")
| m_cat r1 r2 s1 s2 :
    matches r1 s1 -> matches r2 s2 -> matches (Cat r1 r2) (s1 ++ s2)
| m_alt_l r1 r2 s : matches r1 s -> matches (Alt r1 r2) s
| m_alt_r r1 r2 s : matches r2 s -> matches (Alt r1 r2) s
| m_star_nil r : matches (Star r) ""
| m_star_cons r s1 s2 :
    matches r s1 -> matches (Star r) s2 -> matches (Star r) (s1 ++ s2).

Fixpoint nullable (r : regex) : bool :=
  match r with
  | Void => false
  | Eps => true
  | Chr _ => false
  | NotChr _ => false
  | Cat r1 r2 => nullable r1 && nullable r2
  | Alt r1 r2 => nullable r1 || nullable r2
  | Star _ => true
  end.

(** Brzozowski derivative of [r] by the character [a]. *)
Fixpoint deriv (a : ascii) (r : regex) : regex :=
  match r with
  | Void => Void
  | Eps => Void
  | Chr c => if Ascii.eqb a c then Eps else Void
  | NotChr c => if Ascii.eqb a c then Void else Eps
  | Cat r1 r2 =>
      if nullable r1
      then Alt (Cat (deriv a r1) r2) (deriv a r2)
      else Cat (deriv a r1) r2
  | Alt r1 r2 => Alt (deriv a r1) (deriv a r2)
  | Star r1 => Cat (deriv a r1) (Star r1)
  end.

(** [pattern.fullmatch(s)]: the whole of [s] is in the language. *)
Fixpoint fullmatch (r : regex) (s : string) : bool :=
  match s with
  | EmptyString => nullable r
  | String a s' => fullmatch (deriv a r) s'
  end.

(** [pattern.match(s)]: some prefix of [s], starting at position 0, is
    in the language.  Python returns a match object or [None]; only its
    truth value is used by the callers. *)
Fixpoint match_ (r : regex) (s : string) : bool :=
  nullable r ||
  match s with
  | EmptyString => false
  | String a s' => match_ (deriv a r) s'
  end.

End Re.

(** [EMAIL_RE = re.compile(r"[^@]+@[^@]+\.[^@]+")] *)
Definition EMAIL_RE : Re.regex :=
  Re.Cat (Re.Plus (Re.NotChr "@"))
    (Re.Cat (Re.Chr "@")
       (Re.Cat (Re.Plus (Re.NotChr "@"))
          (Re.Cat (Re.Chr ".") (Re.Plus (Re.NotChr "@"))))).

(* ------------------------------------------------------------------ *)
(** ** Values, exceptions and files *)

(** A cell of a DataFrame, also the value of a key of a row turned into a
    [dict]. *)
Inductive cell : Type :=
| Str (s : string)
| Int (z : Z)
| NaN.

(** Truth value of a Python object: a [str] is true when non-empty, an
    [int] when non-zero, and the float [nan] is true. *)
Definition truthy (c : cell) : bool :=
  match c with
  | Str s => Str.truthy s
  | Int z => negb (Z.eqb z 0)
  | NaN => true
  end.

Definition cell_eqb (a b : cell) : bool :=
  match a, b with
  | Str s, Str t => String.eqb s t
  | Int x, Int y => Z.eqb x y
  | _, _ => false          (* in particular nan == nan is False *)
  end.

(** What a cell becomes once written to a CSV file and read back. *)
Definition csv_cell (c : cell) : cell :=
  match c with
  | Str EmptyString => NaN
  | _ => c
  end.

Inductive excepcion : Type :=
| Exception (msg : string)
| ValueError (msg : string)
| ParserError (msg : string).

Definition str_exc (e : excepcion) : string :=
  match e with
  | Exception m => m
  | ValueError m => m
  | ParserError m => m
  end.

(** A file holding a table with rows of type [R]: either one
    [pd.read_csv] can parse, or one on which it raises. *)
Inductive archivo (R : Type) : Type :=
| Csv (filas : list R)
| Ilegible (e : excepcion).
Arguments Csv {R} filas.
Arguments Ilegible {R} e.

(** Instants are counted in microseconds, as [datetime.now()] gives them;
    a stored timestamp ([strftime("%Y-%m-%d %H:%M:%S")]) keeps whole
    seconds. *)
Definition datetime := Z.
Definition un_segundo : Z := 1000000.
Definition un_dia : Z := 86400 * un_segundo.
Definition strftime (t : datetime) : Z := t / un_segundo.       (* seconds *)
Definition to_datetime (fecha : Z) : datetime := fecha * un_segundo.

(* ------------------------------------------------------------------ *)
(** ** Rows of the two tables *)

(** usuarios.csv: [email, nombre, nickname, fecha_registro]; a timestamp
    column holds the whole seconds its text stands for. *)
Record usuario : Type := mk_usuario {
  u_email : cell;
  u_nombre : cell;
  u_nickname : cell;
  u_fecha_registro : Z
}.

(** scores.csv: [fecha, email, nombre_mostrar, hoyo_1 .. hoyo_14, total].
    A row is the list [[fecha, email, nombre_mostrar] + golpes + [total]];
    the strokes are kept as the list they are in that expression. *)
Record fila : Type := mk_fila {
  fecha : Z;
  email : cell;
  nombre_mostrar : cell;
  hoyos : list Z;
  total : Z
}.

Definition cols_users : list string :=
  ["email"; "nombre"; "nickname"; "fecha_registro"].

Definition cols_scores : list string :=
  ["fecha"; "email"; "nombre_mostrar"]
    ++ map (fun i => ("hoyo_" ++ Str.of_nat i)%string) (seq 1 14)
    ++ ["total"].

(** [len(nueva_fila)] *)
Definition ancho (f : fila) : nat := (3 + List.length (hoyos f) + 1)%nat.

Definition usuario_csv (u : usuario) : usuario :=
  mk_usuario (csv_cell (u_email u)) (csv_cell (u_nombre u))
    (csv_cell (u_nickname u)) (u_fecha_registro u).

Definition fila_csv (f : fila) : fila :=
  mk_fila (fecha f) (csv_cell (email f)) (csv_cell (nombre_mostrar f))
    (hoyos f) (total f).

(* ------------------------------------------------------------------ *)
(** ** The state of the application and its computations *)

(** What [st.error], [st.warning], [st.success] and [st.info] show. *)
Inductive mensaje : Type :=
| st_error (txt : string)
| st_warning (txt : string)
| st_success (txt : string)
| st_info (txt : string).

Record Estado : Type := mk_estado {
  USERS_FILE : archivo usuario;        (* usuarios.csv *)
  SCORES_FILE : archivo fila;          (* scores.csv *)
  session_user : option usuario;       (* st.session_state["user"] *)
  menu_request : option string;        (* st.session_state["menu_request"] *)
  worksheet : list fila;               (* rows of the remote worksheet *)
  pagina : list mensaje;               (* messages on the page *)
  sidebar : list mensaje               (* messages on the sidebar *)
}.

Inductive resultado (A : Type) : Type :=
| Ok (a : A)
| Raise (e : excepcion).
Arguments Ok {A} a.
Arguments Raise {A} e.

(** A computation reads and writes the state and returns or raises. *)
Definition M (A : Type) : Type := Estado -> resultado A * Estado.

Definition ret {A} (a : A) : M A := fun st => (Ok a, st).

Definition bind {A B} (c : M A) (k : A -> M B) : M B :=
  fun st =>
    match c st with
    | (Ok a, st') => k a st'
    | (Raise e, st') => (Raise e, st')
    end.

Definition raise {A} (e : excepcion) : M A := fun st => (Raise e, st).

(** [try: c  except Exception as e: h e] *)
Definition try_except {A} (c : M A) (h : excepcion -> M A) : M A :=
  fun st =>
    match c st with
    | (Ok a, st') => (Ok a, st')
    | (Raise e, st') => h e st'
    end.

Definition get : M Estado := fun st => (Ok st, st).
Definition modify (f : Estado -> Estado) : M unit := fun st => (Ok tt, f st).

Declare Scope m_scope.
Delimit Scope m_scope with m.
Notation "x <- c ;; k" := (bind c (fun x => k))
  (at level 61, c at next level, right associativity) : m_scope.
Notation "c ;;; k" := (bind c (fun _ => k))
  (at level 61, right associativity) : m_scope.
Local Open Scope m_scope.

Definition set_USERS_FILE (f : archivo usuario) (st : Estado) : Estado :=
  mk_estado f (SCORES_FILE st) (session_user st) (menu_request st)
    (worksheet st) (pagina st) (sidebar st).
Definition set_SCORES_FILE (f : archivo fila) (st : Estado) : Estado :=
  mk_estado (USERS_FILE st) f (session_user st) (menu_request st)
    (worksheet st) (pagina st) (sidebar st).
Definition set_session_user (u : option usuario) (st : Estado) : Estado :=
  mk_estado (USERS_FILE st) (SCORES_FILE st) u (menu_request st)
    (worksheet st) (pagina st) (sidebar st).
Definition set_menu_request (m : option string) (st : Estado) : Estado :=
  mk_estado (USERS_FILE st) (SCORES_FILE st) (session_user st) m
    (worksheet st) (pagina st) (sidebar st).
Definition set_worksheet (w : list fila) (st : Estado) : Estado :=
  mk_estado (USERS_FILE st) (SCORES_FILE st) (session_user st)
    (menu_request st) w (pagina st) (sidebar st).
Definition escribe_pagina (m : mensaje) (st : Estado) : Estado :=
  mk_estado (USERS_FILE st) (SCORES_FILE st) (session_user st)
    (menu_request st) (worksheet st) (pagina st ++ [m]) (sidebar st).
Definition escribe_sidebar (m : mensaje) (st : Estado) : Estado :=
  mk_estado (USERS_FILE st) (SCORES_FILE st) (session_user st)
    (menu_request st) (worksheet st) (pagina st) (sidebar st ++ [m]).

(** [pd.read_csv(path)] *)
Definition read_csv {R} (path : Estado -> archivo R) : M (list R) :=
  fun st =>
    match path st with
    | Csv filas => (Ok filas, st)
    | Ilegible e => (Raise e, st)
    end.

(** [str(x)] inside an f-string. *)
Definition str_cell (c : cell) : string :=
  match c with
  | Str s => s
  | Int z => NilEmpty.string_of_int (Z.to_int z)
  | NaN => "nan"
  end.

(** The state after [init_files()] on a fresh directory, with nobody
    logged in. *)
Definition estado_inicial : Estado :=
  mk_estado (Csv []) (Csv []) None None [] [] [].

(* ------------------------------------------------------------------ *)
(** ** Session and users *)

(** [load_users()] *)
Definition load_users : M (list usuario) :=
  try_except (read_csv USERS_FILE) (fun _ => ret []).

(** [save_users(df)] *)
Definition save_users (df : list usuario) : M unit :=
  modify (set_USERS_FILE (Csv (map usuario_csv df))).

(** [df["email"] == email], row by row. *)
Definition es_email (email : string) (u : usuario) : bool :=
  cell_eqb (u_email u) (Str email).

(** [email in df["email"].values] *)
Definition email_in (email : string) (df : list usuario) : bool :=
  existsb (es_email email) df.

(** [df[df["email"] == email].iloc[0].to_dict()]; [iloc[0]] raises on an
    empty selection. *)
Definition primera (email : string) (df : list usuario) : M usuario :=
  match filter (es_email email) df with
  | u :: _ => ret u
  | [] => raise (Exception "single positional indexer is out-of-bounds")
  end.

(** [df.loc[df["email"] == email, ["nombre", "nickname"]] = [n, k]] *)
Definition loc_set (email : string) (n k : cell) (df : list usuario)
  : list usuario :=
  map (fun u =>
         if es_email email u
         then mk_usuario (u_email u) n k (u_fecha_registro u)
         else u) df.

(** [login_or_register(email, nombre, nickname)]; [ahora] is what
    [datetime.now()] returns. *)
Definition login_or_register (ahora : datetime)
    (email nombre nickname : string) : M usuario :=
  df <- load_users ;;
  let email := Str.lower (Str.strip email) in
  user_row <-
    (if email_in email df then
       user_row <- primera email df ;;
       let user_row :=
         if Str.truthy (Str.strip nombre)
         then mk_usuario (u_email user_row) (Str (Str.strip nombre))
                (u_nickname user_row) (u_fecha_registro user_row)
         else user_row in
       let user_row :=
         if Str.truthy (Str.strip nickname)
         then mk_usuario (u_email user_row) (u_nombre user_row)
                (Str (Str.strip nickname)) (u_fecha_registro user_row)
         else user_row in
       let df := loc_set email (u_nombre user_row) (u_nickname user_row) df in
       save_users df ;;;
       ret user_row
     else
       let fecha_registro := strftime ahora in
       let nueva :=
         mk_usuario (Str email) (Str (Str.strip nombre))
           (Str (Str.strip nickname)) fecha_registro in
       let df := df ++ [nueva] in
       save_users df ;;;
       ret nueva) ;;
  modify (set_session_user (Some user_row)) ;;;
  ret user_row.

(** [login_user(email)] *)
Definition login_user (email : string) : M (option usuario) :=
  df <- load_users ;;
  let email := Str.lower (Str.strip email) in
  if email_in email df then
    user_row <- primera email df ;;
    modify (set_session_user (Some user_row)) ;;;
    ret (Some user_row)
  else ret None.

(** [get_display_name(user)]; [None] is the absent user. *)
Definition get_display_name (user : option usuario) : cell :=
  match user with
  | None => Str ""
  | Some u =>
      if truthy (u_nickname u) then u_nickname u
      else if truthy (u_nombre u) then u_nombre u
      else u_email u
  end.

(** The ["Entrar"] form, on submit. *)
Definition form_entrar (email_login : string) : M unit :=
  if negb (Str.truthy (Str.strip email_login)) then
    modify (escribe_pagina (st_error "Ingresa tu correo electrónico."))
  else if negb (Re.match_ EMAIL_RE (Str.strip email_login)) then
    modify (escribe_pagina (st_error "Correo electrónico inválido."))
  else
    user <- login_user email_login ;;
    match user with
    | Some u =>
        modify (escribe_pagina
                  (st_success ("Bienvenido, "
                               ++ str_cell (get_display_name user))%string)) ;;;
        modify (set_menu_request (Some "Registrar puntaje"))
    | None =>
        modify (escribe_pagina
                  (st_warning "Usuario no encontrado. Ve a 'Registrarse' para crear una cuenta."))
    end.

(** The ["Registrarse"] form, on submit. *)
Definition form_registrar (ahora : datetime)
    (email_reg nombre_reg nick_reg : string) : M unit :=
  if negb (Str.truthy (Str.strip email_reg)) then
    modify (escribe_pagina (st_error "El correo electrónico es obligatorio."))
  else if negb (Re.match_ EMAIL_RE (Str.strip email_reg)) then
    modify (escribe_pagina (st_error "Correo electrónico inválido."))
  else
    user <- login_or_register ahora email_reg nombre_reg nick_reg ;;
    modify (escribe_pagina
              (st_success ("Usuario creado. Bienvenido, "
                           ++ str_cell (get_display_name (Some user)))%string)) ;;;
    modify (set_menu_request (Some "Registrar puntaje")).

(* ------------------------------------------------------------------ *)
(** ** Google Sheets *)

(** How the outside world answers the calls into [gspread] and
    [google.oauth2]: [None] when the call returns, [Some e] when it raises
    [e].  [USE_GOOGLE_SHEETS] is the flag after the import attempt (an
    [ImportError] resets it to [False]). *)
Record Google : Type := mk_google {
  USE_GOOGLE_SHEETS : bool;
  from_service_account_file : option excepcion;
  authorize : option excepcion;
  open_worksheet : option excepcion;
  append_row : option excepcion
}.

Definition llamada (r : option excepcion) : M unit :=
  match r with
  | None => ret tt
  | Some e => raise e
  end.

(** [get_gsheet_client()]: [Some tt] is a client, [None] is [None]. *)
Definition get_gsheet_client (g : Google) : M (option unit) :=
  if negb (USE_GOOGLE_SHEETS g) then ret None
  else
    try_except
      (llamada (from_service_account_file g) ;;;
       llamada (authorize g) ;;;
       ret (Some tt))
      (fun e =>
         modify (escribe_sidebar
                   (st_warning ("Error conectando a Google Sheets: "
                                ++ str_exc e)%string)) ;;;
         ret None).

(** [append_to_gsheet(row_list)] *)
Definition append_to_gsheet (g : Google) (row_list : fila) : M unit :=
  if negb (USE_GOOGLE_SHEETS g) then ret tt
  else
    client <- get_gsheet_client g ;;
    match client with
    | None => ret tt
    | Some _ =>
        try_except
          (llamada (open_worksheet g) ;;;
           llamada (append_row g) ;;;
           modify (fun st => set_worksheet (worksheet st ++ [row_list]) st))
          (fun e =>
             modify (escribe_sidebar
                       (st_warning ("Error al escribir en Google Sheets: "
                                    ++ str_exc e)%string)))
    end.

(* ------------------------------------------------------------------ *)
(** ** Screen: register a score *)

(** [sum(golpes)] *)
Definition sum (l : list Z) : Z := fold_left Z.add l 0.

(** [df_scores.loc[len(df_scores)] = nueva_fila]: a new row under the
    next label; pandas raises when the list and the columns differ in
    length. *)
Definition loc_append (df : list fila) (nueva_fila : fila) : M (list fila) :=
  if Nat.eqb (ancho nueva_fila) (List.length cols_scores)
  then ret (df ++ [nueva_fila])
  else raise (ValueError "cannot set a row with mismatched columns").

(** [df_scores.to_csv(SCORES_FILE, index=False)] *)
Definition to_csv_scores (df : list fila) : M unit :=
  modify (set_SCORES_FILE (Csv (map fila_csv df))).

(** The body of [if submit_puntaje:]. *)
Definition guardar_puntaje (g : Google) (ahora : datetime)
    (user_email display_name : cell) (golpes : list Z) : M unit :=
  let total := sum golpes in
  let fecha := strftime ahora in
  df_scores <- read_csv SCORES_FILE ;;
  let nueva_fila := mk_fila fecha user_email display_name golpes total in
  df_scores <- loc_append df_scores nueva_fila ;;
  to_csv_scores df_scores ;;;
  append_to_gsheet g nueva_fila ;;;
  modify (escribe_pagina
            (st_success ("Puntaje guardado. Total: **"
                         ++ str_cell (Int total) ++ " golpes** para "
                         ++ str_cell display_name ++ ".")%string)).

Definition min_value : Z := 1.
Definition max_value : Z := 20.

Section FormPuntaje.

(** [st.number_input(f"Hoyo {i}", min_value=1, max_value=20, value=3,
    key=f"hoyo_{i}")]: the value the widget of hole [i] returns.
    Streamlit keeps it between [min_value] and [max_value]. *)
Variable number_input : nat -> Z.

(** The loop [for i in range(1, 15): ... golpes.append(valor)]. *)
Definition form_puntaje : list Z := map number_input (seq 1 14).

(** The screen ["Registrar puntaje"]: the guard on the session, the
    form and, when the button was pressed, the body above. *)
Definition registrar_puntaje (g : Google) (ahora : datetime)
    (submit_puntaje : bool) : M unit :=
  st <- get ;;
  match session_user st with
  | None =>
      modify (escribe_pagina
                (st_warning "Primero inicia sesión o regístrate en la pestaña 'Iniciar sesión / Registro'."))
  | Some user =>
      let display_name := get_display_name (Some user) in
      let user_email := u_email user in
      let golpes := form_puntaje in
      if submit_puntaje
      then guardar_puntaje g ahora user_email display_name golpes
      else ret tt
  end.

End FormPuntaje.

(* ------------------------------------------------------------------ *)
(** ** Screen: ranking *)

Inductive filtro : Type :=
| Historico
| Hoy
| Ultimos_7_dias
| Ultimos_30_dias.

(** A row of [mostrar]: the columns [pos, fecha, nombre_mostrar, email,
    total]. *)
Record renglon : Type := mk_renglon {
  pos : nat;
  r_fecha : Z;
  r_nombre_mostrar : cell;
  r_email : cell;
  r_total : Z
}.

(** What the screen shows: a notice or the table. *)
Inductive salida : Type :=
| Aviso (txt : string)
| Tabla (mostrar : list renglon).

(** The selection made for each value of the select box. *)
Definition en_rango (f : filtro) (ahora : datetime) (x : fila) : bool :=
  let fecha_dt := to_datetime (fecha x) in
  match f with
  | Historico => true
  | Hoy => Z.eqb (fecha_dt / un_dia) (ahora / un_dia)
  | Ultimos_7_dias => (ahora - 7 * un_dia <=? fecha_dt)
  | Ultimos_30_dias => (ahora - 30 * un_dia <=? fecha_dt)
  end.

(** [df["pos"] = range(1, len(df) + 1)] followed by the selection of the
    five columns. *)
Definition con_pos (df : list fila) : list renglon :=
  map (fun '(p, x) =>
         mk_renglon p (fecha x) (nombre_mostrar x) (email x) (total x))
      (combine (seq 1 (List.length df)) df).

(** [.head(50)] *)
Definition head (n : nat) {A} (l : list A) : list A := firstn n l.

Section Ranking.

(** [df.sort_values("total")]; the screen is stated for any ordering,
    [sort_values_quicksort] below being the one of pandas' default
    [kind]. *)
Variable sort_values : list fila -> list fila.

(** The screen ["Ver ranking"] on the table read from scores.csv. *)
Definition ver_ranking (f : filtro) (ahora : datetime) (df : list fila)
  : salida :=
  match df with
  | [] => Aviso "Todavía no hay partidas registradas."
  | _ =>
      let df := filter (en_rango f ahora) df in
      match df with
      | [] => Aviso "No hay registros en este rango de tiempo."
      | _ =>
          let df := sort_values df in
          Tabla (head 50 (con_pos df))
      end
  end.

End Ranking.

(** What [sort_values] promises whatever the [kind]: the rows of the
    frame, reordered so that the key ascends. *)
Definition por_total (a b : fila) : Prop := total a <= total b.

Definition ordena_por_total (sort_values : list fila -> list fila) : Prop :=
  forall df,
    Permutation df (sort_values df) /\
    StronglySorted por_total (sort_values df).

(** An ordering that keeps that promise and, on equal keys, the order
    of the frame: a row is inserted before the first row it does not
    exceed. *)
Fixpoint inserta (cmp : Z -> Z -> bool) (x : fila) (l : list fila)
  : list fila :=
  match l with
  | [] => [x]
  | y :: l' =>
      if cmp (total x) (total y) then x :: l else y :: inserta cmp x l'
  end.

Definition orden_estable (df : list fila) : list fila :=
  fold_right (inserta Z.leb) [] df.

(** The rows of the table shown, none under a notice. *)
Definition filas_de (s : salida) : list renglon :=
  match s with
  | Aviso _ => []
  | Tabla mostrar => mostrar
  end.

(** The four columns a row of the table takes from a row of the file. *)
Definition datos (r : renglon) : Z * cell * cell * Z :=
  (r_fecha r, r_nombre_mostrar r, r_email r, r_total r).

Definition datos_fila (x : fila) : Z * cell * cell * Z :=
  (fecha x, nombre_mostrar x, email x, total x).

(** Four cards with the totals 50, 42, 42 and 60, in the order they were
    saved. *)
Definition cartas4 : list fila :=
  [ mk_fila 1700000100 (Str "ana@club.cl") (Str "anita") (8 :: repeat 3 12 ++ [6]) 50;
    mk_fila 1700000200 (Str "leo@club.cl") (Str "Leo") (repeat 3 14) 42;
    mk_fila 1700000300 (Str "eva@club.cl") (Str "Eva") (repeat 3 14) 42;
    mk_fila 1700000400 (Str "teo@club.cl") (Str "Teo") (repeat 4 13 ++ [8]) 60 ].

(** A part of an address: at least one character and no at sign. *)
Fixpoint sin_arroba (s : string) : bool :=
  match s with
  | EmptyString => true
  | String c s' => negb (Ascii.eqb c "@") && sin_arroba s'
  end.

Definition parte (s : string) : Prop := s <> "" /\ sin_arroba s = true.

(** The shape [local@domain.tld] of the specification: the whole text is
    a local part, an at sign, a domain, a dot and a last part. *)
Definition forma_local_dominio_tld (s : string) : Prop :=
  exists l d t,
    s = (l ++ "@" ++ d ++ "." ++ t)%string /\ parte l /\ parte d /\ parte t.

(* ------------------------------------------------------------------ *)
(** ** [sort_values] with the default [kind]: numpy's quicksort

    [df.sort_values("total")] takes the rows of the frame in the order
    [argsort(kind="quicksort")] gives for the column: numpy's
    [aquicksort_] on an index array that starts as [0 .. n-1].  The
    routine is an introsort: ranges of more than 17 positions are split
    around the median of three, the others are sorted by insertion, and a
    range reached after too many splits is handed to the heapsort.  What
    follows is the routine for a column of integers, a pointer into
    [tosort] being a position of the list.  In numpy's source
    (npysort/quicksort.cpp) the routine reads:
<<
    npy_intp *pl = tosort, *pr = tosort + num - 1;
    int cdepth = npy_get_msb(num) * 2;
    while (1) {
        if (cdepth < 0) {
            aheapsort_(vv, pl, pr - pl + 1);
            goto stack_pop;
        }
        while ((pr - pl) > SMALL_QUICKSORT) {
            pm = pl + ((pr - pl) >> 1);
            if (less(v[ *pm ], v[ *pl ])) INTP_SWAP( *pm, *pl );
            if (less(v[ *pr ], v[ *pm ])) INTP_SWAP( *pr, *pm );
            if (less(v[ *pm ], v[ *pl ])) INTP_SWAP( *pm, *pl );
            vp = v[ *pm ];
            pi = pl;
            pj = pr - 1;
            INTP_SWAP( *pm, *pj );
            for (;;) {
                do { ++pi; } while (less(v[ *pi ], vp));
                do { --pj; } while (less(vp, v[ *pj ]));
                if (pi >= pj) break;
                INTP_SWAP( *pi, *pj );
            }
            pk = pr - 1;
            INTP_SWAP( *pi, *pk );
            /* push largest partition on stack */
            if (pi - pl < pr - pi) {
                *sptr++ = pi + 1;  *sptr++ = pr;  pr = pi - 1;
            } else {
                *sptr++ = pl;  *sptr++ = pi - 1;  pl = pi + 1;
            }
            *psdepth++ = --cdepth;
        }
        /* insertion sort */
        for (pi = pl + 1; pi <= pr; ++pi) {
            vi = *pi;  vp = v[vi];  pj = pi;  pk = pi - 1;
            while (pj > pl && less(vp, v[ *pk ])) { *pj-- = *pk--; }
            *pj = vi;
        }
    stack_pop:
        if (sptr == stack) break;
        pr = *(--sptr);  pl = *(--sptr);  cdepth = *(--psdepth);
    }
>>
    and the heapsort, with [a = tosort - 1] so that the heap is counted
    from 1:
<<
    for (l = n >> 1; l > 0; --l) {
        tmp = a[l];
        for (i = l, j = l << 1; j <= n;) {
            if (j < n && less(v[a[j]], v[a[j + 1]])) j += 1;
            if (less(v[tmp], v[a[j]])) { a[i] = a[j]; i = j; j += j; }
            else break;
        }
        a[i] = tmp;
    }
    for (; n > 1;) {
        tmp = a[n];  a[n] = a[1];  n -= 1;
        for (i = 1, j = 2; j <= n;) {
            if (j < n && less(v[a[j]], v[a[j + 1]])) j++;
            if (less(v[tmp], v[a[j]])) { a[i] = a[j]; i = j; j += j; }
            else break;
        }
        a[i] = tmp;
    }
>> *)

Definition SMALL_QUICKSORT : nat := 16.

(** [*p = x] *)
Fixpoint pon (p : nat) (x : nat) (tosort : list nat) : list nat :=
  match tosort, p with
  | [], _ => []
  | _ :: l, O => x :: l
  | y :: l, S p' => y :: pon p' x l
  end.

(** [INTP_SWAP( *p, *q )] *)
Definition INTP_SWAP (p q : nat) (tosort : list nat) : list nat :=
  pon q (nth p tosort 0%nat) (pon p (nth q tosort 0%nat) tosort).

Section Npysort.

(** The column sorted by: [v[i]] is [nth i v 0]. *)
Variable v : list Z.

(** [v[*p]] *)
Definition en (tosort : list nat) (p : nat) : Z :=
  nth (nth p tosort 0%nat) v 0.

(** [while (pj > pl && vp < v[*pk]) { *pj-- = *pk--; }], with [pk] one
    below [pj]; returns the array and the last [pj]. *)
Fixpoint desplaza (vp : Z) (pl pj : nat) (tosort : list nat)
  : list nat * nat :=
  match pj with
  | O => (tosort, pj)
  | S pk =>
      if (pl <? pj)%nat && (vp <? en tosort pk)
      then desplaza vp pl pk (pon pj (nth pk tosort 0%nat) tosort)
      else (tosort, pj)
  end.

(** The body of the insertion loop for one [pi]. *)
Definition inserta_pi (pl : nat) (tosort : list nat) (pi : nat) : list nat :=
  let vi := nth pi tosort 0%nat in
  let vp := nth vi v 0 in
  let '(tosort, pj) := desplaza vp pl pi tosort in
  pon pj vi tosort.

(** [for (pi = pl + 1; pi <= pr; ++pi) ...]: the insertion sort of the
    positions [pl .. pr]. *)
Definition insercion (pl pr : nat) (tosort : list nat) : list nat :=
  fold_left (inserta_pi pl) (seq (pl + 1) (pr - pl)) tosort.

(** [do { ++pi; } while (v[*pi] < vp)]; [n] bounds the steps, the pivot
    one below [pr] stops the scan before. *)
Fixpoint sube (vp : Z) (tosort : list nat) (n pi : nat) : nat :=
  match n with
  | O => S pi
  | S n' =>
      if en tosort (S pi) <? vp then sube vp tosort n' (S pi) else S pi
  end.

(** [do { --pj; } while (vp < v[*pj])]; the position [pl], whose value
    does not exceed the pivot, stops the scan. *)
Fixpoint baja (vp : Z) (tosort : list nat) (pj : nat) : nat :=
  match pj with
  | O => O
  | S pj' => if vp <? en tosort pj' then baja vp tosort pj' else pj'
  end.

(** The loop [for (;;)] of the partition; returns the array and the
    last [pi]. *)
Fixpoint particiona (n : nat) (vp : Z) (pi pj : nat) (tosort : list nat)
  : list nat * nat :=
  match n with
  | O => (tosort, pi)
  | S n' =>
      let pi := sube vp tosort (pj - pi) pi in
      let pj := baja vp tosort pj in
      if (pj <=? pi)%nat then (tosort, pi)
      else particiona n' vp pi pj (INTP_SWAP pi pj tosort)
  end.

(** One pass of [while ((pr - pl) > SMALL_QUICKSORT)], up to the place
    the pivot is put in: median of three, the pivot set aside one below
    [pr], the two scans, the pivot put back. *)
Definition particion (pl pr : nat) (tosort : list nat) : list nat * nat :=
  let pm := (pl + Nat.div2 (pr - pl))%nat in
  let tosort :=
    if en tosort pm <? en tosort pl then INTP_SWAP pm pl tosort else tosort in
  let tosort :=
    if en tosort pr <? en tosort pm then INTP_SWAP pr pm tosort else tosort in
  let tosort :=
    if en tosort pm <? en tosort pl then INTP_SWAP pm pl tosort else tosort in
  let vp := en tosort pm in
  let pi := pl in
  let pj := (pr - 1)%nat in
  let tosort := INTP_SWAP pm pj tosort in
  let '(tosort, pi) := particiona (pr - pl) vp pi pj tosort in
  let pk := (pr - 1)%nat in
  (INTP_SWAP pi pk tosort, pi).

(** The sift of [aheapsort_]: [tmp] goes down from [i] in the heap of
    the [n] positions from [pl] on, counted from 1. *)
Fixpoint hunde (fuel : nat) (pl n : nat) (tmp : nat) (i j : nat)
    (tosort : list nat) : list nat :=
  match fuel with
  | O => pon (pl + i - 1) tmp tosort
  | S fuel' =>
      if (j <=? n)%nat then
        let j :=
          if (j <? n)%nat && (en tosort (pl + j - 1) <? en tosort (pl + j))
          then S j else j in
        if nth tmp v 0 <? en tosort (pl + j - 1)
        then hunde fuel' pl n tmp j (j + j)
               (pon (pl + i - 1) (nth (pl + j - 1) tosort 0%nat) tosort)
        else pon (pl + i - 1) tmp tosort
      else pon (pl + i - 1) tmp tosort
  end.

(** [aheapsort_(vv, pl, n)]: the heap is built from the middle down to
    the first position, then the maximum is taken out [n - 1] times. *)
Definition aheapsort_ (pl n : nat) (tosort : list nat) : list nat :=
  let tosort :=
    fold_left
      (fun tosort l =>
         hunde n pl n (nth (pl + l - 1) tosort 0%nat) l (l + l) tosort)
      (rev (seq 1 (Nat.div2 n))) tosort in
  fold_left
    (fun tosort n =>
       let tmp := nth (pl + n - 1) tosort 0%nat in
       let tosort := pon (pl + n - 1) (nth pl tosort 0%nat) tosort in
       hunde n pl (n - 1) tmp 1 2 tosort)
    (rev (seq 2 (n - 1))) tosort.

(** The loop [while (1)] on the range [pl .. pr] with its [cdepth].  A
    range taken from the stack goes to the heapsort when its [cdepth] is
    negative; the range the loop goes on with is not tested.  Of the two
    sides of a split the larger is pushed and the smaller sorted first;
    [fuel] bounds the nesting of the splits. *)
Fixpoint aquicksort_rango (fuel : nat) (de_la_pila : bool) (cdepth : Z)
    (pl pr : nat) (tosort : list nat) : list nat :=
  match fuel with
  | O => tosort
  | S fuel' =>
      if de_la_pila && (cdepth <? 0) then
        aheapsort_ pl (pr - pl + 1) tosort
      else if (SMALL_QUICKSORT <? pr - pl)%nat then
        let '(tosort, pi) := particion pl pr tosort in
        let cdepth := cdepth - 1 in
        if (pi - pl <? pr - pi)%nat then
          let tosort := aquicksort_rango fuel' false cdepth pl (pi - 1) tosort in
          aquicksort_rango fuel' true cdepth (pi + 1) pr tosort
        else
          let tosort := aquicksort_rango fuel' false cdepth (pi + 1) pr tosort in
          aquicksort_rango fuel' true cdepth pl (pi - 1) tosort
      else insercion pl pr tosort
  end.

(** [npy_get_msb(num) * 2] *)
Definition cdepth_inicial (num : nat) : Z := Z.of_nat (Nat.log2 num) * 2.

(** [aquicksort_(v, tosort, num)] *)
Definition aquicksort_ (tosort : list nat) (num : nat) : list nat :=
  aquicksort_rango num true (cdepth_inicial num) 0 (num - 1) tosort.

(** [v.argsort(kind="quicksort")] *)
Definition argsort : list nat :=
  aquicksort_ (seq 0 (List.length v)) (List.length v).

End Npysort.

(** [df.take(indexer)]: the rows at the positions listed. *)
Definition take (df : list fila) (indexer : list nat) : list fila :=
  flat_map (fun i => match nth_error df i with
                     | Some x => [x]
                     | None => []
                     end) indexer.

(** [df.sort_values("total")]: the rows taken in the order of
    [argsort]. *)
Definition sort_values_quicksort (df : list fila) : list fila :=
  take df (argsort (map total df)).

(** Eighteen cards with the total 42, saved one second after the
    other. *)
Definition cartas18 : list fila :=
  map (fun i => mk_fila (1700000000 + Z.of_nat i) (Str "ana@club.cl")
                  (Str "anita") (repeat 3 14) 42)
    (seq 1 18).

(** The value of the column at a position, and the order it gives to
    the positions. *)
Definition valor (v : list Z) (i : nat) : Z := nth i v 0.

Definition por_valor (v : list Z) (i j : nat) : Prop := valor v i <= valor v j.

(** What a stable sort by [valor] is: a rearrangement in ascending
    order that keeps, among the entries of one value, the order they
    had. *)
Definition ordenado_estable (v : list Z) (l out : list nat) : Prop :=
  Permutation l out /\
  StronglySorted (por_valor v) out /\
  forall k, filter (fun i => valor v i =? k) out
            = filter (fun i => valor v i =? k) l.

(** [a'] is [a] with the positions [pl .. pr] rearranged and the others
    as they were. *)
Definition reordena (pl pr : nat) (a a' : list nat) : Prop :=
  List.length a' = List.length a /\
  (forall i, (i < pl \/ pr < i)%nat -> nth i a' 0%nat = nth i a 0%nat) /\
  Permutation a a'.

(** The values at the positions [pl .. pr] ascend. *)
Definition ordenado_en (v : list Z) (pl pr : nat) (a : list nat) : Prop :=
  forall i j, (pl <= i)%nat -> (i <= j)%nat -> (j <= pr)%nat ->
              en v a i <= en v a j.

(** The heap of [aheapsort_] on the [n] positions from [pl] on, counted
    from 1: from the node [l] on, no child exceeds its parent. *)
Definition monticulo_desde (v : list Z) (pl l n : nat) (a : list nat) : Prop :=
  forall k c, (l <= k)%nat -> (c = 2 * k \/ c = 2 * k + 1)%nat -> (c <= n)%nat ->
              en v a (pl + c - 1) <= en v a (pl + k - 1).

(* ------------------------------------------------------------------ *)
(** ** Notions used by the statements *)

(** The table [load_users()] returns in a state. *)
Definition tabla (st : Estado) : list usuario :=
  match USERS_FILE st with
  | Csv filas => filas
  | Ilegible _ => []
  end.

(** [email.strip().lower()] *)
Definition normaliza (email : string) : string :=
  Str.lower (Str.strip email).

(** The row [login_or_register] keeps in [user_row] for an existing
    user [u]. *)
Definition actualiza (nombre nickname : string) (u : usuario) : usuario :=
  let u1 :=
    if Str.truthy (Str.strip nombre)
    then mk_usuario (u_email u) (Str (Str.strip nombre))
           (u_nickname u) (u_fecha_registro u)
    else u in
  if Str.truthy (Str.strip nickname)
  then mk_usuario (u_email u1) (u_nombre u1)
         (Str (Str.strip nickname)) (u_fecha_registro u1)
  else u1.

(** The two tests the forms make before they resolve an identity. *)
Definition acepta (email : string) : bool :=
  Str.truthy (Str.strip email) && Re.match_ EMAIL_RE (Str.strip email).

(** A submission of the ["Registrarse"] form. *)
Record alta : Type := mk_alta {
  a_ahora : datetime;
  a_email : string;
  a_nombre : string;
  a_nick : string
}.

(** The submissions of a list, one after the other. *)
Fixpoint registrar_todas (l : list alta) : M unit :=
  match l with
  | [] => ret tt
  | a :: l' =>
      form_registrar (a_ahora a) (a_email a) (a_nombre a) (a_nick a) ;;;
      registrar_todas l'
  end.

(** A cell is blank when it holds no text: empty, or missing once read
    back from the file. *)
Definition en_blanco (c : cell) : bool :=
  match c with
  | Str s => negb (Str.truthy (Str.strip s))
  | Int _ => false
  | NaN => true
  end.

(** The display name of the specification: the nickname unless blank,
    else the name unless blank, else the email. *)
Definition displayName_spec (u : usuario) : cell :=
  if negb (en_blanco (u_nickname u)) then u_nickname u
  else if negb (en_blanco (u_nombre u)) then u_nombre u
  else u_email u.

(** The operations of the application: the three forms on submit and
    the ranking screen. *)
Inductive operacion : Type :=
| op_entrar (email_login : string)
| op_registrar (a : alta)
| op_guardar (g : Google) (ahora : datetime) (user_email display_name : cell)
    (golpes : list Z)
| op_ranking (f : filtro) (ahora : datetime).

(** The screen ["Ver ranking"] as a computation: it reads the file and
    shows [ver_ranking]. *)
Definition pantalla_ranking (sort_values : list fila -> list fila)
    (f : filtro) (ahora : datetime) : M salida :=
  df <- read_csv SCORES_FILE ;;
  ret (ver_ranking sort_values f ahora df).

Definition ejecuta (sort_values : list fila -> list fila) (o : operacion)
  : M unit :=
  match o with
  | op_entrar email_login => form_entrar email_login
  | op_registrar a =>
      form_registrar (a_ahora a) (a_email a) (a_nombre a) (a_nick a)
  | op_guardar g ahora user_email display_name golpes =>
      guardar_puntaje g ahora user_email display_name golpes
  | op_ranking f ahora =>
      pantalla_ranking sort_values f ahora ;;; ret tt
  end.

(** The state after a list of operations, one run of the script each;
    an operation that raises leaves the state as it was when it raised. *)
Fixpoint ejecuta_todas (sort_values : list fila -> list fila)
    (ops : list operacion) (st : Estado) : Estado :=
  match ops with
  | [] => st
  | o :: ops' => ejecuta_todas sort_values ops' (snd (ejecuta sort_values o st))
  end.

(** The rows of scores.csv in a state. *)
Definition ledger (st : Estado) : list fila :=
  match SCORES_FILE st with
  | Csv filas => filas
  | Ilegible _ => []
  end.

(** A computation that leaves scores.csv as it is, whether it returns or
    raises. *)
Definition conserva_scores {A} (c : M A) : Prop :=
  forall st, SCORES_FILE (snd (c st)) = SCORES_FILE st.

(** A stroke list as the specification wants it. *)
Definition golpes_validos (golpes : list Z) : Prop :=
  List.length golpes = 14%nat /\
  Forall (fun v => min_value <= v <= max_value) golpes.

(** The invariant of usuarios.csv: the file is readable, no two rows
    carry the same email, and every email is as it is read back. *)
Definition tabla_ok (st : Estado) : Prop :=
  exists filas,
    USERS_FILE st = Csv filas /\
    NoDup (map u_email filas) /\
    Forall (fun u => csv_cell (u_email u) = u_email u) filas.

(** A state whose users file holds the profile of ana@club.cl. *)
Definition estado_con_ana : Estado :=
  mk_estado
    (Csv [mk_usuario (Str "ana@club.cl") (Str "Ana") (Str "anita") 1700000000])
    (Csv []) None None [] [] [].

(** A state whose users file cannot be parsed. *)
Definition estado_corrupto : Estado :=
  mk_estado (Ilegible (ParserError "Error tokenizing data")) (Csv [])
    None None [] [] [].

(** The mirror reports a warning exactly when it is enabled and one of
    its calls raises. *)
Definition mirror_falla (g : Google) : bool :=
  USE_GOOGLE_SHEETS g &&
  match from_service_account_file g, authorize g, open_worksheet g, append_row g with
  | None, None, None, None => false
  | _, _, _, _ => true
  end.

(* ------------------------------------------------------------------ *)
(** ** The rest of the script *)

(** The two paths before the script runs: a path may hold no file. *)
Record Disco : Type := mk_disco {
  d_usuarios : option (archivo usuario);
  d_scores : option (archivo fila)
}.

(** [init_files()]: where [os.path.exists] finds nothing, a file with
    the header and no row is written. *)
Definition init_files (d : Disco) : Disco :=
  let d :=
    match d_usuarios d with
    | None => mk_disco (Some (Csv [])) (d_scores d)
    | Some _ => d
    end in
  match d_scores d with
  | None => mk_disco (d_usuarios d) (Some (Csv []))
  | Some _ => d
  end.

(** [del st.session_state[key]] under [if key in st.session_state], on
    the keys of the session other than ["user"] and ["menu_request"],
    which [Estado] holds. *)
Definition del {V} (key : string) (ss : list (string * V))
  : list (string * V) :=
  filter (fun kv => negb (String.eqb (fst kv) key)) ss.

(** [logout_user()]; [safe_rerun()] asks Streamlit for another run and
    touches nothing here. *)
Definition logout_user {V} (ss : list (string * V)) : M (list (string * V)) :=
  modify (set_session_user None) ;;;
  let ss :=
    fold_left (fun ss i => del ("hoyo_" ++ Str.of_nat i)%string ss)
      (seq 1 14) ss in
  modify (set_menu_request (Some "Iniciar sesión / Registro")) ;;;
  modify (escribe_sidebar (st_info "Sesión cerrada.")) ;;;
  ret ss.

(** The lines before the radio: a pending request replaces the value of
    the key ["menu"] and is popped; an absent key gets the first screen.
    [menu] is the value of the key, [None] when absent; the result is the
    value the radio is bound to. *)
Definition aplica_menu_request (menu : option string) : M string :=
  st <- get ;;
  menu <-
    match menu_request st with
    | Some m => modify (set_menu_request None) ;;; ret (Some m)
    | None => ret menu
    end ;;
  ret (match menu with
       | Some m => m
       | None => "Iniciar sesión / Registro"
       end).

(** A computation that leaves a component of the state as it is, whether
    it returns or raises. *)
Definition conserva {A B} (campo : Estado -> B) (c : M A) : Prop :=
  forall st, campo (snd (c st)) = campo st.

(** A cell as a text column gives it back on read: missing, or a text
    that is not empty. *)
Definition celda_leida (c : cell) : Prop :=
  c = NaN \/ exists s, c = Str s /\ s <> "".

(** A row of usuarios.csv written by the registration form and read
    back. *)
Definition usuario_leido (u : usuario) : Prop :=
  (exists e, u_email u = Str e /\ e <> "") /\
  celda_leida (u_nombre u) /\ celda_leida (u_nickname u).

(** The characters a pattern names. *)
Fixpoint letras (r : Re.regex) : list ascii :=
  match r with
  | Re.Void | Re.Eps => []
  | Re.Chr c | Re.NotChr c => [c]
  | Re.Cat r1 r2 | Re.Alt r1 r2 => letras r1 ++ letras r2
  | Re.Star r1 => letras r1
  end.


(** A character the lower-casing neither produces nor consumes. *)
Definition neutra (c : ascii) : Prop :=
  forall a, Ascii.eqb (Str.lower_char a) c = Ascii.eqb a c.

(** usuarios.csv as the registration form leaves it: readable, one row
    per email, every row as it is read back. *)
Definition tabla_leida (st : Estado) : Prop :=
  tabla_ok st /\ Forall usuario_leido (tabla st).

(** The email and the registration time of a row. *)
Definition clave (u : usuario) : cell * Z := (u_email u, u_fecha_registro u).

(** The name the registration form greets a new player with: the first
    of the stripped nickname, the stripped name and the normal form of
    the email that is not empty. *)
Definition nombre_visible (email nombre nick : string) : string :=
  if Str.truthy (Str.strip nick) then Str.strip nick
  else if Str.truthy (Str.strip nombre) then Str.strip nombre
  else normaliza email.


(** "Trimmed, lower-cased", said without [strip] and [lower]. *)

(** A text made of white space only. *)
Fixpoint blancos (s : string) : Prop :=
  match s with
  | EmptyString => True
  | String c s' => Str.isspace c = true /\ blancos s'
  end.

Definition primero (s : string) : option ascii :=
  match s with
  | EmptyString => None
  | String c _ => Some c
  end.

Fixpoint ultimo (s : string) : option ascii :=
  match s with
  | EmptyString => None
  | String c s' =>
      match s' with
      | EmptyString => Some c
      | String _ _ => ultimo s'
      end
  end.

(** A text that neither begins nor ends with white space. *)
Definition recortado (s : string) : Prop :=
  (forall c, primero s = Some c -> Str.isspace c = false) /\
  (forall c, ultimo s = Some c -> Str.isspace c = false).

(** A capital letter, A to Z. *)
Definition mayuscula (c : ascii) : bool :=
  let n := nat_of_ascii c in ((65 <=? n) && (n <=? 90))%nat.

(** [e] is [m] with every capital letter replaced by its small letter,
    32 places further in the table, and every other character kept. *)
Fixpoint minusculas_de (m e : string) : Prop :=
  match m, e with
  | EmptyString, EmptyString => True
  | String c m', String d e' =>
      (if mayuscula c then nat_of_ascii d = (nat_of_ascii c + 32)%nat
       else d = c) /\
      minusculas_de m' e'
  | _, _ => False
  end.

Fixpoint sin_mayusculas (s : string) : Prop :=
  match s with
  | EmptyString => True
  | String c s' => mayuscula c = false /\ sin_mayusculas s'
  end.

(** [e] is the normalized form of [email]: the text between the white
    space at its two ends, lower-cased. *)
Definition forma_normal (email e : string) : Prop :=
  exists pre m post,
    email = (pre ++ m ++ post)%string /\
    blancos pre /\ blancos post /\ recortado m /\ minusculas_de m e.

(** What a card records of the round played: when it was saved, the
    strokes and the total. *)
Definition ronda (f : fila) : Z * list Z * Z := (fecha f, hoyos f, total f).

(* ------------------------------------------------------------------ *)
(** * Properties *)

(** ** Strings and patterns *)

Lemma strip_truthy_nonempty s : Str.truthy s = true <-> s <> "".
Proof. destruct s; simpl; split; congruence. Qed.

Lemma lower_empty s : Str.lower s = "" -> s = "".
Proof. destruct s; simpl; congruence. Qed.

Lemma acepta_normaliza_nonempty email :
  acepta email = true -> normaliza email <> "".
Proof.
  unfold acepta, normaliza. intros H.
  apply andb_true_iff in H. destruct H as [H _].
  apply strip_truthy_nonempty in H. intros E. apply lower_empty in E.
  contradiction.
Qed.

Lemma append_nil_r (s : string) : (s ++ "")%string = s.
Proof. induction s; simpl; congruence. Qed.

Lemma append_assoc (a b c : string) :
  ((a ++ b) ++ c)%string = (a ++ (b ++ c))%string.
Proof. induction a; simpl; congruence. Qed.

Lemma isspace_lower_char c : Str.isspace (Str.lower_char c) = Str.isspace c.
Proof. destruct c as [[] [] [] [] [] [] [] []]; reflexivity. Qed.

Lemma lower_char_idem c : Str.lower_char (Str.lower_char c) = Str.lower_char c.
Proof. destruct c as [[] [] [] [] [] [] [] []]; reflexivity. Qed.

Lemma lower_idem s : Str.lower (Str.lower s) = Str.lower s.
Proof.
  induction s as [|c s IH]; simpl; [reflexivity|].
  now rewrite lower_char_idem, IH.
Qed.

Lemma lstrip_lower s : Str.lstrip (Str.lower s) = Str.lower (Str.lstrip s).
Proof.
  induction s as [|c s IH]; simpl; [reflexivity|].
  rewrite isspace_lower_char. destruct (Str.isspace c); [exact IH | reflexivity].
Qed.

Lemma rstrip_lower s : Str.rstrip (Str.lower s) = Str.lower (Str.rstrip s).
Proof.
  induction s as [|c s IH]; simpl; [reflexivity|].
  rewrite IH, isspace_lower_char.
  destruct (Str.rstrip s); simpl; [destruct (Str.isspace c)|]; reflexivity.
Qed.

Lemma strip_lower s : Str.strip (Str.lower s) = Str.lower (Str.strip s).
Proof. unfold Str.strip. now rewrite rstrip_lower, lstrip_lower. Qed.

Lemma lstrip_idem s : Str.lstrip (Str.lstrip s) = Str.lstrip s.
Proof.
  induction s as [|c s IH]; simpl; [reflexivity|].
  destruct (Str.isspace c) eqn:E; [exact IH|]. simpl. now rewrite E.
Qed.

Lemma rstrip_idem s : Str.rstrip (Str.rstrip s) = Str.rstrip s.
Proof.
  induction s as [|c s IH]; simpl; [reflexivity|].
  destruct (Str.rstrip s) as [|d r] eqn:E.
  - destruct (Str.isspace c) eqn:Ec; simpl; [reflexivity|]. now rewrite Ec.
  - change (Str.rstrip (String c (String d r))) with
      (match Str.rstrip (String d r) with
       | EmptyString =>
           if Str.isspace c then EmptyString else String c EmptyString
       | r0 => String c r0
       end).
    rewrite IH. reflexivity.
Qed.

Lemma rstrip_lstrip s : Str.rstrip (Str.lstrip s) = Str.lstrip (Str.rstrip s).
Proof.
  induction s as [|c s IH]; [reflexivity|].
  simpl Str.lstrip at 1. simpl Str.rstrip at 2.
  destruct (Str.isspace c) eqn:Ec.
  - rewrite IH. destruct (Str.rstrip s); simpl; [reflexivity|].
    now rewrite Ec.
  - simpl Str.rstrip at 1.
    destruct (Str.rstrip s); simpl; rewrite Ec; reflexivity.
Qed.

Lemma strip_idem s : Str.strip (Str.strip s) = Str.strip s.
Proof.
  unfold Str.strip. now rewrite rstrip_lstrip, rstrip_idem, lstrip_idem.
Qed.

Lemma normaliza_idem email : normaliza (normaliza email) = normaliza email.
Proof.
  unfold normaliza. now rewrite strip_lower, strip_idem, lower_idem.
Qed.

(** ** Trimmed and lower-cased *)

Lemma lstrip_partes s :
  exists pre,
    s = (pre ++ Str.lstrip s)%string /\ blancos pre /\
    forall c, primero (Str.lstrip s) = Some c -> Str.isspace c = false.
Proof.
  induction s as [|a s IH]; simpl.
  - exists "". simpl. repeat split; auto. discriminate.
  - destruct (Str.isspace a) eqn:E.
    + destruct IH as [pre [H1 [H2 H3]]].
      exists (String a pre). simpl. rewrite <- H1. repeat split; auto.
    + exists "". simpl. repeat split; auto. intros c [= <-]. exact E.
Qed.

Lemma rstrip_partes s :
  exists post,
    s = (Str.rstrip s ++ post)%string /\ blancos post /\
    forall c, ultimo (Str.rstrip s) = Some c -> Str.isspace c = false.
Proof.
  induction s as [|a s IH]; simpl.
  - exists "". simpl. repeat split; auto. discriminate.
  - destruct IH as [post [H1 [H2 H3]]].
    destruct (Str.rstrip s) as [|b r] eqn:R.
    + destruct (Str.isspace a) eqn:E.
      * exists (String a post). simpl in *.
        split; [f_equal; exact H1|]. split; [split; [exact E | exact H2]|].
        intros c Hc. discriminate Hc.
      * exists post. simpl in *.
        split; [f_equal; exact H1|]. split; [exact H2|].
        intros c Hc. injection Hc as <-. exact E.
    + exists post.
      split; [simpl; f_equal; exact H1|]. split; [exact H2|]. exact H3.
Qed.

Lemma ultimo_lstrip s c :
  ultimo (Str.lstrip s) = Some c -> ultimo s = Some c.
Proof.
  induction s as [|a s IH]; simpl; [auto|].
  destruct (Str.isspace a) eqn:E.
  - intros H. specialize (IH H). destruct s; [discriminate|exact IH].
  - auto.
Qed.

(** [strip] removes white space at the two ends and nothing else. *)
Lemma strip_partes s :
  exists pre post,
    s = (pre ++ Str.strip s ++ post)%string /\
    blancos pre /\ blancos post /\ recortado (Str.strip s).
Proof.
  unfold Str.strip.
  destruct (rstrip_partes s) as [post [H1 [H2 H3]]].
  destruct (lstrip_partes (Str.rstrip s)) as [pre [H4 [H5 H6]]].
  exists pre, post. split.
  - rewrite <- append_assoc, <- H4. exact H1.
  - repeat split; auto.
    intros c Hc. apply H3. now apply ultimo_lstrip.
Qed.

Lemma lower_minusculas m : minusculas_de m (Str.lower m).
Proof.
  induction m as [|c m IH]; simpl; [exact I|]. split; [|exact IH].
  unfold Str.lower_char, mayuscula.
  destruct ((65 <=? nat_of_ascii c)%nat && (nat_of_ascii c <=? 90)%nat) eqn:E;
    [|reflexivity].
  apply nat_ascii_embedding.
  apply andb_true_iff in E. destruct E as [_ E]. apply Nat.leb_le in E. lia.
Qed.

Lemma minusculas_unica m : forall e,
  minusculas_de m e -> e = Str.lower m.
Proof.
  induction m as [|c m IH]; intros [|d e]; simpl; try tauto.
  intros [H1 H2]. f_equal; [|now apply IH].
  unfold Str.lower_char. fold (mayuscula c).
  destruct (mayuscula c) eqn:E; [|exact H1].
  rewrite <- H1. symmetry. apply ascii_nat_embedding.
Qed.

Lemma lstrip_blancos pre s :
  blancos pre -> Str.lstrip (pre ++ s) = Str.lstrip s.
Proof.
  induction pre as [|a pre IH]; simpl; [reflexivity|].
  intros [-> H]. now apply IH.
Qed.

Lemma lstrip_primero s :
  (forall c, primero s = Some c -> Str.isspace c = false) ->
  Str.lstrip s = s.
Proof.
  destruct s as [|a s]; simpl; [reflexivity|].
  intros H. now rewrite (H a eq_refl).
Qed.

Lemma rstrip_blancos post : blancos post -> Str.rstrip post = "".
Proof.
  induction post as [|a post IH]; simpl; [reflexivity|].
  intros [-> H]. now rewrite IH.
Qed.

Lemma rstrip_ultimo s :
  (forall c, ultimo s = Some c -> Str.isspace c = false) ->
  Str.rstrip s = s.
Proof.
  induction s as [|a s IH]; simpl; [reflexivity|].
  intros H. destruct s as [|b s].
  - simpl. now rewrite (H a eq_refl).
  - rewrite IH by exact H. reflexivity.
Qed.

Lemma rstrip_app_blancos s post :
  blancos post -> Str.rstrip (s ++ post) = Str.rstrip s.
Proof.
  intros H. induction s as [|a s IH]; simpl.
  - now apply rstrip_blancos.
  - now rewrite IH.
Qed.

Lemma rstrip_app_no_vacio pre s :
  Str.rstrip s <> "" -> Str.rstrip (pre ++ s) = (pre ++ Str.rstrip s)%string.
Proof.
  intros H. induction pre as [|a pre IH]; simpl; [reflexivity|].
  rewrite IH. destruct (pre ++ Str.rstrip s)%string eqn:E; [|reflexivity].
  exfalso. destruct pre; simpl in E; [contradiction | discriminate].
Qed.

(** The text between the white space at the two ends is what [strip]
    returns. *)
Lemma partes_strip pre m post :
  blancos pre -> blancos post -> recortado m ->
  Str.strip (pre ++ m ++ post) = m.
Proof.
  intros Hpre Hpost [Hp Hu]. unfold Str.strip.
  rewrite <- append_assoc, rstrip_app_blancos by exact Hpost.
  destruct m as [|a m].
  - rewrite append_nil_r, rstrip_blancos by exact Hpre. reflexivity.
  - rewrite rstrip_app_no_vacio.
    + rewrite rstrip_ultimo by exact Hu.
      rewrite lstrip_blancos by exact Hpre. now apply lstrip_primero.
    + rewrite rstrip_ultimo by exact Hu. discriminate.
Qed.

(** The normalized form of the specification is the text the code
    computes, and no other. *)
Lemma forma_normal_normaliza email e :
  forma_normal email e <-> e = normaliza email.
Proof.
  unfold forma_normal, normaliza. split.
  - intros [pre [m [post [-> [H1 [H2 [H3 H4]]]]]]].
    rewrite partes_strip by assumption. now apply minusculas_unica.
  - intros ->. destruct (strip_partes email) as [pre [post [H1 [H2 [H3 H4]]]]].
    exists pre, (Str.strip email), post. repeat split; auto; try apply H4.
    apply lower_minusculas.
Qed.

Lemma mayuscula_lower_char c : mayuscula (Str.lower_char c) = false.
Proof. destruct c as [[] [] [] [] [] [] [] []]; reflexivity. Qed.

Lemma lower_sin_mayusculas s : sin_mayusculas (Str.lower s).
Proof.
  induction s as [|c s IH]; simpl; [exact I|].
  split; [apply mayuscula_lower_char | exact IH].
Qed.

Lemma ultimo_lower s :
  ultimo (Str.lower s) = option_map Str.lower_char (ultimo s).
Proof.
  induction s as [|c s IH]; simpl; [reflexivity|].
  destruct s as [|d s]; [reflexivity|]. exact IH.
Qed.

Lemma lower_recortado s : recortado s -> recortado (Str.lower s).
Proof.
  intros [Hp Hu]. split; intros c Hc.
  - destruct s as [|a s]; simpl in Hc; [discriminate|].
    injection Hc as <-. rewrite isspace_lower_char. now apply Hp.
  - rewrite ultimo_lower in Hc. destruct (ultimo s) as [a|]; [|discriminate].
    injection Hc as <-. rewrite isspace_lower_char. now apply Hu.
Qed.

(** What the code stores is trimmed and in lower case. *)
Lemma normaliza_normal email :
  recortado (normaliza email) /\ sin_mayusculas (normaliza email).
Proof.
  unfold normaliza. split; [|apply lower_sin_mayusculas].
  apply lower_recortado.
  destruct (strip_partes email) as [pre [post [_ [_ [_ H]]]]]. exact H.
Qed.

Lemma sin_mayusculas_minusculas e : sin_mayusculas e -> minusculas_de e e.
Proof.
  induction e as [|c e IH]; simpl; [auto|].
  intros [-> H]. split; [reflexivity | now apply IH].
Qed.

(** A trimmed text in lower case is its own normalized form. *)
Lemma normal_forma_normal e :
  recortado e -> sin_mayusculas e -> forma_normal e e.
Proof.
  intros H1 H2. exists "", e, "". rewrite append_nil_r. simpl.
  repeat split; auto; try apply H1. now apply sin_mayusculas_minusculas.
Qed.

(** ** The users table *)

Lemma load_users_tabla st : load_users st = (Ok (tabla st), st).
Proof.
  unfold load_users, try_except, read_csv, tabla, ret.
  destruct (USERS_FILE st); reflexivity.
Qed.

Lemma es_email_iff e u : es_email e u = true <-> u_email u = Str e.
Proof.
  unfold es_email. destruct (u_email u); simpl; split; try congruence.
  - intros H. apply String.eqb_eq in H. congruence.
  - intros H. injection H as ->. apply String.eqb_refl.
Qed.

Lemma email_in_iff e df :
  email_in e df = true <-> In (Str e) (map u_email df).
Proof.
  unfold email_in. rewrite existsb_exists, in_map_iff. split.
  - intros [u [Hin H]]. exists u. split; [now apply es_email_iff | exact Hin].
  - intros [u [H Hin]]. exists u. split; [exact Hin | now apply es_email_iff].
Qed.

Lemma email_in_filter e df :
  email_in e df = true ->
  exists u rest, filter (es_email e) df = u :: rest /\ u_email u = Str e.
Proof.
  unfold email_in. intros H. apply existsb_exists in H.
  destruct H as [u [Hin Hu]].
  assert (Hf : In u (filter (es_email e) df)) by (apply filter_In; auto).
  destruct (filter (es_email e) df) as [|v rest] eqn:E; [destruct Hf|].
  exists v, rest. split; [reflexivity|].
  assert (Hv : In v (filter (es_email e) df)) by (rewrite E; now left).
  apply filter_In in Hv. now apply es_email_iff.
Qed.

(** [login_or_register] on an email that is not in the table. *)
Lemma login_or_register_nuevo ahora email nombre nickname st :
  email_in (normaliza email) (tabla st) = false ->
  let nueva := mk_usuario (Str (normaliza email)) (Str (Str.strip nombre))
                 (Str (Str.strip nickname)) (strftime ahora) in
  login_or_register ahora email nombre nickname st =
  (Ok nueva,
   set_session_user (Some nueva)
     (set_USERS_FILE (Csv (map usuario_csv (tabla st ++ [nueva]))) st)).
Proof.
  intros H nueva. unfold login_or_register, bind.
  rewrite load_users_tabla. fold (normaliza email). rewrite H.
  reflexivity.
Qed.

(** [login_or_register] on an email that is in the table. *)
Lemma login_or_register_existente ahora email nombre nickname st u rest :
  filter (es_email (normaliza email)) (tabla st) = u :: rest ->
  let user_row := actualiza nombre nickname u in
  login_or_register ahora email nombre nickname st =
  (Ok user_row,
   set_session_user (Some user_row)
     (set_USERS_FILE
        (Csv (map usuario_csv
                (loc_set (normaliza email) (u_nombre user_row)
                   (u_nickname user_row) (tabla st)))) st)).
Proof.
  intros H user_row. unfold login_or_register, bind.
  rewrite load_users_tabla. fold (normaliza email).
  assert (Hin : email_in (normaliza email) (tabla st) = true).
  { unfold email_in. apply existsb_exists. exists u.
    assert (Hu : In u (filter (es_email (normaliza email)) (tabla st)))
      by (rewrite H; now left).
    apply filter_In in Hu. exact Hu. }
  rewrite Hin. unfold primera. rewrite H. reflexivity.
Qed.

Lemma csv_cell_texto s : s <> "" -> csv_cell (Str s) = Str s.
Proof. destruct s; simpl; congruence. Qed.

Lemma loc_set_length e n k df : List.length (loc_set e n k df) = List.length df.
Proof. unfold loc_set. apply length_map. Qed.

Lemma loc_set_emails e n k df : map u_email (loc_set e n k df) = map u_email df.
Proof.
  unfold loc_set. rewrite map_map. apply map_ext. intros u.
  destruct (es_email e u); reflexivity.
Qed.

Lemma loc_set_coincide e n k df v :
  In v (loc_set e n k df) -> es_email e v = true ->
  u_nombre v = n /\ u_nickname v = k.
Proof.
  unfold loc_set. intros Hin Hv. apply in_map_iff in Hin.
  destruct Hin as [u [Hu _]]. destruct (es_email e u) eqn:E.
  - subst v. simpl. auto.
  - subst v. congruence.
Qed.

Lemma actualiza_email n k u : u_email (actualiza n k u) = u_email u.
Proof.
  unfold actualiza.
  destruct (Str.truthy (Str.strip n)), (Str.truthy (Str.strip k)); reflexivity.
Qed.

Lemma actualiza_nombre_dado n k u :
  Str.strip n <> "" -> u_nombre (actualiza n k u) = Str (Str.strip n).
Proof.
  unfold actualiza. intros H. apply strip_truthy_nonempty in H. rewrite H.
  destruct (Str.truthy (Str.strip k)); reflexivity.
Qed.

(** The ["Registrarse"] form on an input that fails one of its tests:
    only a message is written. *)
Lemma form_registrar_rechaza ahora email nombre nick st :
  acepta email = false ->
  exists txt,
    form_registrar ahora email nombre nick st =
    (Ok tt, escribe_pagina (st_error txt) st).
Proof.
  unfold acepta, form_registrar. intros H.
  destruct (Str.truthy (Str.strip email)); simpl in *.
  - rewrite H. simpl. eexists. reflexivity.
  - eexists. reflexivity.
Qed.

(** The ["Registrarse"] form on an input that passes: the identity is
    resolved, then the page and the menu are updated. *)
Lemma form_registrar_acepta ahora email nombre nick st user st1 :
  acepta email = true ->
  login_or_register ahora email nombre nick st = (Ok user, st1) ->
  exists txt,
    form_registrar ahora email nombre nick st =
    (Ok tt,
     set_menu_request (Some "Registrar puntaje")
       (escribe_pagina (st_success txt) st1)).
Proof.
  unfold acepta, form_registrar. intros H Hl.
  apply andb_true_iff in H. destruct H as [H1 H2]. rewrite H1, H2. simpl.
  unfold bind. rewrite Hl. eexists. reflexivity.
Qed.

Lemma map_usuario_csv_emails df :
  Forall (fun u => csv_cell (u_email u) = u_email u) df ->
  map u_email (map usuario_csv df) = map u_email df.
Proof.
  intros H. rewrite map_map. induction H; simpl; [reflexivity|].
  f_equal; assumption.
Qed.

Lemma usuario_csv_idem_email df :
  Forall (fun u => csv_cell (u_email u) = u_email u) df ->
  Forall (fun u => csv_cell (u_email u) = u_email u) (map usuario_csv df).
Proof.
  intros H. induction H; simpl; constructor; auto.
  simpl. rewrite H. exact H.
Qed.

Lemma tabla_Csv st filas : USERS_FILE st = Csv filas -> tabla st = filas.
Proof. unfold tabla. now intros ->. Qed.

(** What one submission does to the table: the emails already there
    stay, in the same order, and the submitted one is there afterwards,
    at the end when it is new. *)
Lemma form_registrar_tabla ahora email nombre nick st :
  tabla_ok st ->
  let st' := snd (form_registrar ahora email nombre nick st) in
  tabla_ok st' /\
  (acepta email = false -> tabla st' = tabla st) /\
  (acepta email = true ->
   email_in (normaliza email) (tabla st) = true ->
   map u_email (tabla st') = map u_email (tabla st)) /\
  (acepta email = true ->
   email_in (normaliza email) (tabla st) = false ->
   map u_email (tabla st') = map u_email (tabla st) ++ [Str (normaliza email)]).
Proof.
  intros [filas [Hf [Hnd Hall]]] st'.
  pose proof (tabla_Csv _ _ Hf) as Ht.
  destruct (acepta email) eqn:Ha.
  - destruct (email_in (normaliza email) (tabla st)) eqn:Hin.
    + destruct (email_in_filter _ _ Hin) as [u [rest [Hfil Hu]]].
      pose proof (login_or_register_existente ahora email nombre nick st u rest Hfil) as Hl.
      cbv zeta in Hl.
      destruct (form_registrar_acepta _ _ _ _ _ _ _ Ha Hl) as [txt Hr].
      subst st'. rewrite Hr. simpl.
      assert (Hall' : Forall (fun u => csv_cell (u_email u) = u_email u)
                        (loc_set (normaliza email)
                           (u_nombre (actualiza nombre nick u))
                           (u_nickname (actualiza nombre nick u)) (tabla st))).
      { apply Forall_forall. intros v Hv. unfold loc_set in Hv.
        apply in_map_iff in Hv. destruct Hv as [w [Hw Hin']].
        rewrite Ht in Hin'. rewrite Forall_forall in Hall.
        specialize (Hall w Hin').
        destruct (es_email (normaliza email) w); subst v; simpl; exact Hall. }
      split; [|split; [discriminate|split; [|discriminate]]].
      * eexists. split; [reflexivity|]. split.
        -- rewrite map_usuario_csv_emails by exact Hall'.
           rewrite loc_set_emails, Ht. exact Hnd.
        -- apply usuario_csv_idem_email. exact Hall'.
      * intros _ _. unfold tabla at 1. simpl.
        rewrite map_usuario_csv_emails by exact Hall'.
        apply loc_set_emails.
    + pose proof (login_or_register_nuevo ahora email nombre nick st Hin) as Hl.
      cbv zeta in Hl.
      destruct (form_registrar_acepta _ _ _ _ _ _ _ Ha Hl) as [txt Hr].
      subst st'. rewrite Hr. simpl.
      pose proof (acepta_normaliza_nonempty _ Ha) as Hne.
      set (nueva := mk_usuario (Str (normaliza email)) (Str (Str.strip nombre))
                      (Str (Str.strip nick)) (strftime ahora)) in *.
      assert (Hall' : Forall (fun u => csv_cell (u_email u) = u_email u)
                        (tabla st ++ [nueva])).
      { apply Forall_app. split; [rewrite Ht; exact Hall|].
        constructor; [|constructor]. simpl. now apply csv_cell_texto. }
      assert (Hem : map u_email (map usuario_csv (tabla st ++ [nueva]))
                    = map u_email (tabla st) ++ [Str (normaliza email)]).
      { rewrite map_usuario_csv_emails by exact Hall'.
        rewrite map_app. reflexivity. }
      split; [|split; [discriminate|split; [discriminate|]]].
      * eexists. split; [reflexivity|]. split.
        -- rewrite Hem. rewrite Ht.
           apply NoDup_app_remove_l with (l := []). simpl.
           apply Permutation_NoDup with (l := Str (normaliza email) :: map u_email filas).
           ++ apply Permutation_cons_append.
           ++ constructor; [|exact Hnd].
              intros Hc. rewrite <- Ht in Hc. apply email_in_iff in Hc.
              congruence.
        -- apply usuario_csv_idem_email. exact Hall'.
      * intros _ _. unfold tabla at 1. simpl. exact Hem.
  - destruct (form_registrar_rechaza ahora email nombre nick st Ha) as [txt Hr].
    subst st'. rewrite Hr. simpl.
    split; [|split; [|split; discriminate]].
    + exists filas. simpl. auto.
    + intros _. reflexivity.
Qed.

Lemma form_registrar_existente ahora email nombre nick st u rest :
  acepta email = true ->
  filter (es_email (normaliza email)) (tabla st) = u :: rest ->
  tabla (snd (form_registrar ahora email nombre nick st)) =
  map usuario_csv
    (loc_set (normaliza email) (u_nombre (actualiza nombre nick u))
       (u_nickname (actualiza nombre nick u)) (tabla st)).
Proof.
  intros Ha Hfil.
  pose proof (login_or_register_existente ahora email nombre nick st u rest Hfil) as Hl.
  cbv zeta in Hl.
  destruct (form_registrar_acepta _ _ _ _ _ _ _ Ha Hl) as [txt Hr].
  rewrite Hr. reflexivity.
Qed.

(** The form never raises. *)
Lemma form_registrar_ok ahora email nombre nick st :
  fst (form_registrar ahora email nombre nick st) = Ok tt.
Proof.
  destruct (acepta email) eqn:Ha.
  - destruct (email_in (normaliza email) (tabla st)) eqn:Hin.
    + destruct (email_in_filter _ _ Hin) as [u [rest [Hfil _]]].
      pose proof (login_or_register_existente ahora email nombre nick st u rest Hfil) as Hl.
      cbv zeta in Hl.
      destruct (form_registrar_acepta _ _ _ _ _ _ _ Ha Hl) as [txt ->].
      reflexivity.
    + pose proof (login_or_register_nuevo ahora email nombre nick st Hin) as Hl.
      cbv zeta in Hl.
      destruct (form_registrar_acepta _ _ _ _ _ _ _ Ha Hl) as [txt ->].
      reflexivity.
  - destruct (form_registrar_rechaza ahora email nombre nick st Ha) as [txt ->].
    reflexivity.
Qed.

Lemma registrar_todas_cons a l st :
  snd (registrar_todas (a :: l) st) =
  snd (registrar_todas l
         (snd (form_registrar (a_ahora a) (a_email a) (a_nombre a) (a_nick a) st))).
Proof.
  simpl. unfold bind.
  pose proof (form_registrar_ok (a_ahora a) (a_email a) (a_nombre a) (a_nick a) st) as H.
  destruct (form_registrar (a_ahora a) (a_email a) (a_nombre a) (a_nick a) st)
    as [r st1]. simpl in *. subst r. reflexivity.
Qed.

(** After one submission the submitted email is in the table and those
    that were there still are. *)
Lemma form_registrar_emails ahora email nombre nick st :
  tabla_ok st ->
  let st' := snd (form_registrar ahora email nombre nick st) in
  tabla_ok st' /\
  incl (map u_email (tabla st)) (map u_email (tabla st')) /\
  (acepta email = true -> In (Str (normaliza email)) (map u_email (tabla st'))).
Proof.
  intros Hok st'.
  destruct (form_registrar_tabla ahora email nombre nick st Hok)
    as [Hok' [Hrej [Hex Hnew]]].
  fold st' in Hok', Hrej, Hex, Hnew.
  split; [exact Hok'|].
  destruct (acepta email) eqn:Ha.
  - destruct (email_in (normaliza email) (tabla st)) eqn:Hin.
    + rewrite (Hex eq_refl eq_refl). split; [apply incl_refl|].
      intros _. now apply email_in_iff.
    + rewrite (Hnew eq_refl eq_refl). split; [apply incl_appl, incl_refl|].
      intros _. apply in_or_app. right. now left.
  - rewrite (Hrej eq_refl). split; [apply incl_refl | discriminate].
Qed.

Lemma registrar_todas_emails l : forall st,
  tabla_ok st ->
  let st' := snd (registrar_todas l st) in
  tabla_ok st' /\
  incl (map u_email (tabla st)) (map u_email (tabla st')) /\
  (forall a, In a l -> acepta (a_email a) = true ->
             In (Str (normaliza (a_email a))) (map u_email (tabla st'))).
Proof.
  induction l as [|a l IH]; intros st Hok.
  - simpl. split; [exact Hok|]. split; [apply incl_refl|]. intros a [].
  - cbv zeta. rewrite registrar_todas_cons.
    destruct (form_registrar_emails (a_ahora a) (a_email a) (a_nombre a)
                (a_nick a) st Hok) as [Hok1 [Hincl1 Hin1]].
    destruct (IH _ Hok1) as [Hok2 [Hincl2 Hin2]].
    split; [exact Hok2|]. split.
    + eapply incl_tran; eassumption.
    + intros b [<-|Hb] Hacc.
      * apply Hincl2. now apply Hin1.
      * now apply Hin2.
Qed.

Lemma una_sola_fila e df :
  NoDup (map u_email df) -> In (Str e) (map u_email df) ->
  exists u, filter (es_email e) df = [u] /\ u_email u = Str e.
Proof.
  induction df as [|v df IH]; simpl; intros Hnd Hin; [destruct Hin|].
  inversion Hnd as [|x l Hnot Hnd']; subst.
  destruct (es_email e v) eqn:E.
  - apply es_email_iff in E. exists v. split; [|exact E].
    f_equal. rewrite E in Hnot.
    destruct (filter (es_email e) df) as [|w rest] eqn:F; [reflexivity|].
    exfalso. apply Hnot.
    assert (Hw : In w (filter (es_email e) df)) by (rewrite F; now left).
    apply filter_In in Hw. destruct Hw as [Hw1 Hw2].
    apply es_email_iff in Hw2. rewrite <- Hw2. now apply in_map.
  - destruct Hin as [Hin|Hin].
    + apply es_email_iff in Hin. congruence.
    + exact (IH Hnd' Hin).
Qed.

Lemma estado_inicial_ok : tabla_ok estado_inicial.
Proof.
  exists []. split; [reflexivity|]. split; constructor.
Qed.

Lemma csv_cell_Str c e : csv_cell c = Str e -> c = Str e.
Proof. destruct c as [[|a s]| |]; simpl; congruence. Qed.

(** Every email of the table comes from the table before or from an
    accepted submission, whose normal form it is. *)
Lemma registrar_todas_origen l : forall st,
  tabla_ok st ->
  forall c, In c (map u_email (tabla (snd (registrar_todas l st)))) ->
    In c (map u_email (tabla st)) \/
    exists a, In a l /\ acepta (a_email a) = true /\
              c = Str (normaliza (a_email a)).
Proof.
  induction l as [|a l IH]; intros st Hok c Hc.
  - left. exact Hc.
  - rewrite registrar_todas_cons in Hc.
    destruct (form_registrar_tabla (a_ahora a) (a_email a) (a_nombre a)
                (a_nick a) st Hok) as [Hok1 [Hrej [Hex Hnew]]].
    destruct (IH _ Hok1 c Hc) as [H|[b [Hb [Hacc E]]]].
    + destruct (acepta (a_email a)) eqn:Ha.
      * destruct (email_in (normaliza (a_email a)) (tabla st)) eqn:Hin.
        -- rewrite (Hex eq_refl eq_refl) in H. now left.
        -- rewrite (Hnew eq_refl eq_refl) in H. apply in_app_or in H.
           destruct H as [H|[<-|[]]]; [now left|].
           right. exists a. split; [now left|]. split; [exact Ha|reflexivity].
      * rewrite (Hrej eq_refl) in H. now left.
    + right. exists b. split; [now right|]. split; [exact Hacc|exact E].
Qed.

(** Two submissions that name the same email, the second one with a
    name: one row afterwards as before, and it carries the name. *)
Lemma dos_altas st t1 t2 e1 e2 n k2 :
  tabla_ok st ->
  acepta e1 = true -> acepta e2 = true -> normaliza e1 = normaliza e2 ->
  Str.strip n <> "" ->
  let st1 := snd (form_registrar t1 e1 "" "" st) in
  let st2 := snd (form_registrar t2 e2 n k2 st1) in
  List.length (tabla st2) = List.length (tabla st1) /\
  exists u,
    filter (es_email (normaliza e2)) (tabla st2) = [u] /\
    u_nombre u = Str (Str.strip n).
Proof.
  intros Hok Ha1 Ha2 He Hn st1 st2.
  destruct (form_registrar_emails t1 e1 "" "" st Hok) as [Hok1 [_ Hin1]].
  fold st1 in Hok1, Hin1.
  specialize (Hin1 Ha1). rewrite He in Hin1.
  assert (Hex : email_in (normaliza e2) (tabla st1) = true)
    by now apply email_in_iff.
  destruct (email_in_filter _ _ Hex) as [u [rest [Hfil Hu]]].
  pose proof (form_registrar_existente t2 e2 n k2 st1 u rest Ha2 Hfil) as Ht2.
  fold st2 in Ht2.
  destruct (form_registrar_emails t2 e2 n k2 st1 Hok1) as [Hok2 [_ Hin2]].
  fold st2 in Hok2, Hin2. specialize (Hin2 Ha2).
  split.
  - rewrite Ht2, length_map, loc_set_length. reflexivity.
  - destruct Hok2 as [filas2 [Hf2 [Hnd2 _]]].
    rewrite (tabla_Csv _ _ Hf2) in *.
    destruct (una_sola_fila _ _ Hnd2 Hin2) as [v [Hv Hve]].
    exists v. split; [exact Hv|].
    assert (Hvin : In v filas2).
    { assert (H : In v (filter (es_email (normaliza e2)) filas2))
        by (rewrite Hv; now left).
      apply filter_In in H. tauto. }
    rewrite Ht2 in Hvin. apply in_map_iff in Hvin.
    destruct Hvin as [w [Hw Hwin]]. subst v. simpl in Hve.
    apply csv_cell_Str in Hve.
    destruct (loc_set_coincide _ _ _ _ _ Hwin (proj2 (es_email_iff _ _) Hve))
      as [Hnm _].
    simpl. rewrite Hnm, actualiza_nombre_dado by exact Hn.
    now apply csv_cell_texto.
Qed.

(** C4. Starting from the empty store and after any sequence of
    submissions of the registration form, usuarios.csv holds exactly one
    profile per normalized (trimmed, lower-cased) email: every stored
    email is trimmed, in lower case, and the normalized form of the email
    of an accepted submission; every accepted submission has exactly one
    row, under the normalized form of its email; and no two rows carry
    emails with the same normalized form.  After any such history,
    submitting "A@B.com" and then "a@b.com" with the name "X", or
    "  A@B.com " and then "a@b.com  " with the name "X", leaves the
    number of rows of the first submission unchanged and the single row
    of "a@b.com" carries the name "X". *)
Theorem C4_un_perfil_por_email :
  forall previas : list alta,
    let st := snd (registrar_todas previas estado_inicial) in
    (exists filas,
        USERS_FILE st = Csv filas /\
        (forall u, In u filas ->
           exists a e,
             In a previas /\ acepta (a_email a) = true /\
             forma_normal (a_email a) e /\ u_email u = Str e /\
             recortado e /\ sin_mayusculas e) /\
        (forall a, In a previas -> acepta (a_email a) = true ->
           exists e u,
             forma_normal (a_email a) e /\
             filter (es_email e) filas = [u] /\ u_email u = Str e) /\
        (forall i j u v eu ev n,
           nth_error filas i = Some u -> nth_error filas j = Some v ->
           u_email u = Str eu -> u_email v = Str ev ->
           forma_normal eu n -> forma_normal ev n -> i = j)) /\
    forall t1 t2 : datetime,
      (let st1 := snd (form_registrar t1 "A@B.com" "" "" st) in
       let st2 := snd (form_registrar t2 "a@b.com" "X" "" st1) in
       List.length (tabla st2) = List.length (tabla st1) /\
       exists u,
         filter (es_email "a@b.com") (tabla st2) = [u] /\
         u_nombre u = Str "X") /\
      (let st1 := snd (form_registrar t1 "  A@B.com " "" "" st) in
       let st2 := snd (form_registrar t2 "a@b.com  " "X" "" st1) in
       List.length (tabla st2) = List.length (tabla st1) /\
       exists u,
         filter (es_email "a@b.com") (tabla st2) = [u] /\
         u_nombre u = Str "X").
Proof.
  intros previas st.
  destruct (registrar_todas_emails previas estado_inicial estado_inicial_ok)
    as [Hok [_ Hin]].
  fold st in Hok, Hin.
  pose proof (registrar_todas_origen previas estado_inicial estado_inicial_ok)
    as Hor.
  fold st in Hor.
  split.
  - destruct Hok as [filas [Hf [Hnd Hall]]].
    rewrite (tabla_Csv _ _ Hf) in *.
    assert (Horigen : forall u, In u filas ->
              exists a, In a previas /\ acepta (a_email a) = true /\
                        u_email u = Str (normaliza (a_email a))).
    { intros u Hu.
      destruct (Hor (u_email u) (in_map u_email _ _ Hu)) as [[]|H]. exact H. }
    assert (Hpropio : forall u e n, In u filas -> u_email u = Str e ->
              forma_normal e n -> n = e).
    { intros u e n Hu He Hn.
      destruct (Horigen u Hu) as [a [_ [_ Ea]]].
      rewrite He in Ea. injection Ea as ->.
      destruct (normaliza_normal (a_email a)) as [H1 H2].
      apply forma_normal_normaliza in Hn. rewrite Hn. symmetry.
      apply forma_normal_normaliza. now apply normal_forma_normal. }
    exists filas. split; [exact Hf|]. split; [|split].
    + intros u Hu. destruct (Horigen u Hu) as [a [Ha [Hacc Ea]]].
      exists a, (normaliza (a_email a)).
      destruct (normaliza_normal (a_email a)) as [H1 H2].
      split; [exact Ha|]. split; [exact Hacc|].
      split; [now apply forma_normal_normaliza|].
      split; [exact Ea|]. split; assumption.
    + intros a Ha Hacc.
      destruct (una_sola_fila _ _ Hnd (Hin a Ha Hacc)) as [u [Hu Hue]].
      exists (normaliza (a_email a)), u.
      split; [now apply forma_normal_normaliza|]. split; assumption.
    + intros i j u v eu ev n Hi Hj Heu Hev Hnu Hnv.
      pose proof (Hpropio u eu n (nth_error_In _ _ Hi) Heu Hnu) as E1.
      pose proof (Hpropio v ev n (nth_error_In _ _ Hj) Hev Hnv) as E2.
      apply (proj1 (NoDup_nth_error (map u_email filas)) Hnd).
      * rewrite length_map. apply nth_error_Some. congruence.
      * rewrite !nth_error_map, Hi, Hj. simpl. congruence.
  - intros t1 t2. split.
    + exact (dos_altas st t1 t2 "A@B.com" "a@b.com" "X" "" Hok
               eq_refl eq_refl eq_refl ltac:(discriminate)).
    + exact (dos_altas st t1 t2 "  A@B.com " "a@b.com  " "X" "" Hok
               eq_refl eq_refl eq_refl ltac:(discriminate)).
Qed.

(** ** An unreadable users file *)

Lemma login_user_no_esta email st :
  email_in (normaliza email) (tabla st) = false ->
  login_user email st = (Ok None, st).
Proof.
  intros H. unfold login_user, bind. rewrite load_users_tabla.
  fold (normaliza email). rewrite H. reflexivity.
Qed.

Lemma tabla_Ilegible st e : USERS_FILE st = Ilegible e -> tabla st = [].
Proof. unfold tabla. now intros ->. Qed.

(** C10. When usuarios.csv cannot be read, [load_users] returns the
    empty table and does not raise; [login_user] finds nobody, whatever
    the email; and [login_or_register] creates the profile and rewrites
    the file with that profile as its only row. *)
Theorem C10_archivo_ilegible :
  forall st e ahora email nombre nickname,
    USERS_FILE st = Ilegible e ->
    load_users st = (Ok [], st) /\
    (forall correo, login_user correo st = (Ok None, st)) /\
    let nueva := mk_usuario (Str (normaliza email)) (Str (Str.strip nombre))
                   (Str (Str.strip nickname)) (strftime ahora) in
    exists st',
      login_or_register ahora email nombre nickname st = (Ok nueva, st') /\
      USERS_FILE st' = Csv [usuario_csv nueva] /\
      session_user st' = Some nueva.
Proof.
  intros st e ahora email nombre nickname Hf.
  pose proof (tabla_Ilegible _ _ Hf) as Ht.
  split; [rewrite load_users_tabla, Ht; reflexivity|].
  split.
  - intros correo. apply login_user_no_esta. rewrite Ht. reflexivity.
  - intros nueva.
    assert (Hin : email_in (normaliza email) (tabla st) = false)
      by (rewrite Ht; reflexivity).
    pose proof (login_or_register_nuevo ahora email nombre nickname st Hin) as Hl.
    cbv zeta in Hl. fold nueva in Hl. rewrite Ht in Hl.
    eexists. split; [exact Hl|]. split; reflexivity.
Qed.

Lemma C10_archivo_ilegible_witness :
  load_users estado_corrupto = (Ok [], estado_corrupto) /\
  (forall correo, login_user correo estado_corrupto = (Ok None, estado_corrupto)) /\
  exists st',
    login_or_register 1700000000000000 "Leo@Club.cl" "Leo" "" estado_corrupto
    = (Ok (mk_usuario (Str "leo@club.cl") (Str "Leo") (Str "") 1700000000), st') /\
    USERS_FILE st' = Csv [mk_usuario (Str "leo@club.cl") (Str "Leo") NaN 1700000000] /\
    session_user st' =
      Some (mk_usuario (Str "leo@club.cl") (Str "Leo") (Str "") 1700000000).
Proof.
  exact (C10_archivo_ilegible estado_corrupto
           (ParserError "Error tokenizing data") 1700000000000000
           "Leo@Club.cl" "Leo" "" eq_refl).
Defined.

(** ** The display name *)

(** On a profile whose nickname and name are stripped texts, as in the
    row [login_or_register] builds for a new user, the display name is
    the first of nickname, name and email that is not blank. *)
Lemma get_display_name_texto u a b :
  u_nickname u = Str a -> u_nombre u = Str b ->
  Str.strip a = a -> Str.strip b = b ->
  get_display_name (Some u) = displayName_spec u.
Proof.
  intros Ha Hb Sa Sb. unfold get_display_name, displayName_spec.
  rewrite Ha, Hb. simpl. rewrite Sa, Sb.
  destruct (Str.truthy a), (Str.truthy b); reflexivity.
Qed.

(** C6. A player registers with an email alone and later logs in: the
    profile [login_user] returns has a missing nickname and a missing
    name, and [get_display_name] returns the missing nickname ([nan] is
    true in Python) where the specification names the email. *)
Theorem C6_get_display_name_nan :
  let st1 := snd (form_registrar 1700000000000000 "a@b.com" "" ""
                    estado_inicial) in
  let u := mk_usuario (Str "a@b.com") NaN NaN 1700000000 in
  login_user "a@b.com" st1 = (Ok (Some u), set_session_user (Some u) st1) /\
  get_display_name (Some u) = NaN /\
  displayName_spec u = Str "a@b.com".
Proof. repeat split. Qed.

(** ** The mirror *)

(** [append_to_gsheet] returns whatever the outside answers; it touches
    the worksheet and the sidebar only. *)
Lemma append_to_gsheet_aislado g row st :
  exists st',
    append_to_gsheet g row st = (Ok tt, st') /\
    USERS_FILE st' = USERS_FILE st /\
    SCORES_FILE st' = SCORES_FILE st /\
    session_user st' = session_user st /\
    menu_request st' = menu_request st /\
    pagina st' = pagina st /\
    ((worksheet st' = worksheet st ++ [row] /\ sidebar st' = sidebar st) \/
     (worksheet st' = worksheet st /\
      (sidebar st' = sidebar st \/
       exists txt, sidebar st' = sidebar st ++ [st_warning txt]))).
Proof.
  destruct g as [[] [e1|] [e2|] [e3|] [e4|]];
    (eexists; split; [reflexivity|]);
    cbn; repeat (split; [reflexivity|]);
    first [ left; split; reflexivity
          | right; split; [reflexivity|]; first [ left; reflexivity | right; eexists; reflexivity ] ].
Qed.

Lemma append_to_gsheet_falla g row st :
  mirror_falla g = true ->
  exists txt,
    append_to_gsheet g row st = (Ok tt, escribe_sidebar (st_warning txt) st).
Proof.
  destruct g as [[] [e1|] [e2|] [e3|] [e4|]]; cbn; intros H;
    try discriminate; eexists; reflexivity.
Qed.

Lemma loc_append_ancho df nueva_fila st :
  ancho nueva_fila = 18%nat ->
  loc_append df nueva_fila st = (Ok (df ++ [nueva_fila]), st).
Proof. unfold loc_append. intros ->. reflexivity. Qed.

Lemma loc_append_mal df nueva_fila st :
  ancho nueva_fila <> 18%nat ->
  exists e, loc_append df nueva_fila st = (Raise e, st).
Proof.
  unfold loc_append. intros H.
  change (List.length cols_scores) with 18%nat.
  destruct (Nat.eqb_spec (ancho nueva_fila) 18); [contradiction|].
  eexists. reflexivity.
Qed.

(** The body of the submit handler, when scores.csv is readable and the
    row has as many cells as the file has columns. *)
Lemma guardar_puntaje_ok g ahora user_email display_name golpes st filas :
  SCORES_FILE st = Csv filas ->
  List.length golpes = 14%nat ->
  let nueva_fila := mk_fila (strftime ahora) user_email display_name golpes
                      (sum golpes) in
  exists st' txt,
    guardar_puntaje g ahora user_email display_name golpes st = (Ok tt, st') /\
    SCORES_FILE st' = Csv (map fila_csv (filas ++ [nueva_fila])) /\
    USERS_FILE st' = USERS_FILE st /\
    pagina st' = pagina st ++ [st_success txt] /\
    ((worksheet st' = worksheet st ++ [nueva_fila] /\ sidebar st' = sidebar st) \/
     (worksheet st' = worksheet st /\
      (sidebar st' = sidebar st \/
       exists w, sidebar st' = sidebar st ++ [st_warning w]))).
Proof.
  intros Hf Hlen nueva_fila.
  set (st1 := set_SCORES_FILE (Csv (map fila_csv (filas ++ [nueva_fila]))) st).
  destruct (append_to_gsheet_aislado g nueva_fila st1)
    as [st2 [Hr [Hu [Hs [_ [_ [Hp Hw]]]]]]].
  unfold guardar_puntaje, bind, read_csv. rewrite Hf.
  fold nueva_fila.
  rewrite (loc_append_ancho filas nueva_fila st) by (unfold ancho; simpl; rewrite Hlen; reflexivity).
  unfold to_csv_scores, modify at 1. fold st1. rewrite Hr.
  unfold modify. eexists. eexists.
  split; [reflexivity|]. cbn.
  rewrite Hs, Hu, Hp. repeat (split; [reflexivity|]). exact Hw.
Qed.

(** The steps of the handler up to the relay. *)
Lemma guardar_puntaje_pasos g ahora user_email display_name golpes st filas :
  SCORES_FILE st = Csv filas ->
  List.length golpes = 14%nat ->
  let nueva_fila := mk_fila (strftime ahora) user_email display_name golpes
                      (sum golpes) in
  let st1 := set_SCORES_FILE (Csv (map fila_csv (filas ++ [nueva_fila]))) st in
  exists txt,
    guardar_puntaje g ahora user_email display_name golpes st =
    match append_to_gsheet g nueva_fila st1 with
    | (Ok _, st2) => (Ok tt, escribe_pagina (st_success txt) st2)
    | (Raise e, st2) => (Raise e, st2)
    end.
Proof.
  intros Hf Hlen nueva_fila st1.
  unfold guardar_puntaje, bind, read_csv. rewrite Hf.
  fold nueva_fila.
  rewrite (loc_append_ancho filas nueva_fila st)
    by (unfold ancho; simpl; rewrite Hlen; reflexivity).
  unfold to_csv_scores, modify at 1. fold st1.
  eexists. destruct (append_to_gsheet g nueva_fila st1) as [[[]|e] st2];
    reflexivity.
Qed.

(** C2. For a valid submission on a readable scores.csv, whatever the
    outside answers to the calls of the mirror, the handler returns
    without raising, scores.csv holds the old rows followed by the new
    one and the page reports success.  When the mirror is enabled and one
    of its calls raises, the worksheet is left as it was and the only
    trace is one warning on the sidebar; when the library is missing
    nothing is written at all. *)
Theorem C2_fallo_del_mirror_no_afecta :
  forall g ahora user_email display_name golpes st filas,
    SCORES_FILE st = Csv filas ->
    golpes_validos golpes ->
    let nueva_fila := mk_fila (strftime ahora) user_email display_name golpes
                        (sum golpes) in
    exists st' txt,
      guardar_puntaje g ahora user_email display_name golpes st = (Ok tt, st') /\
      SCORES_FILE st' = Csv (map fila_csv (filas ++ [nueva_fila])) /\
      pagina st' = pagina st ++ [st_success txt] /\
      (mirror_falla g = true ->
       worksheet st' = worksheet st /\
       exists w, sidebar st' = sidebar st ++ [st_warning w]) /\
      (USE_GOOGLE_SHEETS g = false ->
       worksheet st' = worksheet st /\ sidebar st' = sidebar st).
Proof.
  intros g ahora user_email display_name golpes st filas Hf [Hlen _] nueva_fila.
  destruct (guardar_puntaje_pasos g ahora user_email display_name golpes st
              filas Hf Hlen) as [txt Hg].
  cbv zeta in Hg. fold nueva_fila in Hg.
  set (st1 := set_SCORES_FILE (Csv (map fila_csv (filas ++ [nueva_fila]))) st) in *.
  destruct (append_to_gsheet_aislado g nueva_fila st1)
    as [st2 [Hr [_ [Hs [_ [_ [Hp _]]]]]]].
  rewrite Hr in Hg.
  exists (escribe_pagina (st_success txt) st2), txt.
  split; [exact Hg|]. cbn. rewrite Hs, Hp.
  split; [reflexivity|]. split; [reflexivity|]. split.
  - intros Hfa.
    destruct (append_to_gsheet_falla g nueva_fila st1 Hfa) as [w Hw].
    rewrite Hw in Hr. injection Hr as <-. cbn.
    split; [reflexivity|]. exists w. reflexivity.
  - intros Hoff. unfold append_to_gsheet in Hr. rewrite Hoff in Hr.
    cbn in Hr. unfold ret in Hr. injection Hr as <-. split; reflexivity.
Qed.

Lemma C2_fallo_del_mirror_no_afecta_witness :
  let g := mk_google true None (Some (Exception "invalid_grant")) None None in
  let golpes := [3; 3; 3; 3; 3; 3; 3; 3; 3; 3; 3; 3; 3; 3] in
  let nueva_fila := mk_fila 1700000000 (Str "ana@club.cl") (Str "anita")
                      golpes 42 in
  exists st' txt,
    guardar_puntaje g 1700000000000000 (Str "ana@club.cl") (Str "anita")
      golpes estado_inicial = (Ok tt, st') /\
    SCORES_FILE st' = Csv (map fila_csv ([] ++ [nueva_fila])) /\
    pagina st' = pagina estado_inicial ++ [st_success txt] /\
    (mirror_falla g = true ->
     worksheet st' = worksheet estado_inicial /\
     exists w, sidebar st' = sidebar estado_inicial ++ [st_warning w]) /\
    (USE_GOOGLE_SHEETS g = false ->
     worksheet st' = worksheet estado_inicial /\
     sidebar st' = sidebar estado_inicial).
Proof.
  apply (C2_fallo_del_mirror_no_afecta
           (mk_google true None (Some (Exception "invalid_grant")) None None)
           1700000000000000 (Str "ana@club.cl") (Str "anita")
           [3; 3; 3; 3; 3; 3; 3; 3; 3; 3; 3; 3; 3; 3] estado_inicial []).
  - reflexivity.
  - split; [reflexivity|].
    repeat constructor; unfold min_value, max_value; lia.
Defined.

(** ** What leaves scores.csv alone *)

Lemma conserva_ret {A} (a : A) : conserva_scores (ret a).
Proof. intros st. reflexivity. Qed.

Lemma conserva_raise {A} e : conserva_scores (@raise A e).
Proof. intros st. reflexivity. Qed.

Lemma conserva_bind {A B} (c : M A) (k : A -> M B) :
  conserva_scores c -> (forall a, conserva_scores (k a)) ->
  conserva_scores (bind c k).
Proof.
  intros Hc Hk st. unfold bind. specialize (Hc st).
  destruct (c st) as [[a|e] st1]; simpl in *.
  - rewrite Hk. exact Hc.
  - exact Hc.
Qed.

Lemma conserva_try {A} (c : M A) h :
  conserva_scores c -> (forall e, conserva_scores (h e)) ->
  conserva_scores (try_except c h).
Proof.
  intros Hc Hh st. unfold try_except. specialize (Hc st).
  destruct (c st) as [[a|e] st1]; simpl in *.
  - exact Hc.
  - rewrite Hh. exact Hc.
Qed.

Lemma conserva_modify f :
  (forall st, SCORES_FILE (f st) = SCORES_FILE st) ->
  conserva_scores (modify f).
Proof. intros H st. apply H. Qed.

Lemma conserva_read_csv {R} (path : Estado -> archivo R) :
  conserva_scores (read_csv path).
Proof. intros st. unfold read_csv. destruct (path st); reflexivity. Qed.

Lemma conserva_get : conserva_scores get.
Proof. intros st. reflexivity. Qed.

Create HintDb conserva.
#[local] Hint Resolve conserva_ret conserva_raise conserva_modify
  conserva_read_csv conserva_get : conserva.

Ltac conserva :=
  repeat first
    [ apply conserva_bind; [|intro]
    | apply conserva_try; [|intro]
    | apply conserva_modify; intro; reflexivity
    | solve [auto with conserva]
    | match goal with
      | |- conserva_scores (if ?b then _ else _) => destruct b
      | |- conserva_scores (match ?x with _ => _ end) => destruct x
      end ].

Lemma conserva_load_users : conserva_scores load_users.
Proof. unfold load_users. conserva. Qed.

Lemma conserva_primera e df : conserva_scores (primera e df).
Proof. unfold primera. conserva. Qed.

Lemma conserva_login_user email : conserva_scores (login_user email).
Proof.
  unfold login_user. apply conserva_bind; [apply conserva_load_users|].
  intros df. destruct (email_in _ df); [|conserva].
  apply conserva_bind; [apply conserva_primera|]. intro. conserva.
Qed.

Lemma conserva_login_or_register ahora email nombre nickname :
  conserva_scores (login_or_register ahora email nombre nickname).
Proof.
  unfold login_or_register, save_users.
  apply conserva_bind; [apply conserva_load_users|]. intros df.
  apply conserva_bind; [|intro; conserva].
  destruct (email_in _ df); [|conserva].
  apply conserva_bind; [apply conserva_primera|]. intro. conserva.
Qed.

Lemma conserva_form_entrar email_login : conserva_scores (form_entrar email_login).
Proof.
  unfold form_entrar.
  destruct (negb _); [conserva|]. destruct (negb _); [conserva|].
  apply conserva_bind; [apply conserva_login_user|]. intros [u|]; conserva.
Qed.

Lemma conserva_form_registrar ahora email nombre nick :
  conserva_scores (form_registrar ahora email nombre nick).
Proof.
  unfold form_registrar.
  destruct (negb _); [conserva|]. destruct (negb _); [conserva|].
  apply conserva_bind; [apply conserva_login_or_register|]. intro. conserva.
Qed.

Lemma conserva_pantalla_ranking sv f ahora :
  conserva_scores (pantalla_ranking sv f ahora).
Proof. unfold pantalla_ranking. conserva. Qed.

(** With a row of another length the assignment raises and nothing is
    written; with an unreadable file the read raises. *)
Lemma guardar_puntaje_raise g ahora user_email display_name golpes st :
  List.length golpes <> 14%nat \/ (exists e, SCORES_FILE st = Ilegible e) ->
  exists e, guardar_puntaje g ahora user_email display_name golpes st = (Raise e, st).
Proof.
  intros H. unfold guardar_puntaje, bind, read_csv.
  destruct (SCORES_FILE st) as [filas|e] eqn:Hf.
  - destruct H as [H|[e He]]; [|discriminate].
    set (nueva_fila := mk_fila _ _ _ _ _).
    destruct (loc_append_mal filas nueva_fila st) as [e He].
    + unfold ancho, nueva_fila. simpl. lia.
    + rewrite He. exists e. reflexivity.
  - exists e. reflexivity.
Qed.

(** ** The stroke list *)

Lemma form_puntaje_validos number_input :
  (forall i, min_value <= number_input i <= max_value) ->
  golpes_validos (form_puntaje number_input).
Proof.
  intros H. unfold golpes_validos, form_puntaje. split.
  - rewrite length_map, length_seq. reflexivity.
  - apply Forall_forall. intros v Hv. apply in_map_iff in Hv.
    destruct Hv as [i [<- _]]. apply H.
Qed.



(** ** Ranking *)

Section Insercion.

Variable cmp : Z -> Z -> bool.
Hypothesis cmp_true : forall a b, cmp a b = true -> a <= b.
Hypothesis cmp_false : forall a b, cmp a b = false -> b <= a.

Lemma inserta_perm x l : Permutation (x :: l) (inserta cmp x l).
Proof.
  induction l as [|y l IH]; simpl; [apply Permutation_refl|].
  destruct (cmp (total x) (total y)); [apply Permutation_refl|].
  eapply perm_trans; [apply perm_swap|]. now apply perm_skip.
Qed.

Lemma inserta_sorted x l :
  StronglySorted por_total l -> StronglySorted por_total (inserta cmp x l).
Proof.
  intros H. induction H as [|y l Hs IH Hall]; simpl.
  - constructor; constructor.
  - destruct (cmp (total x) (total y)) eqn:E.
    + constructor; [constructor; assumption|].
      apply cmp_true in E. constructor; [exact E|].
      eapply Forall_impl; [|exact Hall]. unfold por_total. intros z Hz. lia.
    + constructor; [exact IH|].
      apply cmp_false in E.
      apply (Permutation_Forall (inserta_perm x l)).
      constructor; assumption.
Qed.

Lemma fold_inserta_ordena : ordena_por_total (fold_right (inserta cmp) []).
Proof.
  intros df. induction df as [|x df [IHp IHs]]; simpl.
  - split; constructor.
  - split.
    + eapply perm_trans; [apply perm_skip, IHp | apply inserta_perm].
    + now apply inserta_sorted.
Qed.

End Insercion.

Lemma orden_estable_ordena : ordena_por_total orden_estable.
Proof.
  apply fold_inserta_ordena; intros a b H.
  - now apply Z.leb_le.
  - apply Z.leb_gt in H. lia.
Qed.

(** [orden_estable] keeps, among the rows of one total, the order they
    had. *)
Lemma orden_estable_empates k df :
  filter (fun x => total x =? k) (orden_estable df) =
  filter (fun x => total x =? k) df.
Proof.
  induction df as [|x df IH]; [reflexivity|].
  simpl. rewrite <- IH. clear IH.
  induction (orden_estable df) as [|y l IHl]; [reflexivity|].
  simpl. destruct (total x <=? total y) eqn:E; [reflexivity|].
  simpl. apply Z.leb_gt in E.
  destruct (total x =? k) eqn:Ex.
  - apply Z.eqb_eq in Ex.
    assert (Hy : (total y =? k) = false) by (apply Z.eqb_neq; lia).
    rewrite Hy. exact IHl.
  - destruct (total y =? k); [f_equal|]; exact IHl.
Qed.

Lemma sorted_perm_eq (l1 : list Z) : forall l2,
  StronglySorted Z.le l1 -> StronglySorted Z.le l2 ->
  Permutation l1 l2 -> l1 = l2.
Proof.
  induction l1 as [|a l1 IH]; intros l2 H1 H2 Hp.
  - apply Permutation_nil in Hp. now subst.
  - destruct l2 as [|b l2].
    + apply Permutation_sym, Permutation_nil in Hp. discriminate.
    + inversion H1 as [|? ? Hs1 Ha]; subst.
      inversion H2 as [|? ? Hs2 Hb]; subst.
      assert (Hab : a = b).
      { rewrite Forall_forall in Ha, Hb.
        assert (In a (b :: l2)) as [->|Hin2]
            by (eapply Permutation_in; [exact Hp | now left]);
          [reflexivity|].
        assert (In b (a :: l1)) as [->|Hin1]
            by (eapply Permutation_in; [apply Permutation_sym; exact Hp | now left]);
          [reflexivity|].
        specialize (Ha _ Hin1). specialize (Hb _ Hin2). lia. }
      subst b. f_equal. apply IH; try assumption.
      now apply Permutation_cons_inv in Hp.
Qed.

Lemma sorted_map_total l :
  StronglySorted por_total l ->
  StronglySorted Z.le (map total l).
Proof.
  intros H. induction H as [|x l Hs IH Hall]; simpl; constructor.
  - exact IH.
  - apply Forall_map. exact Hall.
Qed.

Lemma sorted_app_l {A} (R : A -> A -> Prop) l1 : forall l2,
  StronglySorted R (l1 ++ l2) -> StronglySorted R l1.
Proof.
  induction l1 as [|x l1 IH]; intros l2 H; [constructor|].
  simpl in H. inversion H as [|? ? Hs Hall]; subst. constructor.
  - eapply IH; eauto.
  - apply Forall_app in Hall. tauto.
Qed.

Lemma sorted_firstn {A} (R : A -> A -> Prop) n l :
  StronglySorted R l -> StronglySorted R (firstn n l).
Proof.
  intros H. rewrite <- (firstn_skipn n l) in H.
  eapply sorted_app_l; eauto.
Qed.

Lemma sorted_app_le {A} (R : A -> A -> Prop) l1 : forall l2,
  StronglySorted R (l1 ++ l2) ->
  forall a b, In a l1 -> In b l2 -> R a b.
Proof.
  induction l1 as [|x l1 IH]; intros l2 H a b Ha Hb; [destruct Ha|].
  simpl in H. inversion H as [|? ? Hs Hall]; subst.
  destruct Ha as [<-|Ha].
  - rewrite Forall_forall in Hall. apply Hall. apply in_or_app. now right.
  - eapply IH; eauto.
Qed.

(** The columns of [con_pos]. *)
Lemma con_pos_desde start df :
  let t := map (fun '(p, x) =>
                  mk_renglon p (fecha x) (nombre_mostrar x) (email x) (total x))
             (combine (seq start (List.length df)) df) in
  map pos t = seq start (List.length df) /\ map datos t = map datos_fila df.
Proof.
  revert start. induction df as [|x df IH]; intros start; simpl.
  - split; reflexivity.
  - destruct (IH (S start)) as [H1 H2]. split; f_equal; assumption.
Qed.

Lemma con_pos_pos df : map pos (con_pos df) = seq 1 (List.length df).
Proof. apply (con_pos_desde 1 df). Qed.

Lemma con_pos_datos df : map datos (con_pos df) = map datos_fila df.
Proof. apply (con_pos_desde 1 df). Qed.

Lemma con_pos_length df : List.length (con_pos df) = List.length df.
Proof.
  rewrite <- (length_map pos), con_pos_pos. apply length_seq.
Qed.

Lemma datos_total l : map r_total l = map (fun d => snd d) (map datos l).
Proof. rewrite map_map. reflexivity. Qed.

Lemma datos_fila_total l : map total l = map (fun d => snd d) (map datos_fila l).
Proof. rewrite map_map. reflexivity. Qed.

(** The rows the screen shows, for any ordering that keeps the promise
    of [sort_values]. *)
Lemma ver_ranking_filas sv f ahora df :
  ordena_por_total sv ->
  filas_de (ver_ranking sv f ahora df) =
  head 50 (con_pos (sv (filter (en_rango f ahora) df))).
Proof.
  intros Hsv.
  assert (Hnil : sv [] = []).
  { destruct (Hsv []) as [Hp _]. now apply Permutation_nil in Hp. }
  unfold ver_ranking. destruct df as [|x df]; simpl.
  - rewrite Hnil. reflexivity.
  - destruct (en_rango f ahora x); simpl.
    + reflexivity.
    + destruct (filter (en_rango f ahora) df); simpl.
      * rewrite Hnil. reflexivity.
      * reflexivity.
Qed.

Lemma firstn_seq n : forall start len,
  firstn n (seq start len) = seq start (Nat.min n len).
Proof.
  induction n as [|n IH]; intros start [|len]; simpl; try reflexivity.
  f_equal. apply IH.
Qed.

(** The table shown: the head of the ordered rows, numbered from 1. *)
Lemma mostrar_columnas sv f ahora df :
  ordena_por_total sv ->
  let ordenadas := sv (filter (en_rango f ahora) df) in
  let mostrar := filas_de (ver_ranking sv f ahora df) in
  map pos mostrar = seq 1 (Nat.min 50 (List.length ordenadas)) /\
  map datos mostrar = map datos_fila (firstn 50 ordenadas).
Proof.
  intros Hsv ordenadas mostrar. unfold mostrar.
  rewrite (ver_ranking_filas sv f ahora df Hsv). fold ordenadas.
  unfold head. rewrite <- !firstn_map, con_pos_pos, con_pos_datos.
  rewrite firstn_seq. split; reflexivity.
Qed.

(** The table and the ordered frame. *)
Lemma C9_primeras_50_aux sv :
  ordena_por_total sv ->
  forall f ahora df,
    let filtradas := filter (en_rango f ahora) df in
    let mostrar := filas_de (ver_ranking sv f ahora df) in
    map pos mostrar = seq 1 (Nat.min (List.length filtradas) 50) /\
    map datos mostrar = map datos_fila (firstn 50 (sv filtradas)) /\
    Permutation filtradas (sv filtradas) /\
    StronglySorted por_total (sv filtradas).
Proof.
  intros Hsv f ahora df filtradas mostrar.
  destruct (Hsv filtradas) as [Hp Hs].
  destruct (mostrar_columnas sv f ahora df Hsv) as [Hpos Hdat].
  fold filtradas in Hpos, Hdat. fold mostrar in Hpos, Hdat.
  rewrite <- (Permutation_length Hp), Nat.min_comm in Hpos.
  auto.
Qed.

(** C9. Whatever the ordering [sort_values] applies, as long as it
    returns the rows of the frame in ascending total: with [n] rows left
    by the filter, the table has the first [min n 50] rows of the
    ordered frame, numbered 1, 2, ...; no row left out has a lower total
    than a row shown; and with 60 rows the table has exactly 50. *)
Theorem C9_primeras_50 :
  forall sort_values,
    ordena_por_total sort_values ->
    forall f ahora df,
      let filtradas := filter (en_rango f ahora) df in
      let ordenadas := sort_values filtradas in
      let mostrar := filas_de (ver_ranking sort_values f ahora df) in
      let n := List.length filtradas in
      List.length mostrar = Nat.min n 50 /\
      map pos mostrar = seq 1 (Nat.min n 50) /\
      map datos mostrar = map datos_fila (firstn 50 ordenadas) /\
      Permutation filtradas (firstn 50 ordenadas ++ skipn 50 ordenadas) /\
      (forall r x, In r mostrar -> In x (skipn 50 ordenadas) ->
                   r_total r <= total x) /\
      (n = 60%nat -> List.length mostrar = 50%nat).
Proof.
  intros sv Hsv f ahora df filtradas ordenadas mostrar n.
  destruct (Hsv filtradas) as [Hp Hs]. fold ordenadas in Hp, Hs.
  destruct (mostrar_columnas sv f ahora df Hsv) as [Hpos Hdat].
  fold filtradas in Hpos, Hdat. fold ordenadas in Hpos, Hdat.
  fold mostrar in Hpos, Hdat.
  assert (Hn : List.length ordenadas = n)
    by (symmetry; now apply Permutation_length).
  rewrite Hn, Nat.min_comm in Hpos.
  assert (Hlen : List.length mostrar = Nat.min n 50).
  { rewrite <- (length_map pos), Hpos. apply length_seq. }
  split; [exact Hlen|]. split; [exact Hpos|]. split; [exact Hdat|].
  split; [now rewrite firstn_skipn|]. split.
  - intros r x Hr Hx.
    assert (Hd : In (datos r) (map datos_fila (firstn 50 ordenadas)))
      by (rewrite <- Hdat; now apply in_map).
    apply in_map_iff in Hd. destruct Hd as [y [Hy Hyin]].
    assert (Ht : r_total r = total y).
    { unfold datos, datos_fila in Hy. congruence. }
    rewrite Ht.
    rewrite <- (firstn_skipn 50 ordenadas) in Hs.
    exact (sorted_app_le _ _ _ Hs y x Hyin Hx).
  - intros H60. rewrite Hlen, H60. reflexivity.
Qed.

Lemma C9_primeras_50_witness :
  let df := map (fun i => mk_fila (1700000000 + Z.of_nat i) (Str "ana@club.cl")
                            (Str "anita") (repeat 3 13 ++ [Z.of_nat i])
                            (39 + Z.of_nat i))
              (rev (seq 1 60)) in
  let mostrar := filas_de (ver_ranking orden_estable Historico
                             1700000100000000 df) in
  List.length mostrar = 50%nat /\
  map pos mostrar = seq 1 50 /\
  map r_total mostrar = map (fun i => 39 + Z.of_nat i) (seq 1 50).
Proof.
  cbv zeta.
  destruct (C9_primeras_50 orden_estable orden_estable_ordena Historico
              1700000100000000
              (map (fun i => mk_fila (1700000000 + Z.of_nat i) (Str "ana@club.cl")
                                (Str "anita") (repeat 3 13 ++ [Z.of_nat i])
                                (39 + Z.of_nat i))
                 (rev (seq 1 60))))
    as [H1 [H2 _]].
  split; [exact H1|]. split; [exact H2|].
  vm_compute. reflexivity.
Defined.

(** ** numpy's quicksort: the insertion sort *)

Lemma pon_length p x a : List.length (pon p x a) = List.length a.
Proof.
  revert p. induction a as [|y a IH]; intros [|p]; simpl; auto.
Qed.

Lemma pon_app p x l r :
  pon (List.length l + p) x (l ++ r) = l ++ pon p x r.
Proof. induction l as [|y l IH]; simpl; [reflexivity|]. now rewrite IH. Qed.

Lemma pon_app_0 x l y r : pon (List.length l) x (l ++ y :: r) = l ++ x :: r.
Proof.
  rewrite <- (Nat.add_0_r (List.length l)), pon_app. reflexivity.
Qed.

Lemma nth_app_0 (l : list nat) y r : nth (List.length l) (l ++ y :: r) 0%nat = y.
Proof.
  rewrite <- (Nat.add_0_r (List.length l)), app_nth2_plus. reflexivity.
Qed.

Lemma sorted_insert {A} (R : A -> A -> Prop) x l1 : forall l2,
  StronglySorted R (l1 ++ l2) ->
  Forall (fun y => R y x) l1 -> Forall (R x) l2 ->
  StronglySorted R (l1 ++ x :: l2).
Proof.
  induction l1 as [|a l1 IH]; intros l2 Hs H1 H2; simpl in *.
  - constructor; assumption.
  - inversion Hs as [|? ? Hs' Ha]; subst.
    inversion H1 as [|? ? Hax H1']; subst.
    constructor; [now apply IH|].
    apply Forall_app in Ha. destruct Ha as [Ha1 Ha2].
    apply Forall_app. split; [exact Ha1|]. constructor; assumption.
Qed.

Section Insercion_np.

Variable v : list Z.

Lemma en_app pre x post : en v (pre ++ x :: post) (List.length pre) = valor v x.
Proof. unfold en. rewrite nth_app_0. reflexivity. Qed.

(** The shift: the values above [vp] at the end of the sorted part move
    one place up, and the place left is where [vp] goes. *)
Lemma desplaza_spec vp pre : forall seg h post,
  exists s1 s2 h',
    seg = s1 ++ s2 /\
    Forall (fun x => vp < valor v x) s2 /\
    (s1 = [] \/ exists s0 y, s1 = s0 ++ [y] /\ valor v y <= vp) /\
    desplaza v vp (List.length pre) (List.length pre + List.length seg)
      (pre ++ seg ++ h :: post)
    = (pre ++ s1 ++ h' :: s2 ++ post, (List.length pre + List.length s1)%nat).
Proof.
  intros seg. induction seg as [|y seg IH] using rev_ind; intros h post.
  - exists [], [], h. split; [reflexivity|]. split; [constructor|].
    split; [now left|]. simpl. rewrite Nat.add_0_r.
    destruct (List.length pre) as [|n] eqn:E; simpl; [reflexivity|].
    rewrite Nat.ltb_irrefl. reflexivity.
  - rewrite length_app. simpl List.length.
    replace (List.length pre + (List.length seg + 1))%nat
      with (S (List.length pre + List.length seg)) by lia.
    cbn [desplaza].
    assert (Hlt : (List.length pre <? S (List.length pre + List.length seg))%nat
                  = true) by (apply Nat.ltb_lt; lia).
    rewrite Hlt. cbn [andb].
    assert (Hen : en v (pre ++ (seg ++ [y]) ++ h :: post)
                    (List.length pre + List.length seg) = valor v y).
    { rewrite <- !app_assoc. cbn [app].
      rewrite (app_assoc pre seg), <- length_app. apply en_app. }
    rewrite Hen.
    destruct (vp <? valor v y) eqn:E.
    + assert (Hnth : nth (List.length pre + List.length seg)
                       (pre ++ (seg ++ [y]) ++ h :: post) 0%nat = y).
      { rewrite <- !app_assoc. cbn [app].
        rewrite (app_assoc pre seg), <- length_app. apply nth_app_0. }
      rewrite Hnth.
      assert (Hpon : pon (S (List.length pre + List.length seg)) y
                       (pre ++ (seg ++ [y]) ++ h :: post)
                     = pre ++ seg ++ y :: y :: post).
      { rewrite <- !app_assoc. cbn [app].
        rewrite (app_assoc pre seg (y :: h :: post)).
        replace (S (List.length pre + List.length seg))
          with (List.length (pre ++ seg) + 1)%nat
          by (rewrite length_app; lia).
        rewrite pon_app. cbn [pon]. rewrite <- app_assoc. reflexivity. }
      rewrite Hpon.
      destruct (IH y (y :: post)) as [s1 [s2 [h' [Hs [Hall [Hlast Hd]]]]]].
      exists s1, (s2 ++ [y]), h'. split; [rewrite Hs, app_assoc; reflexivity|].
      split.
      * apply Forall_app. split; [exact Hall|].
        constructor; [now apply Z.ltb_lt | constructor].
      * split; [exact Hlast|]. rewrite Hd. rewrite <- !app_assoc. reflexivity.
    + exists (seg ++ [y]), [], h. split; [now rewrite app_nil_r|].
      split; [constructor|]. split.
      * right. exists seg, y. split; [reflexivity|]. now apply Z.ltb_ge.
      * rewrite length_app. simpl.
        replace (List.length pre + (List.length seg + 1))%nat
          with (S (List.length pre + List.length seg)) by lia.
        reflexivity.
Qed.

(** One step of the insertion sort: [x], next to the sorted part, is
    put after the values that do not exceed it. *)
Lemma inserta_pi_spec pre seg x post :
  exists s1 s2,
    seg = s1 ++ s2 /\
    Forall (fun y => valor v x < valor v y) s2 /\
    (s1 = [] \/ exists s0 y, s1 = s0 ++ [y] /\ valor v y <= valor v x) /\
    inserta_pi v (List.length pre) (pre ++ seg ++ x :: post)
      (List.length pre + List.length seg)
    = pre ++ (s1 ++ x :: s2) ++ post.
Proof.
  unfold inserta_pi.
  assert (Hnth : nth (List.length pre + List.length seg)
                   (pre ++ seg ++ x :: post) 0%nat = x).
  { rewrite app_assoc, <- length_app. apply nth_app_0. }
  rewrite Hnth. fold (valor v x).
  destruct (desplaza_spec (valor v x) pre seg x post)
    as [s1 [s2 [h' [Hs [Hall [Hlast Hd]]]]]].
  exists s1, s2. split; [exact Hs|]. split; [exact Hall|].
  split; [exact Hlast|]. rewrite Hd.
  rewrite (app_assoc pre s1), <- length_app, pon_app_0.
  rewrite <- !app_assoc. reflexivity.
Qed.

Lemma inserta_estable seg s1 s2 x :
  StronglySorted (por_valor v) (s1 ++ s2) ->
  Forall (fun y => valor v x < valor v y) s2 ->
  (s1 = [] \/ exists s0 y, s1 = s0 ++ [y] /\ valor v y <= valor v x) ->
  seg = s1 ++ s2 ->
  Permutation (seg ++ [x]) (s1 ++ x :: s2) /\
  StronglySorted (por_valor v) (s1 ++ x :: s2) /\
  forall k, filter (fun i => valor v i =? k) (s1 ++ x :: s2)
            = filter (fun i => valor v i =? k) (seg ++ [x]).
Proof.
  intros Hs Hall Hlast ->. split; [|split].
  - rewrite <- app_assoc. apply Permutation_app_head.
    apply Permutation_sym, Permutation_cons_append.
  - apply sorted_insert; [exact Hs| |].
    + destruct Hlast as [->|[s0 [y [-> Hy]]]]; [constructor|].
      apply Forall_app. split; [|constructor; [exact Hy|constructor]].
      apply Forall_forall. intros z Hz.
      rewrite <- app_assoc in Hs.
      pose proof (sorted_app_le _ _ _ Hs z y Hz (or_introl eq_refl)) as H.
      unfold por_valor in *. lia.
    + eapply Forall_impl; [|exact Hall]. unfold por_valor. intros; lia.
  - intros k. rewrite <- app_assoc, !filter_app. f_equal. simpl.
    destruct (valor v x =? k) eqn:E; [|now rewrite app_nil_r].
    apply Z.eqb_eq in E.
    assert (Hnone : filter (fun i => valor v i =? k) s2 = []).
    { clear - Hall E. induction Hall as [|y s2 Hy _ IH]; [reflexivity|].
      simpl. rewrite IH.
      assert (H : (valor v y =? k) = false) by (apply Z.eqb_neq; lia).
      now rewrite H. }
    rewrite Hnone. reflexivity.
Qed.

(** The insertion loop from a sorted part on. *)
Lemma insercion_desde pre : forall rest seg post,
  StronglySorted (por_valor v) seg ->
  exists out,
    ordenado_estable v (seg ++ rest) out /\
    fold_left (inserta_pi v (List.length pre))
      (seq (List.length pre + List.length seg) (List.length rest))
      (pre ++ seg ++ rest ++ post)
    = pre ++ out ++ post.
Proof.
  intros rest. induction rest as [|x rest IH]; intros seg post Hs.
  - exists seg. rewrite app_nil_r. simpl. split; [|reflexivity].
    split; [apply Permutation_refl|]. split; [exact Hs | reflexivity].
  - cbn [List.length seq fold_left app].
    destruct (inserta_pi_spec pre seg x (rest ++ post))
      as [s1 [s2 [Hseg [Hall [Hlast Hi]]]]].
    rewrite Hi.
    rewrite Hseg in Hs.
    destruct (inserta_estable seg s1 s2 x Hs Hall Hlast Hseg)
      as [Hp [Hs' Hf]].
    destruct (IH (s1 ++ x :: s2) post Hs') as [out [[Hp2 [Hs2 Hf2]] Ho]].
    exists out. split.
    + split; [|split; [exact Hs2|]].
      * eapply perm_trans; [|exact Hp2].
        change (x :: rest) with ([x] ++ rest). rewrite app_assoc.
        apply Permutation_app_tail. exact Hp.
      * intros k. rewrite Hf2, (filter_app _ (s1 ++ x :: s2) rest), Hf.
        change (x :: rest) with ([x] ++ rest).
        rewrite !filter_app, app_assoc. reflexivity.
    + rewrite <- Ho. f_equal.
      replace (List.length (s1 ++ x :: s2)) with (S (List.length seg)).
      * f_equal. lia.
      * rewrite Hseg, !length_app. simpl. lia.
Qed.

(** The insertion sort of a range sorts it, stably, and touches nothing
    else. *)
Lemma insercion_spec pre s post :
  s <> [] ->
  exists out,
    ordenado_estable v s out /\
    insercion v (List.length pre) (List.length pre + List.length s - 1)
      (pre ++ s ++ post)
    = pre ++ out ++ post.
Proof.
  destruct s as [|x rest]; [congruence|]. intros _.
  unfold insercion.
  destruct (insercion_desde pre rest [x] post) as [out [Ho He]];
    [repeat constructor|].
  exists out. split; [exact Ho|]. rewrite <- He.
  cbn [List.length app]. f_equal. f_equal; lia.
Qed.

End Insercion_np.

(** ** numpy's quicksort: arrays *)

Lemma nth_pon_eq p x a :
  (p < List.length a)%nat -> nth p (pon p x a) 0%nat = x.
Proof.
  revert p. induction a as [|y a IH]; intros [|p] H; simpl in *; try lia.
  apply IH. lia.
Qed.

Lemma nth_pon_neq p x a i :
  i <> p -> nth i (pon p x a) 0%nat = nth i a 0%nat.
Proof.
  revert p i. induction a as [|y a IH]; intros [|p] [|i] H; simpl;
    try reflexivity; try congruence.
  apply IH. congruence.
Qed.

Lemma pon_nth p a : pon p (nth p a 0%nat) a = a.
Proof.
  revert p. induction a as [|y a IH]; intros [|p]; simpl; try reflexivity.
  now rewrite IH.
Qed.

Lemma swap_length p q a : List.length (INTP_SWAP p q a) = List.length a.
Proof. unfold INTP_SWAP. now rewrite !pon_length. Qed.

Lemma nth_swap p q a i :
  (p < List.length a)%nat -> (q < List.length a)%nat ->
  nth i (INTP_SWAP p q a) 0%nat =
  if (i =? q)%nat then nth p a 0%nat
  else if (i =? p)%nat then nth q a 0%nat
  else nth i a 0%nat.
Proof.
  intros Hp Hq. unfold INTP_SWAP.
  destruct (Nat.eqb_spec i q) as [->|Hiq].
  - apply nth_pon_eq. now rewrite pon_length.
  - rewrite nth_pon_neq by exact Hiq.
    destruct (Nat.eqb_spec i p) as [->|Hip].
    + now apply nth_pon_eq.
    + now apply nth_pon_neq.
Qed.

Lemma swap_igual p a : INTP_SWAP p p a = a.
Proof. unfold INTP_SWAP. now rewrite !pon_nth. Qed.

Lemma swap_app l1 x l2 y l3 :
  INTP_SWAP (List.length l1) (List.length l1 + S (List.length l2))
    (l1 ++ x :: l2 ++ y :: l3)
  = l1 ++ y :: l2 ++ x :: l3.
Proof.
  unfold INTP_SWAP.
  assert (H1 : nth (List.length l1) (l1 ++ x :: l2 ++ y :: l3) 0%nat = x)
    by apply nth_app_0.
  assert (H2 : nth (List.length l1 + S (List.length l2))
                 (l1 ++ x :: l2 ++ y :: l3) 0%nat = y).
  { rewrite app_nth2_plus. simpl. apply nth_app_0. }
  rewrite H1, H2, pon_app_0, pon_app. simpl. f_equal. f_equal.
  apply pon_app_0.
Qed.

Lemma swap_comm p q a :
  (p < List.length a)%nat -> (q < List.length a)%nat ->
  INTP_SWAP p q a = INTP_SWAP q p a.
Proof.
  intros Hp Hq.
  apply (nth_ext _ _ 0%nat 0%nat); [now rewrite !swap_length|].
  intros i _. rewrite !nth_swap by assumption.
  destruct (Nat.eqb_spec i q), (Nat.eqb_spec i p); congruence.
Qed.

Lemma perm_cambio {A} (l1 : list A) x l2 y l3 :
  Permutation (l1 ++ x :: l2 ++ y :: l3) (l1 ++ y :: l2 ++ x :: l3).
Proof.
  apply Permutation_app_head.
  apply perm_trans with (x :: y :: l2 ++ l3);
    [apply perm_skip, Permutation_sym, Permutation_middle|].
  apply perm_trans with (y :: x :: l2 ++ l3); [apply perm_swap|].
  apply perm_skip, Permutation_middle.
Qed.

Lemma swap_perm p q a :
  (p < List.length a)%nat -> (q < List.length a)%nat ->
  Permutation a (INTP_SWAP p q a).
Proof.
  assert (Hlt : forall p q a, (p < q)%nat -> (q < List.length a)%nat ->
                  Permutation a (INTP_SWAP p q a)).
  { clear. intros p q a Hpq Hq.
    destruct (nth_split a 0%nat (Nat.lt_trans _ _ _ Hpq Hq))
      as [l1 [r [Ha Hl1]]].
    assert (Hr : (q - S p < List.length r)%nat).
    { rewrite Ha, length_app in Hq. simpl in Hq. lia. }
    destruct (nth_split r 0%nat Hr) as [l2 [l3 [Hr' Hl2]]].
    generalize dependent (nth (q - S p) r 0%nat). intros y Hr'.
    generalize dependent (nth p a 0%nat). intros x Ha.
    subst r a.
    replace p with (List.length l1) by exact Hl1.
    replace q with (List.length l1 + S (List.length l2))%nat by lia.
    rewrite swap_app. apply perm_cambio. }
  intros Hp Hq.
  destruct (Nat.lt_trichotomy p q) as [H|[->|H]].
  - now apply Hlt.
  - rewrite swap_igual. apply Permutation_refl.
  - rewrite swap_comm by assumption. now apply Hlt.
Qed.

Lemma reordena_refl pl pr a : reordena pl pr a a.
Proof. split; [reflexivity|]. split; [reflexivity | apply Permutation_refl]. Qed.

Lemma reordena_trans pl pr a b c :
  reordena pl pr a b -> reordena pl pr b c -> reordena pl pr a c.
Proof.
  intros [H1 [H2 H3]] [H4 [H5 H6]]. split; [congruence|]. split.
  - intros i Hi. rewrite H5, H2 by exact Hi. reflexivity.
  - eapply perm_trans; eassumption.
Qed.

Lemma reordena_sub x y pl pr a b :
  (pl <= x)%nat -> (y <= pr)%nat -> reordena x y a b -> reordena pl pr a b.
Proof.
  intros Hx Hy [H1 [H2 H3]]. split; [exact H1|]. split; [|exact H3].
  intros i Hi. apply H2. lia.
Qed.

Lemma reordena_swap pl pr p q a :
  (pl <= p <= pr)%nat -> (pl <= q <= pr)%nat -> (pr < List.length a)%nat ->
  reordena pl pr a (INTP_SWAP p q a).
Proof.
  intros Hp Hq Hr. split; [apply swap_length|]. split.
  - intros i Hi. rewrite nth_swap by lia.
    destruct (Nat.eqb_spec i q); [lia|].
    destruct (Nat.eqb_spec i p); [lia|]. reflexivity.
  - apply swap_perm; lia.
Qed.

(** The positions [pl .. pr] as a list. *)
Lemma tramo_partes (a : list nat) pl pr :
  (pl <= pr + 1)%nat -> (pr < List.length a)%nat ->
  exists pre s post,
    a = pre ++ s ++ post /\ List.length pre = pl /\
    List.length s = (pr + 1 - pl)%nat.
Proof.
  intros H1 H2.
  exists (firstn pl a), (firstn (pr + 1 - pl) (skipn pl a)),
    (skipn (pr + 1 - pl) (skipn pl a)).
  rewrite !firstn_skipn. split; [reflexivity|].
  rewrite !length_firstn, length_skipn. lia.
Qed.

Lemma reordena_partes pl pr pre s post b :
  List.length pre = pl -> List.length s = (pr + 1 - pl)%nat ->
  reordena pl pr (pre ++ s ++ post) b ->
  exists s', b = pre ++ s' ++ post /\ Permutation s s'.
Proof.
  intros Hpre Hs [Hlen [Hout Hperm]].
  rewrite !length_app in Hlen.
  exists (firstn (List.length s) (skipn pl b)).
  assert (Hb : b = pre ++ firstn (List.length s) (skipn pl b) ++ post).
  { apply (nth_ext _ _ 0%nat 0%nat).
    - rewrite !length_app, length_firstn, length_skipn. lia.
    - intros i Hi.
      destruct (Nat.lt_ge_cases i pl) as [H1|H1].
      + rewrite Hout by lia. rewrite !app_nth1 by lia. reflexivity.
      + rewrite (app_nth2 pre) by lia.
        destruct (Nat.lt_ge_cases (i - List.length pre) (List.length s))
          as [H2|H2].
        * rewrite app_nth1
            by (rewrite length_firstn, length_skipn; lia).
          rewrite nth_firstn.
          assert (E : (i - List.length pre <? List.length s)%nat = true)
            by now apply Nat.ltb_lt.
          rewrite E, nth_skipn. f_equal. lia.
        * rewrite app_nth2
            by (rewrite length_firstn, length_skipn; lia).
          rewrite Hout by lia.
          rewrite (app_nth2 pre) by lia. rewrite app_nth2 by lia.
          f_equal. rewrite length_firstn, length_skipn. lia. }
  split; [exact Hb|].
  rewrite Hb in Hperm.
  apply Permutation_app_inv_l in Hperm.
  now apply Permutation_app_inv_r in Hperm.
Qed.

(** What holds of every value in the range holds of them after they are
    rearranged. *)
Lemma reordena_forall (P : nat -> Prop) pl pr a b :
  (pl <= pr + 1)%nat -> (pr < List.length a)%nat ->
  reordena pl pr a b ->
  (forall i, (pl <= i <= pr)%nat -> P (nth i a 0%nat)) ->
  forall i, (pl <= i <= pr)%nat -> P (nth i b 0%nat).
Proof.
  intros H1 H2 Hr HP i Hi.
  destruct (tramo_partes a pl pr H1 H2) as [pre [s [post [Ha [Hpre Hs]]]]].
  rewrite Ha in Hr.
  destruct (reordena_partes pl pr pre s post b Hpre Hs Hr) as [s' [Hb Hp]].
  assert (Hall : Forall P s).
  { apply Forall_forall. intros x Hx.
    destruct (In_nth s x 0%nat Hx) as [k [Hk <-]].
    assert (E : nth (pl + k) a 0%nat = nth k s 0%nat).
    { rewrite Ha, <- Hpre, app_nth2_plus. now apply app_nth1. }
    rewrite <- E. apply HP. lia. }
  apply (Permutation_Forall Hp) in Hall.
  rewrite Hb. rewrite app_nth2 by lia.
  pose proof (Permutation_length Hp) as Hl.
  rewrite app_nth1 by lia.
  rewrite Forall_forall in Hall. apply Hall. apply nth_In. lia.
Qed.

(** ** numpy's quicksort: the partition *)

Section Particion_np.

Variable v : list Z.

Lemma en_swap p q a i :
  (p < List.length a)%nat -> (q < List.length a)%nat ->
  en v (INTP_SWAP p q a) i =
  if (i =? q)%nat then en v a p
  else if (i =? p)%nat then en v a q
  else en v a i.
Proof.
  intros Hp Hq. unfold en. rewrite nth_swap by assumption.
  destruct (i =? q)%nat; [reflexivity|]. destruct (i =? p)%nat; reflexivity.
Qed.

(** The scan upwards stops at the first position past [pi] whose value
    is not below the pivot. *)
Lemma sube_spec vp a : forall n pi,
  (exists q, (pi < q <= pi + n)%nat /\ vp <= en v a q) ->
  let r := sube v vp a n pi in
  (pi < r <= pi + n)%nat /\ vp <= en v a r /\
  forall i, (pi < i < r)%nat -> en v a i < vp.
Proof.
  induction n as [|n IH]; intros pi [q [Hq Hv]]; [lia|].
  cbn [sube]. destruct (en v a (S pi) <? vp) eqn:E.
  - apply Z.ltb_lt in E.
    assert (Hq' : (S pi < q <= S pi + n)%nat).
    { destruct (Nat.eq_dec q (S pi)) as [->|]; lia. }
    destruct (IH (S pi) (ex_intro _ q (conj Hq' Hv))) as [H1 [H2 H3]].
    split; [lia|]. split; [exact H2|].
    intros i Hi. destruct (Nat.eq_dec i (S pi)) as [->|]; [exact E|].
    apply H3. lia.
  - apply Z.ltb_ge in E. split; [lia|]. split; [exact E|]. intros i Hi. lia.
Qed.

(** The scan downwards stops at the first position before [pj] whose
    value is not above the pivot. *)
Lemma baja_spec vp a : forall pj,
  (exists q, (q < pj)%nat /\ en v a q <= vp) ->
  let r := baja v vp a pj in
  (r < pj)%nat /\ en v a r <= vp /\
  forall j, (r < j < pj)%nat -> vp < en v a j.
Proof.
  induction pj as [|pj IH]; intros [q [Hq Hv]]; [lia|].
  cbn [baja]. destruct (vp <? en v a pj) eqn:E.
  - apply Z.ltb_lt in E.
    assert (Hq' : (q < pj)%nat).
    { destruct (Nat.eq_dec q pj) as [->|]; lia. }
    destruct (IH (ex_intro _ q (conj Hq' Hv))) as [H1 [H2 H3]].
    split; [lia|]. split; [exact H2|].
    intros j Hj. destruct (Nat.eq_dec j pj) as [->|]; [exact E|].
    apply H3. lia.
  - apply Z.ltb_ge in E. split; [lia|]. split; [exact E|]. intros j Hj. lia.
Qed.

(** The two scans and the swaps between them: what is at or before the
    place returned does not exceed the pivot, what is at or after it is
    not below. *)
Lemma particiona_spec vp pl pr : forall n pi pj a,
  (pl <= pi)%nat -> (pi < pj)%nat -> (pj < pr)%nat ->
  (pr < List.length a)%nat ->
  (forall i, (pl <= i <= pi)%nat -> en v a i <= vp) ->
  (forall j, (pj <= j <= pr)%nat -> vp <= en v a j) ->
  (pj - pi <= n)%nat ->
  exists a' r,
    particiona v n vp pi pj a = (a', r) /\
    reordena pl pr a a' /\ (pi < r <= pj)%nat /\
    (forall i, (pl <= i < r)%nat -> en v a' i <= vp) /\
    vp <= en v a' r /\
    (forall j, (r < j <= pr)%nat -> vp <= en v a' j) /\
    (forall i, (pj <= i)%nat -> nth i a' 0%nat = nth i a 0%nat).
Proof.
  induction n as [|n IH]; intros pi pj a Hpl Hij Hjr Hlen Hizq Hder Hn; [lia|].
  cbn [particiona].
  destruct (sube_spec vp a (pj - pi) pi) as [Hs1 [Hs2 Hs3]].
  { exists pj. split; [lia|]. apply Hder. lia. }
  destruct (baja_spec vp a pj) as [Hb1 [Hb2 Hb3]].
  { exists pi. split; [lia|]. apply Hizq. lia. }
  set (pi' := sube v vp a (pj - pi) pi) in *.
  set (pj' := baja v vp a pj) in *.
  destruct (pj' <=? pi')%nat eqn:E.
  - apply Nat.leb_le in E. exists a, pi'. split; [reflexivity|].
    split; [apply reordena_refl|]. split; [lia|]. split; [|split; [exact Hs2|split]].
    + intros i Hi. destruct (Nat.le_gt_cases i pi) as [H|H].
      * apply Hizq. lia.
      * apply Z.lt_le_incl, Hs3. lia.
    + intros j Hj. destruct (Nat.le_gt_cases pj j) as [H|H].
      * apply Hder. lia.
      * apply Z.lt_le_incl, Hb3. lia.
    + reflexivity.
  - apply Nat.leb_gt in E.
    assert (Hpi' : (pi' < List.length a)%nat) by lia.
    assert (Hpj' : (pj' < List.length a)%nat) by lia.
    destruct (IH pi' pj' (INTP_SWAP pi' pj' a))
      as [a' [r [Hrun [Hre [Hr [Hi' [Hv' [Hj' Hfix]]]]]]]]; try lia.
    + rewrite swap_length. exact Hlen.
    + intros i Hi. rewrite en_swap by assumption.
      destruct (Nat.eqb_spec i pj'); [lia|].
      destruct (Nat.eqb_spec i pi'); [exact Hb2|].
      destruct (Nat.le_gt_cases i pi) as [H|H].
      * apply Hizq. lia.
      * apply Z.lt_le_incl, Hs3. lia.
    + intros j Hj. rewrite en_swap by assumption.
      destruct (Nat.eqb_spec j pj'); [exact Hs2|].
      destruct (Nat.eqb_spec j pi'); [lia|].
      destruct (Nat.le_gt_cases pj j) as [H|H].
      * apply Hder. lia.
      * apply Z.lt_le_incl, Hb3. lia.
    + exists a', r. split; [exact Hrun|]. split.
      * eapply reordena_trans; [|exact Hre].
        apply reordena_swap; lia.
      * split; [lia|]. split; [exact Hi'|]. split; [exact Hv'|].
        split; [exact Hj'|].
        intros i Hi. rewrite Hfix by lia. rewrite nth_swap by assumption.
        destruct (Nat.eqb_spec i pj'); [lia|].
        destruct (Nat.eqb_spec i pi'); [lia|]. reflexivity.
Qed.

(** A swap under a test of the two values. *)
Lemma si_menor_swap pl pr p q a :
  (pl <= p <= pr)%nat -> (pl <= q <= pr)%nat -> p <> q ->
  (pr < List.length a)%nat ->
  let a' := if en v a p <? en v a q then INTP_SWAP p q a else a in
  reordena pl pr a a' /\
  en v a' q <= en v a' p /\
  (forall i, i <> p -> i <> q -> en v a' i = en v a i) /\
  ((en v a' p = en v a p /\ en v a' q = en v a q) \/
   (en v a' p = en v a q /\ en v a' q = en v a p)).
Proof.
  intros Hp Hq Hpq Hlen a'. subst a'.
  destruct (en v a p <? en v a q) eqn:E.
  - apply Z.ltb_lt in E.
    assert (E1 : en v (INTP_SWAP p q a) q = en v a p).
    { rewrite en_swap by lia. now rewrite Nat.eqb_refl. }
    assert (E2 : en v (INTP_SWAP p q a) p = en v a q).
    { rewrite en_swap by lia. destruct (Nat.eqb_spec p q); [contradiction|].
      now rewrite Nat.eqb_refl. }
    split; [apply reordena_swap; assumption|].
    split; [lia|]. split; [|right; auto].
    intros i Hip Hiq. rewrite en_swap by lia.
    destruct (Nat.eqb_spec i q); [contradiction|].
    destruct (Nat.eqb_spec i p); [contradiction|]. reflexivity.
  - apply Z.ltb_ge in E. split; [apply reordena_refl|].
    split; [exact E|]. split; [reflexivity | left; auto].
Qed.

Lemma div2_cotas d : (2 <= d)%nat -> (1 <= Nat.div2 d < d)%nat.
Proof.
  intros H. split.
  - destruct d as [|[|d]]; [lia|lia|]. cbn [Nat.div2]. apply le_n_S, Nat.le_0_l.
  - apply Nat.lt_div2. lia.
Qed.

(** One split: the pivot ends at a place strictly inside the range,
    with nothing greater before it and nothing smaller after it. *)
Lemma particion_spec pl pr a :
  (pl + 2 <= pr)%nat -> (pr < List.length a)%nat ->
  exists a' pi,
    particion v pl pr a = (a', pi) /\
    reordena pl pr a a' /\ (pl < pi < pr)%nat /\
    (forall i, (pl <= i < pi)%nat -> en v a' i <= en v a' pi) /\
    (forall j, (pi < j <= pr)%nat -> en v a' pi <= en v a' j).
Proof.
  intros Hr Hlen. unfold particion.
  assert (Hd : (1 <= Nat.div2 (pr - pl) < pr - pl)%nat)
    by (apply div2_cotas; lia).
  set (pm := (pl + Nat.div2 (pr - pl))%nat).
  assert (Hpm : (pl < pm < pr)%nat) by (unfold pm; lia).
  destruct (si_menor_swap pl pr pm pl a) as [R1 [L1 [F1 C1]]]; try lia.
  set (a1 := if en v a pm <? en v a pl then INTP_SWAP pm pl a else a) in *.
  assert (Hl1 : List.length a1 = List.length a) by apply R1.
  destruct (si_menor_swap pl pr pr pm a1) as [R2 [L2 [F2 C2]]]; try lia.
  set (a2 := if en v a1 pr <? en v a1 pm then INTP_SWAP pr pm a1 else a1) in *.
  assert (Hl2 : List.length a2 = List.length a) by (rewrite <- Hl1; apply R2).
  destruct (si_menor_swap pl pr pm pl a2) as [R3 [L3 [F3 C3]]]; try lia.
  set (a3 := if en v a2 pm <? en v a2 pl then INTP_SWAP pm pl a2 else a2) in *.
  assert (Hl3 : List.length a3 = List.length a) by (rewrite <- Hl2; apply R3).
  assert (Hmed : en v a3 pl <= en v a3 pm <= en v a3 pr).
  { assert (G1 : en v a1 pr = en v a pr) by (apply F1; lia).
    assert (G2 : en v a2 pl = en v a1 pl) by (apply F2; lia).
    assert (G3 : en v a3 pr = en v a2 pr) by (apply F3; lia).
    lia. }
  set (vp := en v a3 pm) in *.
  set (a4 := INTP_SWAP pm (pr - 1) a3).
  assert (Hl4 : List.length a4 = List.length a)
    by (unfold a4; rewrite swap_length; exact Hl3).
  assert (R4 : reordena pl pr a3 a4) by (apply reordena_swap; lia).
  assert (H4pl : en v a4 pl <= vp).
  { unfold a4. rewrite en_swap by lia.
    destruct (Nat.eqb_spec pl (pr - 1)); [lia|].
    destruct (Nat.eqb_spec pl pm); [lia|]. apply Hmed. }
  assert (H4piv : en v a4 (pr - 1) = vp).
  { unfold a4. rewrite en_swap by lia. now rewrite Nat.eqb_refl. }
  assert (H4pr : vp <= en v a4 pr).
  { unfold a4. rewrite en_swap by lia.
    destruct (Nat.eqb_spec pr (pr - 1)); [lia|].
    destruct (Nat.eqb_spec pr pm); [lia|]. apply Hmed. }
  destruct (particiona_spec vp pl pr (pr - pl) pl (pr - 1) a4)
    as [a5 [r [Hrun [R5 [Hrr [Hizq [Hvr [Hder Hfix]]]]]]]]; try lia.
  { intros i Hi. replace i with pl by lia. exact H4pl. }
  { intros j Hj. destruct (Nat.eq_dec j pr) as [->|]; [exact H4pr|].
    replace j with (pr - 1)%nat by lia. lia. }
  rewrite Hrun.
  assert (Hl5 : List.length a5 = List.length a) by (rewrite <- Hl4; apply R5).
  assert (H5piv : en v a5 (pr - 1) = vp).
  { unfold en. rewrite Hfix by lia. exact H4piv. }
  exists (INTP_SWAP r (pr - 1) a5), r. split; [reflexivity|]. split.
  - eapply reordena_trans; [exact R1|].
    eapply reordena_trans; [exact R2|].
    eapply reordena_trans; [exact R3|].
    eapply reordena_trans; [exact R4|].
    eapply reordena_trans; [exact R5|].
    apply reordena_swap; lia.
  - split; [lia|].
    assert (Hpiv : en v (INTP_SWAP r (pr - 1) a5) r = vp).
    { rewrite en_swap by lia.
      destruct (Nat.eqb_spec r (pr - 1)) as [->|]; [exact H5piv|].
      rewrite Nat.eqb_refl. exact H5piv. }
    rewrite Hpiv. split.
    + intros i Hi. rewrite en_swap by lia.
      destruct (Nat.eqb_spec i (pr - 1)); [lia|].
      destruct (Nat.eqb_spec i r); [lia|]. apply Hizq. lia.
    + intros j Hj. rewrite en_swap by lia.
      destruct (Nat.eqb_spec j (pr - 1)); [exact Hvr|].
      destruct (Nat.eqb_spec j r); [lia|]. apply Hder. lia.
Qed.

End Particion_np.

(** ** numpy's quicksort: the heapsort *)

Lemma pon_pon p x y a : pon p x (pon p y a) = pon p x a.
Proof.
  revert p. induction a as [|z a IH]; intros [|p]; simpl; try reflexivity.
  now rewrite IH.
Qed.

Section Heapsort_np.

Variable v : list Z.

Lemma en_pon p x a q :
  (p < List.length a)%nat ->
  en v (pon p x a) q = if (q =? p)%nat then nth x v 0 else en v a q.
Proof.
  intros Hp. unfold en. destruct (Nat.eqb_spec q p) as [->|Hq].
  - now rewrite nth_pon_eq.
  - now rewrite nth_pon_neq.
Qed.

(** The sift: with a hole at [i] for [tmp] in a heap that is in order
    elsewhere, the result is a heap and holds the values of the array
    with [tmp] in the hole. *)
Lemma hunde_spec pl n l tmp : forall fuel i a,
  (1 <= l)%nat -> (l <= i)%nat -> (i <= n)%nat ->
  (pl + n <= List.length a)%nat ->
  (n < fuel + i)%nat ->
  (forall k c, (l <= k)%nat -> k <> i ->
               (c = 2 * k \/ c = 2 * k + 1)%nat -> (c <= n)%nat ->
               en v a (pl + c - 1) <= en v a (pl + k - 1)) ->
  (forall p, (l <= p)%nat -> (i = 2 * p \/ i = 2 * p + 1)%nat ->
             nth tmp v 0 <= en v a (pl + p - 1) /\
             forall c, (c = 2 * i \/ c = 2 * i + 1)%nat -> (c <= n)%nat ->
                       en v a (pl + c - 1) <= en v a (pl + p - 1)) ->
  let a' := hunde v fuel pl n tmp i (i + i) a in
  reordena pl (pl + n - 1) (pon (pl + i - 1) tmp a) a' /\
  monticulo_desde v pl l n a'.
Proof.
  induction fuel as [|fuel IH]; intros i a Hl Hli Hin Hlen Hfuel HA HB; [lia|].
  cbn [hunde].
  assert (Hfin :
    (forall c, (c = 2 * i \/ c = 2 * i + 1)%nat -> (c <= n)%nat ->
               en v a (pl + c - 1) <= nth tmp v 0) ->
    reordena pl (pl + n - 1) (pon (pl + i - 1) tmp a) (pon (pl + i - 1) tmp a) /\
    monticulo_desde v pl l n (pon (pl + i - 1) tmp a)).
  { intros Hc. split; [apply reordena_refl|].
    intros k c Hk Hkc Hcn. rewrite !en_pon by lia.
    destruct (Nat.eqb_spec (pl + c - 1) (pl + i - 1)) as [E1|E1];
      destruct (Nat.eqb_spec (pl + k - 1) (pl + i - 1)) as [E2|E2].
    - lia.
    - assert (c = i) by lia. subst c. apply (HB k Hk Hkc).
    - assert (k = i) by lia. subst k. apply Hc; assumption.
    - apply HA; try assumption. lia. }
  destruct (i + i <=? n)%nat eqn:Ej; [|apply Hfin; apply Nat.leb_gt in Ej; lia].
  apply Nat.leb_le in Ej.
  set (j := if (i + i <? n)%nat &&
               (en v a (pl + (i + i) - 1) <? en v a (pl + (i + i)))
            then S (i + i) else (i + i)%nat).
  assert (Hj : (j = 2 * i \/ j = 2 * i + 1)%nat /\ (j <= n)%nat /\
               forall c, (c = 2 * i \/ c = 2 * i + 1)%nat -> (c <= n)%nat ->
                         en v a (pl + c - 1) <= en v a (pl + j - 1)).
  { unfold j.
    destruct (i + i <? n)%nat eqn:E1; cbn [andb].
    - apply Nat.ltb_lt in E1.
      destruct (en v a (pl + (i + i) - 1) <? en v a (pl + (i + i))) eqn:E2.
      + apply Z.ltb_lt in E2. split; [lia|]. split; [lia|].
        intros c [->| ->] Hc.
        * replace (pl + 2 * i - 1)%nat with (pl + (i + i) - 1)%nat by lia.
          replace (pl + S (i + i) - 1)%nat with (pl + (i + i))%nat by lia. lia.
        * replace (pl + (2 * i + 1) - 1)%nat with (pl + S (i + i) - 1)%nat by lia.
          lia.
      + apply Z.ltb_ge in E2. split; [lia|]. split; [lia|].
        intros c [->| ->] Hc.
        * replace (pl + 2 * i - 1)%nat with (pl + (i + i) - 1)%nat by lia. lia.
        * replace (pl + (2 * i + 1) - 1)%nat with (pl + (i + i))%nat by lia.
          exact E2.
    - apply Nat.ltb_ge in E1. split; [lia|]. split; [lia|].
      intros c [->| ->] Hc; [|lia].
      replace (pl + 2 * i - 1)%nat with (pl + (i + i) - 1)%nat by lia. lia. }
  destruct Hj as [Hj1 [Hj2 Hj3]]. clearbody j.
  destruct (nth tmp v 0 <? en v a (pl + j - 1)) eqn:Et.
  - apply Z.ltb_lt in Et.
    set (a1 := pon (pl + i - 1) (nth (pl + j - 1) a 0%nat) a).
    assert (Hen1 : forall x, (1 <= x)%nat ->
              en v a1 (pl + x - 1) =
              if (x =? i)%nat then en v a (pl + j - 1) else en v a (pl + x - 1)).
    { intros x Hx. unfold a1. rewrite en_pon by lia.
      destruct (Nat.eqb_spec (pl + x - 1) (pl + i - 1)) as [E|E];
        destruct (Nat.eqb_spec x i) as [E'|E']; try lia; reflexivity. }
    destruct (IH j a1) as [Hre Hheap]; try lia.
    + unfold a1. rewrite pon_length. exact Hlen.
    + intros k c Hk Hkj Hkc Hcn.
      rewrite (Hen1 c) by lia. rewrite (Hen1 k) by lia.
      destruct (Nat.eqb_spec c i) as [Ec|Ec];
        destruct (Nat.eqb_spec k i) as [Ek|Ek].
      * lia.
      * subst c. apply (HB k Hk Hkc); assumption.
      * subst k. apply Hj3; assumption.
      * apply HA; assumption.
    + intros p Hp Hpj.
      assert (p = i) by lia. subst p.
      rewrite (Hen1 i) by lia. rewrite Nat.eqb_refl.
      split; [lia|].
      intros c Hc Hcn. rewrite (Hen1 c) by lia.
      destruct (Nat.eqb_spec c i); [lia|].
      apply HA; try assumption; lia.
    + split; [|exact Hheap].
      eapply reordena_trans; [|exact Hre].
      assert (Hsw : pon (pl + j - 1) tmp a1
                    = INTP_SWAP (pl + i - 1) (pl + j - 1)
                        (pon (pl + i - 1) tmp a)).
      { unfold INTP_SWAP, a1.
        rewrite nth_pon_eq by lia.
        rewrite (nth_pon_neq (pl + i - 1) tmp a (pl + j - 1)) by lia.
        now rewrite pon_pon. }
      rewrite Hsw. apply reordena_swap; rewrite ?pon_length; lia.
  - apply Z.ltb_ge in Et. apply Hfin.
    intros c Hc Hcn. specialize (Hj3 c Hc Hcn). lia.
Qed.

Lemma div2_doble n : (n <= 2 * Nat.div2 n + 1)%nat.
Proof.
  rewrite (Nat.div2_odd n) at 1. destruct (Nat.odd n); simpl; lia.
Qed.

Lemma rev_seq_S a m : rev (seq a (S m)) = (a + m)%nat :: rev (seq a m).
Proof. rewrite seq_S, rev_app_distr. reflexivity. Qed.

(** The first loop of the heapsort builds the heap. *)
Lemma monticulo_hecho pl n : forall m a,
  (m <= n)%nat -> (pl + n <= List.length a)%nat ->
  monticulo_desde v pl (m + 1) n a ->
  let a' :=
    fold_left
      (fun tosort l =>
         hunde v n pl n (nth (pl + l - 1) tosort 0%nat) l (l + l) tosort)
      (rev (seq 1 m)) a in
  reordena pl (pl + n - 1) a a' /\ monticulo_desde v pl 1 n a'.
Proof.
  induction m as [|m IH]; intros a Hm Hlen Hheap.
  - simpl. split; [apply reordena_refl | exact Hheap].
  - rewrite rev_seq_S. cbn [fold_left].
    replace (1 + m)%nat with (S m) by lia.
    destruct (hunde_spec pl n (S m) (nth (pl + S m - 1) a 0%nat) n (S m) a)
      as [Hre Hh]; try lia.
    + intros k c Hk Hne Hc Hcn. apply Hheap; try assumption. lia.
    + rewrite pon_nth in Hre.
      set (a1 := hunde v n pl n (nth (pl + S m - 1) a 0%nat) (S m) (S m + S m) a)
        in *.
      destruct (IH a1) as [Hre2 Hh2]; try lia.
      * rewrite (proj1 Hre). exact Hlen.
      * replace (m + 1)%nat with (S m) by lia. exact Hh.
      * split; [|exact Hh2]. eapply reordena_trans; eassumption.
Qed.

(** In a heap the first value is the greatest. *)
Lemma raiz_maxima pl n a :
  monticulo_desde v pl 1 n a ->
  forall k, (1 <= k <= n)%nat -> en v a (pl + k - 1) <= en v a (pl + 1 - 1).
Proof.
  intros Hh k. induction k as [k IH] using lt_wf_ind. intros Hk.
  destruct (Nat.eq_dec k 1) as [->|Hk1]; [lia|].
  set (p := Nat.div2 k).
  assert (Hp : (k = 2 * p \/ k = 2 * p + 1)%nat).
  { unfold p. rewrite (Nat.div2_odd k) at 1 3.
    destruct (Nat.odd k); simpl; lia. }
  assert (Hp1 : (1 <= p)%nat) by lia.
  specialize (Hh p k Hp1 Hp ltac:(lia)).
  specialize (IH p ltac:(lia) ltac:(lia)). lia.
Qed.

(** The second loop takes the greatest value out of the heap, time
    after time. *)
Lemma monticulo_vaciado pl n : forall c a,
  (c + 1 <= n)%nat -> (pl + n <= List.length a)%nat ->
  monticulo_desde v pl 1 (c + 1) a ->
  (forall k t, (1 <= k <= c + 1)%nat -> (c + 1 < t <= n)%nat ->
               en v a (pl + k - 1) <= en v a (pl + t - 1)) ->
  (forall s t, (c + 1 < s)%nat -> (s <= t)%nat -> (t <= n)%nat ->
               en v a (pl + s - 1) <= en v a (pl + t - 1)) ->
  let a' :=
    fold_left
      (fun tosort n =>
         let tmp := nth (pl + n - 1) tosort 0%nat in
         let tosort := pon (pl + n - 1) (nth pl tosort 0%nat) tosort in
         hunde v n pl (n - 1) tmp 1 2 tosort)
      (rev (seq 2 c)) a in
  reordena pl (pl + n - 1) a a' /\
  forall s t, (1 <= s)%nat -> (s <= t)%nat -> (t <= n)%nat ->
              en v a' (pl + s - 1) <= en v a' (pl + t - 1).
Proof.
  induction c as [|c IH]; intros a Hc Hlen Hheap Hcota Hord.
  - simpl. split; [apply reordena_refl|].
    intros s t Hs Hst Ht.
    destruct (Nat.eq_dec s 1) as [->|Hs1].
    + destruct (Nat.eq_dec t 1) as [->|Ht1]; [lia|].
      apply Hcota; lia.
    + apply Hord; lia.
  - rewrite rev_seq_S. cbn [fold_left].
    set (m := (2 + c)%nat).
    set (tmp := nth (pl + m - 1) a 0%nat).
    set (a1 := pon (pl + m - 1) (nth pl a 0%nat) a).
    assert (Hen1 : forall x, (1 <= x)%nat -> x <> m ->
              en v a1 (pl + x - 1) = en v a (pl + x - 1)).
    { intros x Hx Hxm. unfold a1. rewrite en_pon by lia.
      destruct (Nat.eqb_spec (pl + x - 1) (pl + m - 1)); [lia|reflexivity]. }
    destruct (hunde_spec pl (m - 1) 1 tmp m 1 a1) as [Hre Hh]; try lia.
    + unfold a1. rewrite pon_length. lia.
    + intros k ch Hk Hk1 Hch Hchn.
      rewrite !Hen1 by lia. apply Hheap; try lia.
    + change (1 + 1)%nat with 2%nat in *.
      set (a2 := hunde v m pl (m - 1) tmp 1 2 a1) in *.
      assert (Hb : pon (pl + 1 - 1) tmp a1 = INTP_SWAP (pl + m - 1) pl a).
      { unfold INTP_SWAP, a1, tmp.
        replace (pl + 1 - 1)%nat with pl by lia. reflexivity. }
      rewrite Hb in Hre.
      assert (Hsw : reordena pl (pl + n - 1) a (INTP_SWAP (pl + m - 1) pl a))
        by (apply reordena_swap; lia).
      assert (Hl2 : List.length a2 = List.length a).
      { rewrite (proj1 Hre), swap_length. reflexivity. }
      assert (Hraiz := raiz_maxima pl (c + 1 + 1) a).
      replace (S c + 1)%nat with (c + 1 + 1)%nat in Hheap by lia.
      specialize (Hraiz Hheap).
      (* the values left in the heap *)
      assert (Hdentro : forall k, (1 <= k <= m - 1)%nat ->
                en v a2 (pl + k - 1) <= en v a (pl + 1 - 1) /\
                forall t, (m < t <= n)%nat ->
                          en v a2 (pl + k - 1) <= en v a (pl + t - 1)).
      { intros k Hk.
        pose proof (reordena_forall
                      (fun e => nth e v 0 <= en v a (pl + 1 - 1) /\
                                forall t, (m < t <= n)%nat ->
                                          nth e v 0 <= en v a (pl + t - 1))
                      pl (pl + (m - 1) - 1) (INTP_SWAP (pl + m - 1) pl a) a2)
          as HF.
        cbv beta in HF. unfold en at 1 3.
        apply HF; try lia.
        - rewrite swap_length. lia.
        - exact Hre.
        - intros i Hi. rewrite nth_swap by lia.
          destruct (Nat.eqb_spec i pl) as [->|Hipl].
          + split.
            * apply (Hraiz m). lia.
            * intros t Ht. apply (Hcota m t); lia.
          + destruct (Nat.eqb_spec i (pl + m - 1)); [lia|].
            replace i with (pl + (i - pl + 1) - 1)%nat by lia. split.
            * apply (Hraiz (i - pl + 1)%nat). lia.
            * intros t Ht. apply (Hcota (i - pl + 1)%nat t); lia. }
      assert (Hfuera : forall t, (m <= t <= n)%nat ->
                en v a2 (pl + t - 1) =
                if (t =? m)%nat then en v a (pl + 1 - 1) else en v a (pl + t - 1)).
      { intros t Ht. unfold en at 1.
        rewrite (proj1 (proj2 Hre)) by lia.
        rewrite nth_swap by lia.
        destruct (Nat.eqb_spec (pl + t - 1) pl); [lia|].
        destruct (Nat.eqb_spec (pl + t - 1) (pl + m - 1)) as [E|E];
          destruct (Nat.eqb_spec t m) as [E'|E']; try lia.
        - unfold en. replace (pl + 1 - 1)%nat with pl by lia. reflexivity.
        - reflexivity. }
      destruct (IH a2) as [Hre3 Hord3]; try lia.
      * replace (c + 1)%nat with (m - 1)%nat by lia. exact Hh.
      * intros k t Hk Ht.
        rewrite (Hfuera t) by lia.
        destruct (Hdentro k) as [D1 D2]; [lia|].
        destruct (Nat.eqb_spec t m); [exact D1|].
        apply D2. lia.
      * intros s t Hs Hst Ht.
        rewrite (Hfuera s), (Hfuera t) by lia.
        destruct (Nat.eqb_spec s m); destruct (Nat.eqb_spec t m); try lia.
        -- apply (Hcota 1%nat t); lia.
        -- apply Hord; lia.
      * split; [|exact Hord3].
        eapply reordena_trans; [exact Hsw|].
        eapply reordena_trans; [|exact Hre3].
        eapply reordena_sub; [| |exact Hre]; lia.
Qed.

(** The heapsort of a range sorts it and touches nothing else. *)
Lemma aheapsort_spec pl n a :
  (1 <= n)%nat -> (pl + n <= List.length a)%nat ->
  let a' := aheapsort_ v pl n a in
  reordena pl (pl + n - 1) a a' /\ ordenado_en v pl (pl + n - 1) a'.
Proof.
  intros Hn Hlen. unfold aheapsort_.
  destruct (monticulo_hecho pl n (Nat.div2 n) a) as [Hre1 Hh1]; try lia.
  - pose proof (Nat.lt_div2 n). lia.
  - intros k c Hk Hc Hcn. pose proof (div2_doble n). lia.
  - set (a1 := fold_left _ (rev (seq 1 (Nat.div2 n))) a) in *.
    destruct (monticulo_vaciado pl n (n - 1) a1) as [Hre2 Hord]; try lia.
    + rewrite (proj1 Hre1). exact Hlen.
    + replace (n - 1 + 1)%nat with n by lia. exact Hh1.
    + split; [eapply reordena_trans; eassumption|].
      intros i j Hi Hij Hj.
      replace i with (pl + (i - pl + 1) - 1)%nat by lia.
      replace j with (pl + (j - pl + 1) - 1)%nat by lia.
      apply Hord; lia.
Qed.

End Heapsort_np.

(** ** numpy's quicksort: the whole routine *)

Lemma sorted_nth {A} (R : A -> A -> Prop) d (l : list A) :
  (forall i j, (i < j)%nat -> (j < List.length l)%nat ->
               R (nth i l d) (nth j l d)) ->
  StronglySorted R l.
Proof.
  induction l as [|x l IH]; intros H; constructor.
  - apply IH. intros i j Hij Hj. apply (H (S i) (S j)); simpl; lia.
  - apply Forall_forall. intros y Hy.
    destruct (In_nth l y d Hy) as [k [Hk <-]].
    apply (H 0%nat (S k)); simpl; lia.
Qed.

Lemma nth_sorted {A} (R : A -> A -> Prop) d (l : list A) :
  StronglySorted R l ->
  forall i j, (i < j)%nat -> (j < List.length l)%nat ->
              R (nth i l d) (nth j l d).
Proof.
  intros H. induction H as [|x l Hs IH Hall]; intros i j Hij Hj;
    [simpl in Hj; lia|].
  destruct j as [|j]; [lia|]. simpl in Hj.
  destruct i as [|i]; simpl.
  - rewrite Forall_forall in Hall. apply Hall, nth_In. lia.
  - apply IH; lia.
Qed.

Section Quicksort_np.

Variable v : list Z.

(** The insertion sort on a range of the array. *)
Lemma insercion_rango pl pr a :
  (pl <= pr)%nat -> (pr < List.length a)%nat ->
  reordena pl pr a (insercion v pl pr a) /\
  ordenado_en v pl pr (insercion v pl pr a).
Proof.
  intros H1 H2.
  destruct (tramo_partes a pl pr ltac:(lia) H2)
    as [pre [s [post [Ha [Hpre Hs]]]]].
  assert (Hne : s <> []) by (destruct s; simpl in Hs; [lia | discriminate]).
  destruct (insercion_spec v pre s post Hne) as [out [[Hp [Hso _]] Hi]].
  replace (List.length pre + List.length s - 1)%nat with pr in Hi by lia.
  rewrite Hpre, <- Ha in Hi. rewrite Hi.
  pose proof (Permutation_length Hp) as Hl.
  split.
  - split; [rewrite Ha, !length_app; lia|]. split.
    + intros i Hi'. rewrite Ha. destruct Hi' as [Hi'|Hi'].
      * rewrite !app_nth1 by lia. reflexivity.
      * rewrite !(app_nth2 pre) by lia.
        rewrite !app_nth2 by lia. f_equal. lia.
    + rewrite Ha. apply Permutation_app_head, Permutation_app_tail, Hp.
  - intros i j Hi' Hij Hj. unfold en.
    rewrite !(app_nth2 pre) by lia. rewrite !app_nth1 by lia.
    destruct (Nat.eq_dec i j) as [->|Hne']; [lia|].
    apply (nth_sorted _ 0%nat out Hso); lia.
Qed.

(** The loop of the quicksort on a range: whatever the depth left and
    wherever the range comes from, the range ends sorted and the rest of
    the array as it was. *)
Lemma aquicksort_rango_spec : forall fuel de_la_pila cdepth pl pr a,
  (pl <= pr)%nat -> (pr < List.length a)%nat -> (pr - pl < fuel)%nat ->
  reordena pl pr a (aquicksort_rango v fuel de_la_pila cdepth pl pr a) /\
  ordenado_en v pl pr (aquicksort_rango v fuel de_la_pila cdepth pl pr a).
Proof.
  induction fuel as [|fuel IH]; intros flag cdepth pl pr a H1 H2 H3; [lia|].
  cbn [aquicksort_rango].
  destruct (flag && (cdepth <? 0)).
  { destruct (aheapsort_spec v pl (pr - pl + 1) a) as [Hre Hso]; try lia.
    replace (pl + (pr - pl + 1) - 1)%nat with pr in * by lia. auto. }
  destruct (SMALL_QUICKSORT <? pr - pl)%nat eqn:E;
    [|now apply insercion_rango].
  apply Nat.ltb_lt in E. unfold SMALL_QUICKSORT in E.
  destruct (particion_spec v pl pr a)
    as [a1 [pi [Hrun [Hre1 [Hpi [Hizq Hder]]]]]]; try lia.
  rewrite Hrun.
  assert (Hl1 : List.length a1 = List.length a) by apply Hre1.
  assert (Hcomb : forall a2 a3,
    (reordena pl (pi - 1) a1 a2 /\ ordenado_en v pl (pi - 1) a2 /\
     reordena (pi + 1) pr a2 a3 /\ ordenado_en v (pi + 1) pr a3) \/
    (reordena (pi + 1) pr a1 a2 /\ ordenado_en v (pi + 1) pr a2 /\
     reordena pl (pi - 1) a2 a3 /\ ordenado_en v pl (pi - 1) a3) ->
    reordena pl pr a a3 /\ ordenado_en v pl pr a3).
  { intros a2 a3 Hcase.
    assert (Hres : reordena pl pr a1 a3 /\
                   nth pi a3 0%nat = nth pi a1 0%nat /\
                   (forall i, (pl <= i <= pi - 1)%nat ->
                              en v a3 i <= en v a1 pi) /\
                   (forall j, (pi + 1 <= j <= pr)%nat ->
                              en v a1 pi <= en v a3 j) /\
                   ordenado_en v pl (pi - 1) a3 /\
                   ordenado_en v (pi + 1) pr a3).
    { destruct Hcase as [[R2 [S2 [R3 S3]]]|[R2 [S2 [R3 S3]]]].
      - assert (Hl2 : List.length a2 = List.length a) by (rewrite <- Hl1; apply R2).
        split; [eapply reordena_trans;
                [eapply reordena_sub; [| |exact R2]; lia
                |eapply reordena_sub; [| |exact R3]; lia]|].
        split; [rewrite (proj1 (proj2 R3)), (proj1 (proj2 R2)) by lia;
                reflexivity|].
        split; [|split; [|split; [|exact S3]]].
        + intros i Hi. unfold en at 1.
          rewrite (proj1 (proj2 R3)) by lia.
          apply (reordena_forall (fun e => nth e v 0 <= en v a1 pi)
                   pl (pi - 1) a1 a2); try lia; [exact R2|].
          intros k Hk. apply Hizq. lia.
        + intros j Hj. unfold en at 2.
          apply (reordena_forall (fun e => en v a1 pi <= nth e v 0)
                   (pi + 1) pr a2 a3); try lia; [exact R3|].
          intros k Hk. rewrite (proj1 (proj2 R2)) by lia.
          apply Hder. lia.
        + intros i j Hi Hij Hj. unfold en.
          rewrite !(proj1 (proj2 R3)) by lia. apply S2; lia.
      - assert (Hl2 : List.length a2 = List.length a) by (rewrite <- Hl1; apply R2).
        split; [eapply reordena_trans;
                [eapply reordena_sub; [| |exact R2]; lia
                |eapply reordena_sub; [| |exact R3]; lia]|].
        split; [rewrite (proj1 (proj2 R3)), (proj1 (proj2 R2)) by lia;
                reflexivity|].
        split; [|split; [|split; [exact S3|]]].
        + intros i Hi. unfold en at 1.
          apply (reordena_forall (fun e => nth e v 0 <= en v a1 pi)
                   pl (pi - 1) a2 a3); try lia; [exact R3|].
          intros k Hk. rewrite (proj1 (proj2 R2)) by lia.
          apply Hizq. lia.
        + intros j Hj. unfold en at 2.
          rewrite (proj1 (proj2 R3)) by lia.
          apply (reordena_forall (fun e => en v a1 pi <= nth e v 0)
                   (pi + 1) pr a1 a2); try lia; [exact R2|].
          intros k Hk. apply Hder. lia.
        + intros i j Hi Hij Hj. unfold en.
          rewrite !(proj1 (proj2 R3)) by lia. apply S2; lia. }
    destruct Hres as [R [Hpiv [Hi3 [Hj3 [S1 S2]]]]].
    split; [eapply reordena_trans; eassumption|].
    assert (Epiv : en v a3 pi = en v a1 pi) by (unfold en; now rewrite Hpiv).
    intros i j Hi Hij Hj.
    destruct (Nat.lt_trichotomy i pi) as [Hip|[->|Hip]];
      destruct (Nat.lt_trichotomy j pi) as [Hjp|[->|Hjp]]; try lia.
    - apply S1; lia.
    - rewrite Epiv. apply Hi3. lia.
    - specialize (Hi3 i ltac:(lia)). specialize (Hj3 j ltac:(lia)). lia.
    - rewrite Epiv. apply Hj3. lia.
    - apply S2; lia. }
  destruct (pi - pl <? pr - pi)%nat.
  - set (a2 := aquicksort_rango v fuel false (cdepth - 1) pl (pi - 1) a1).
    destruct (IH false (cdepth - 1) pl (pi - 1)%nat a1) as [R2 S2]; try lia.
    fold a2 in R2, S2.
    destruct (IH true (cdepth - 1) (pi + 1)%nat pr a2) as [R3 S3]; try lia.
    { rewrite (proj1 R2). lia. }
    apply (Hcomb a2). left. auto.
  - set (a2 := aquicksort_rango v fuel false (cdepth - 1) (pi + 1) pr a1).
    destruct (IH false (cdepth - 1) (pi + 1)%nat pr a1) as [R2 S2]; try lia.
    fold a2 in R2, S2.
    destruct (IH true (cdepth - 1) pl (pi - 1)%nat a2) as [R3 S3]; try lia.
    { rewrite (proj1 R2). lia. }
    apply (Hcomb a2). right. auto.
Qed.

(** [argsort] returns the positions of the column, in ascending order
    of the values. *)
Lemma argsort_ordena :
  Permutation (seq 0 (List.length v)) (argsort v) /\
  StronglySorted (por_valor v) (argsort v).
Proof.
  unfold argsort, aquicksort_.
  set (n := List.length v).
  destruct n as [|n]; [simpl; split; constructor|].
  destruct (aquicksort_rango_spec (S n) true (cdepth_inicial (S n)) 0
              (S n - 1) (seq 0 (S n))) as [Hre Hso];
    try (rewrite ?length_seq; lia).
  set (out := aquicksort_rango v (S n) true (cdepth_inicial (S n)) 0
                (S n - 1) (seq 0 (S n))) in *.
  split; [apply Hre|].
  apply (sorted_nth _ 0%nat). intros i j Hij Hj.
  rewrite (proj1 Hre), length_seq in Hj.
  apply (Hso i j); lia.
Qed.

Lemma aquicksort_rango_chico fuel de_la_pila cdepth pl pr a :
  0 <= cdepth -> (pr - pl <= SMALL_QUICKSORT)%nat ->
  aquicksort_rango v (S fuel) de_la_pila cdepth pl pr a = insercion v pl pr a.
Proof.
  intros Hd Hs. cbn [aquicksort_rango].
  assert (E1 : (cdepth <? 0) = false) by now apply Z.ltb_ge.
  assert (E2 : (SMALL_QUICKSORT <? pr - pl)%nat = false)
    by now apply Nat.ltb_ge.
  rewrite E1, E2, andb_false_r. reflexivity.
Qed.

(** On a column of at most 17 values [argsort] is the insertion sort:
    equal values keep the order of their positions. *)
Lemma argsort_estable :
  (List.length v <= SMALL_QUICKSORT + 1)%nat ->
  ordenado_estable v (seq 0 (List.length v)) (argsort v).
Proof.
  intros Hn. unfold argsort, aquicksort_.
  destruct (List.length v) as [|n] eqn:En;
    [simpl; repeat split; constructor|].
  rewrite aquicksort_rango_chico;
    [|unfold cdepth_inicial; lia | lia].
  destruct (insercion_spec v [] (seq 0 (S n)) []) as [out [Ho Hi]];
    [discriminate|].
  rewrite length_seq, app_nil_r in Hi. cbn [List.length app] in Hi.
  replace (0 + S n - 1)%nat with (S n - 1)%nat in Hi by lia.
  rewrite Hi, app_nil_r. exact Ho.
Qed.

End Quicksort_np.

(** ** [sort_values] *)

Lemma take_desde (pre df : list fila) :
  take (pre ++ df) (seq (List.length pre) (List.length df)) = df.
Proof.
  revert pre. induction df as [|x df IH]; intros pre; [reflexivity|].
  cbn [List.length seq take flat_map].
  assert (E : nth_error (pre ++ x :: df) (List.length pre) = Some x).
  { rewrite nth_error_app2 by lia. now rewrite Nat.sub_diag. }
  rewrite E. cbn [app]. f_equal.
  specialize (IH (pre ++ [x])). rewrite <- app_assoc, length_app in IH.
  cbn [List.length app] in IH.
  replace (List.length pre + 1)%nat with (S (List.length pre)) in IH by lia.
  exact IH.
Qed.

Lemma take_seq df : take df (seq 0 (List.length df)) = df.
Proof. apply (take_desde [] df). Qed.

Lemma take_total df i x :
  nth_error df i = Some x -> valor (map total df) i = total x.
Proof.
  intros H. unfold valor.
  rewrite (nth_indep _ 0 (total x))
    by (rewrite length_map; apply nth_error_Some; congruence).
  rewrite map_nth. f_equal. now apply nth_error_nth.
Qed.

Lemma take_filter df k idx :
  filter (fun x => total x =? k) (take df idx) =
  take df (filter (fun i => valor (map total df) i =? k) idx).
Proof.
  induction idx as [|i idx IH]; [reflexivity|].
  cbn [take flat_map filter]. fold (take df idx).
  rewrite filter_app, IH.
  destruct (nth_error df i) as [x|] eqn:E.
  - rewrite (take_total df i x E). simpl.
    destruct (total x =? k); [|reflexivity].
    cbn [take flat_map]. rewrite E. reflexivity.
  - simpl. destruct (valor (map total df) i =? k); [|reflexivity].
    cbn [take flat_map]. rewrite E. reflexivity.
Qed.

Lemma take_sorted df idx :
  StronglySorted (por_valor (map total df)) idx ->
  StronglySorted por_total (take df idx).
Proof.
  intros H. induction H as [|i idx Hs IH Hall]; [constructor|].
  cbn [take flat_map]. fold (take df idx).
  destruct (nth_error df i) as [x|] eqn:E; [|exact IH].
  cbn [app]. constructor; [exact IH|].
  apply Forall_forall. intros y Hy.
  unfold take in Hy. apply in_flat_map in Hy.
  destruct Hy as [j [Hj Hy]].
  destruct (nth_error df j) as [z|] eqn:Ej; [|destruct Hy].
  destruct Hy as [<-|[]].
  rewrite Forall_forall in Hall. specialize (Hall j Hj).
  unfold por_valor in Hall.
  rewrite (take_total df i x E), (take_total df j z Ej) in Hall. exact Hall.
Qed.

(** [sort_values] keeps the promise of [ordena_por_total]. *)
Lemma sort_values_quicksort_ordena : ordena_por_total sort_values_quicksort.
Proof.
  intros df. unfold sort_values_quicksort.
  destruct (argsort_ordena (map total df)) as [Hp Hs].
  rewrite length_map in Hp. split.
  - rewrite <- (take_seq df) at 1.
    unfold take. now apply Permutation_flat_map.
  - now apply take_sorted.
Qed.

(** Up to 17 rows, cards of one total stay in the order they have in
    the frame. *)
Lemma sort_values_quicksort_empates df k :
  (List.length df <= SMALL_QUICKSORT + 1)%nat ->
  filter (fun x => total x =? k) (sort_values_quicksort df) =
  filter (fun x => total x =? k) df.
Proof.
  intros Hn. unfold sort_values_quicksort.
  destruct (argsort_estable (map total df)) as [_ [_ Hf]];
    [now rewrite length_map|].
  rewrite take_filter, Hf, length_map, <- take_filter, take_seq.
  reflexivity.
Qed.

Lemma filtro_historico ahora df : filter (en_rango Historico ahora) df = df.
Proof. induction df as [|x df IH]; simpl; [reflexivity|]. now rewrite IH. Qed.

(** C3, as it is written, fails.  Eighteen cards with the total 42,
    saved one after the other: the ranking over the whole ledger numbers
    them 1 to 18, but the cards saved 2nd to 16th are listed in the
    reverse of the order they were saved in. *)
Lemma C3_dieciocho_empates :
  let mostrar :=
    filas_de (ver_ranking sort_values_quicksort Historico 1700003600000000
                cartas18) in
  map pos mostrar = seq 1 18 /\
  map r_total mostrar = repeat 42 18 /\
  map r_fecha mostrar =
  map (fun i => 1700000000 + Z.of_nat i)
    [1; 16; 15; 14; 13; 12; 11; 10; 9; 8; 7; 6; 5; 4; 3; 2; 17; 18]%nat /\
  map datos mostrar <> map datos_fila cartas18.
Proof.
  cbv zeta. split; [|split; [|split]]; try (vm_compute; reflexivity).
  vm_compute. discriminate.
Qed.

(** C3, amended.  The ranking lists the cards of the window by
    ascending total, numbered 1, 2, ..., and, when the window holds at
    most 50, lists exactly those cards.  Cards of equal total keep the
    order in which they were saved when the window holds at most 17
    cards, the size up to which numpy's quicksort is an insertion sort;
    so four cards with the totals 50, 42, 42 and 60 get, over the whole
    ledger, the positions 1, 2, 3, 4 with the second card before the
    third. *)
Theorem C3_orden_por_total :
  forall f ahora df,
    let filtradas := filter (en_rango f ahora) df in
    let mostrar := filas_de (ver_ranking sort_values_quicksort f ahora df) in
    StronglySorted Z.le (map r_total mostrar) /\
    map pos mostrar = seq 1 (Nat.min (List.length filtradas) 50) /\
    ((List.length filtradas <= 50)%nat ->
     Permutation (map datos_fila filtradas) (map datos mostrar)) /\
    ((List.length filtradas <= 17)%nat ->
     forall k,
       filter (fun d => snd d =? k) (map datos mostrar) =
       filter (fun d => snd d =? k) (map datos_fila filtradas)) /\
    (forall x0 x1 x2 x3,
        f = Historico ->
        df = [x0; x1; x2; x3] ->
        map total df = [50; 42; 42; 60] ->
        map pos mostrar = [1; 2; 3; 4]%nat /\
        map datos mostrar = map datos_fila [x1; x2; x0; x3]).
Proof.
  intros f ahora df filtradas mostrar.
  pose proof sort_values_quicksort_ordena as Hsv.
  destruct (C9_primeras_50_aux sort_values_quicksort Hsv f ahora df)
    as [Hpos [Hdat [Hp Hs]]].
  fold mostrar in Hpos, Hdat. fold filtradas in Hpos, Hdat, Hp, Hs.
  assert (Htot : map r_total mostrar
                 = map total (firstn 50 (sort_values_quicksort filtradas))).
  { rewrite datos_total, Hdat, <- datos_fila_total. reflexivity. }
  split; [|split; [exact Hpos|split; [|split]]].
  - rewrite Htot. apply sorted_map_total, sorted_firstn, Hs.
  - intros Hle. rewrite Hdat.
    rewrite firstn_all2
      by (rewrite <- (Permutation_length Hp); exact Hle).
    now apply Permutation_map.
  - intros Hle k. rewrite Hdat.
    rewrite firstn_all2
      by (rewrite <- (Permutation_length Hp); lia).
    assert (Hf : forall l,
               filter (fun d : Z * cell * cell * Z => snd d =? k)
                 (map datos_fila l)
               = map datos_fila (filter (fun x => total x =? k) l)).
    { induction l as [|x l IH]; [reflexivity|]. simpl.
      destruct (total x =? k); simpl; now rewrite IH. }
    rewrite !Hf. f_equal.
    apply sort_values_quicksort_empates. unfold SMALL_QUICKSORT. lia.
  - intros x0 x1 x2 x3 Hh Hdf H4.
    assert (Hfil : filtradas = df)
      by (unfold filtradas; rewrite Hh; apply filtro_historico).
    rewrite Hfil in *.
    assert (Hsort : sort_values_quicksort df = [x1; x2; x0; x3]).
    { unfold sort_values_quicksort. rewrite H4.
      replace (argsort [50; 42; 42; 60]) with [1; 2; 0; 3]%nat
        by (vm_compute; reflexivity).
      rewrite Hdf. reflexivity. }
    split.
    + rewrite Hpos, Hdf. reflexivity.
    + rewrite Hdat, Hsort. reflexivity.
Qed.

Lemma C3_orden_por_total_witness :
  let mostrar :=
    filas_de (ver_ranking sort_values_quicksort Historico 1700003600000000
                cartas4) in
  StronglySorted Z.le (map r_total mostrar) /\
  map pos mostrar = [1; 2; 3; 4]%nat /\
  map (fun r => (r_email r, r_total r)) mostrar =
  [ (Str "leo@club.cl", 42); (Str "eva@club.cl", 42);
    (Str "ana@club.cl", 50); (Str "teo@club.cl", 60) ].
Proof.
  destruct (C3_orden_por_total Historico 1700003600000000 cartas4)
    as [H1 [_ [_ [_ H4]]]].
  destruct (H4 _ _ _ _ eq_refl eq_refl eq_refl) as [H5 _].
  split; [exact H1|]. split; [exact H5|]. reflexivity.
Defined.

(** ** Patterns and the shape of an address *)

Lemma append_eq_nil (s1 s2 : string) :
  (s1 ++ s2)%string = "" -> s1 = "" /\ s2 = "".
Proof. destruct s1; simpl; [auto | discriminate]. Qed.

Lemma append_eq_cons (s1 s2 : string) a s :
  (s1 ++ s2)%string = String a s ->
  (s1 = "" /\ s2 = String a s) \/
  (exists s1', s1 = String a s1' /\ s = (s1' ++ s2)%string).
Proof.
  destruct s1 as [|b s1]; simpl; intros H.
  - left. auto.
  - right. injection H as -> <-. eauto.
Qed.

Lemma nullable_spec r : Re.nullable r = true <-> Re.matches r "".
Proof.
  split.
  - induction r; simpl; intros H; try discriminate.
    + constructor.
    + apply andb_true_iff in H. destruct H as [H1 H2].
      change "" with ("" ++ "")%string. constructor; auto.
    + apply orb_true_iff in H. destruct H as [H|H];
        [apply Re.m_alt_l | apply Re.m_alt_r]; auto.
    + constructor.
  - intros H. remember "" as s eqn:Es.
    induction H; simpl; try reflexivity; try discriminate.
    + apply append_eq_nil in Es. destruct Es as [-> ->].
      rewrite IHmatches1, IHmatches2; reflexivity.
    + rewrite IHmatches by assumption. reflexivity.
    + rewrite IHmatches by assumption. apply orb_true_r.
Qed.

Lemma deriv_sound a r : forall s,
  Re.matches (Re.deriv a r) s -> Re.matches r (String a s).
Proof.
  induction r; simpl; intros s H.
  - inversion H.
  - inversion H.
  - destruct (Ascii.eqb_spec a c); inversion H; subst. constructor.
  - destruct (Ascii.eqb_spec a c); inversion H; subst. now constructor.
  - destruct (Re.nullable r1) eqn:N.
    + inversion H; subst.
      * match goal with Hc : Re.matches (Re.Cat _ _) _ |- _ => inversion Hc; subst end.
        change (String a (s1 ++ s2)) with (String a s1 ++ s2)%string.
        constructor; auto.
      * change (String a s) with ("" ++ String a s)%string.
        constructor; [now apply nullable_spec | auto].
    + inversion H; subst.
      change (String a (s1 ++ s2)) with (String a s1 ++ s2)%string.
      constructor; auto.
  - inversion H; subst; [apply Re.m_alt_l | apply Re.m_alt_r]; auto.
  - inversion H; subst.
    change (String a (s1 ++ s2)) with (String a s1 ++ s2)%string.
    constructor; auto.
Qed.

Lemma deriv_complete a r t :
  Re.matches r t -> forall s, t = String a s -> Re.matches (Re.deriv a r) s.
Proof.
  intros H. induction H; intros u E; simpl; try discriminate.
  - injection E as -> <-. rewrite Ascii.eqb_refl. constructor.
  - injection E as -> <-.
    destruct (Ascii.eqb_spec a c); [contradiction | constructor].
  - apply append_eq_cons in E. destruct E as [[-> ->]|[s1' [-> ->]]].
    + assert (N : Re.nullable r1 = true) by now apply nullable_spec.
      rewrite N. apply Re.m_alt_r. now apply IHmatches2.
    + destruct (Re.nullable r1).
      * apply Re.m_alt_l. constructor; auto.
      * constructor; auto.
  - apply Re.m_alt_l. auto.
  - apply Re.m_alt_r. auto.
  - apply append_eq_cons in E. destruct E as [[-> ->]|[s1' [-> ->]]].
    + now apply IHmatches2.
    + constructor; auto.
Qed.

(** [fullmatch] decides the language of the pattern. *)
Lemma fullmatch_spec s : forall r,
  Re.fullmatch r s = true <-> Re.matches r s.
Proof.
  induction s as [|a s IH]; intros r; simpl.
  - apply nullable_spec.
  - rewrite IH. split.
    + apply deriv_sound.
    + intros H. now apply (deriv_complete a r _ H).
Qed.

(** [match_] succeeds exactly when a prefix is in the language. *)
Lemma match_spec s : forall r,
  Re.match_ r s = true <->
  exists p rest, s = (p ++ rest)%string /\ Re.matches r p.
Proof.
  induction s as [|a s IH]; intros r; simpl.
  - rewrite orb_false_r, nullable_spec. split.
    + intros H. exists "", "". auto.
    + intros [p [rest [E H]]]. symmetry in E.
      apply append_eq_nil in E. destruct E as [-> _]. exact H.
  - rewrite orb_true_iff, nullable_spec, IH. split.
    + intros [H|[p [rest [-> H]]]].
      * exists "", (String a s). auto.
      * exists (String a p), rest. split; [reflexivity|].
        now apply deriv_sound.
    + intros [p [rest [E H]]]. symmetry in E.
      apply append_eq_cons in E. destruct E as [[-> _]|[p' [-> ->]]].
      * left. exact H.
      * right. exists p', rest. split; [reflexivity|].
        now apply (deriv_complete a r _ H).
Qed.

Lemma star_notchr_spec s :
  Re.matches (Re.Star (Re.NotChr "@")) s <-> sin_arroba s = true.
Proof.
  split.
  - intros H. remember (Re.Star (Re.NotChr "@")) as r eqn:Er.
    induction H; try discriminate; [reflexivity|].
    injection Er as ->. inversion H; subst. simpl.
    rewrite IHmatches2 by reflexivity.
    destruct (Ascii.eqb_spec d "@"); [contradiction | reflexivity].
  - induction s as [|c s IH]; simpl; intros H; [constructor|].
    apply andb_true_iff in H. destruct H as [Hc Hs].
    change (String c s) with (String c "" ++ s)%string.
    constructor; [|auto]. constructor.
    intros ->. discriminate.
Qed.

Lemma plus_notchr_spec s :
  Re.matches (Re.Plus (Re.NotChr "@")) s <-> parte s.
Proof.
  unfold Re.Plus, parte. split.
  - intros H. inversion H as [| | |r1 r2 s1 s2 H1 H2| | | |]; subst.
    inversion H1; subst. simpl. split; [discriminate|].
    apply star_notchr_spec in H2. rewrite H2.
    destruct (Ascii.eqb_spec d "@"); [contradiction | reflexivity].
  - intros [Hne Hs]. destruct s as [|c s]; [contradiction|].
    simpl in Hs. apply andb_true_iff in Hs. destruct Hs as [Hc Hs].
    change (String c s) with (String c "" ++ s)%string.
    constructor; [|now apply star_notchr_spec]. constructor.
    intros ->. discriminate.
Qed.

Lemma cat_spec r1 r2 s :
  Re.matches (Re.Cat r1 r2) s <->
  exists s1 s2, s = (s1 ++ s2)%string /\ Re.matches r1 s1 /\ Re.matches r2 s2.
Proof.
  split.
  - intros H. inversion H; subst. eauto.
  - intros [s1 [s2 [-> [H1 H2]]]]. now constructor.
Qed.

Lemma chr_spec c s : Re.matches (Re.Chr c) s <-> s = String c "".
Proof.
  split.
  - intros H. inversion H. reflexivity.
  - intros ->. constructor.
Qed.

(** The language of [EMAIL_RE] is the shape of the specification. *)
Lemma EMAIL_RE_forma s :
  Re.matches EMAIL_RE s <-> forma_local_dominio_tld s.
Proof.
  unfold EMAIL_RE, forma_local_dominio_tld. split.
  - intros H.
    apply cat_spec in H. destruct H as [l [r1 [-> [Hl H]]]].
    apply cat_spec in H. destruct H as [a [r2 [-> [Ha H]]]].
    apply cat_spec in H. destruct H as [d [r3 [-> [Hd H]]]].
    apply cat_spec in H. destruct H as [p [t [-> [Hp Ht]]]].
    apply chr_spec in Ha, Hp. subst a p.
    exists l, d, t. rewrite <- !plus_notchr_spec. auto.
  - intros [l [d [t [-> [Hl [Hd Ht]]]]]].
    rewrite <- plus_notchr_spec in Hl, Hd, Ht.
    repeat (apply cat_spec; do 2 eexists; split; [reflexivity|]; split;
            [first [eassumption | apply chr_spec; reflexivity]|]).
    exact Ht.
Qed.

Lemma forma_fullmatch s :
  forma_local_dominio_tld s <-> Re.fullmatch EMAIL_RE s = true.
Proof. rewrite fullmatch_spec. symmetry. apply EMAIL_RE_forma. Qed.

(** What the forms accept: a text whose stripped form begins with an
    address of the shape; what follows the address is not looked at. *)
Lemma acepta_spec email :
  acepta email = true <->
  exists p rest,
    Str.strip email = (p ++ rest)%string /\ forma_local_dominio_tld p.
Proof.
  unfold acepta. rewrite andb_true_iff, match_spec. split.
  - intros [_ [p [rest [E H]]]]. exists p, rest.
    split; [exact E | now apply EMAIL_RE_forma].
  - intros [p [rest [E H]]]. split.
    + rewrite E. destruct H as [l [d [t [-> [[Hl _] _]]]]].
      destruct l; [contradiction | reflexivity].
    + exists p, rest. split; [exact E | now apply EMAIL_RE_forma].
Qed.

(** Every address of the shape is accepted. *)
Lemma forma_acepta email :
  forma_local_dominio_tld (Str.strip email) -> acepta email = true.
Proof.
  intros H. apply acepta_spec. exists (Str.strip email), "".
  split; [symmetry; apply append_nil_r | exact H].
Qed.

(** A rejected text changes nothing but the page: no profile is created
    or updated and nobody is logged in. *)
Lemma rechaza_no_toca ahora email nombre nick st :
  acepta email = false ->
  let st' := snd (form_registrar ahora email nombre nick st) in
  USERS_FILE st' = USERS_FILE st /\ session_user st' = session_user st /\
  exists txt, pagina st' = pagina st ++ [st_error txt].
Proof.
  intros Ha st'.
  destruct (form_registrar_rechaza ahora email nombre nick st Ha) as [txt Hr].
  subst st'. rewrite Hr. simpl. eauto.
Qed.

(** C8. The text "a@b.c@d" does not have the shape [local@domain.tld]
    (it holds a second at sign), yet both tests of the registration form
    pass, because [EMAIL_RE.match] looks for the shape at the start of
    the text only, and the profile is created. *)
Theorem C8_acepta_con_resto :
  ~ forma_local_dominio_tld (Str.strip "a@b.c@d") /\
  acepta "a@b.c@d" = true /\
  form_registrar 1700000000000000 "a@b.c@d" "" "" estado_inicial =
  (Ok tt,
   mk_estado (Csv [mk_usuario (Str "a@b.c@d") NaN NaN 1700000000]) (Csv [])
     (Some (mk_usuario (Str "a@b.c@d") (Str "") (Str "") 1700000000))
     (Some "Registrar puntaje") []
     [st_success "Usuario creado. Bienvenido, a@b.c@d"] []).
Proof.
  split; [|split; reflexivity].
  rewrite forma_fullmatch. discriminate.
Qed.

(* ------------------------------------------------------------------ *)
(** * Further properties *)

(** ** Normalisation of an email *)

Lemma neutra_arroba : neutra "@".
Proof. intros a. destruct a as [[] [] [] [] [] [] [] []]; reflexivity. Qed.

Lemma neutra_punto : neutra ".".
Proof. intros a. destruct a as [[] [] [] [] [] [] [] []]; reflexivity. Qed.

Lemma deriv_lower r a :
  Forall neutra (letras r) ->
  Re.deriv (Str.lower_char a) r = Re.deriv a r.
Proof.
  induction r; simpl; intros H; try reflexivity.
  - inversion H as [|? ? Hc _]; subst. now rewrite Hc.
  - inversion H as [|? ? Hc _]; subst. now rewrite Hc.
  - apply Forall_app in H. destruct H as [H1 H2].
    rewrite IHr1, IHr2 by assumption. reflexivity.
  - apply Forall_app in H. destruct H as [H1 H2].
    rewrite IHr1, IHr2 by assumption. reflexivity.
  - rewrite IHr by assumption. reflexivity.
Qed.

Lemma letras_deriv a r : incl (letras (Re.deriv a r)) (letras r).
Proof.
  induction r; simpl; try (intros x []).
  - destruct (Ascii.eqb a c); intros x [].
  - destruct (Ascii.eqb a c); intros x [].
  - destruct (Re.nullable r1); simpl.
    + intros x Hx. apply in_app_or in Hx. destruct Hx as [Hx|Hx].
      * apply in_app_or in Hx. apply in_or_app.
        destruct Hx as [Hx|Hx]; [left; now apply IHr1 | now right].
      * apply in_or_app. right. now apply IHr2.
    + intros x Hx. apply in_app_or in Hx. apply in_or_app.
      destruct Hx as [Hx|Hx]; [left; now apply IHr1 | now right].
  - intros x Hx. apply in_app_or in Hx. apply in_or_app.
    destruct Hx as [Hx|Hx]; [left; now apply IHr1 | right; now apply IHr2].
  - intros x Hx. apply in_app_or in Hx.
    destruct Hx as [Hx|Hx]; [now apply IHr | exact Hx].
Qed.

Lemma match_lower s : forall r,
  Forall neutra (letras r) ->
  Re.match_ r (Str.lower s) = Re.match_ r s.
Proof.
  induction s as [|a s IH]; intros r H; simpl; [reflexivity|].
  rewrite deriv_lower by exact H. rewrite IH; [reflexivity|].
  rewrite Forall_forall in *. intros x Hx. apply H.
  now apply (letras_deriv a r).
Qed.

Lemma truthy_lower s : Str.truthy (Str.lower s) = Str.truthy s.
Proof. destruct s; reflexivity. Qed.

(** X1. The normal form of an email, under which it is stored, is its
    own normal form and passes the tests of the forms exactly when the
    text it comes from does. *)
Theorem X1_normaliza_estable :
  forall email,
    normaliza (normaliza email) = normaliza email /\
    acepta (normaliza email) = acepta email.
Proof.
  intros email. split; [apply normaliza_idem|].
  unfold acepta, normaliza.
  rewrite strip_lower, strip_idem, truthy_lower.
  rewrite match_lower; [reflexivity|].
  repeat constructor; first [exact neutra_arroba | exact neutra_punto].
Qed.

Lemma forma_con_resto (l d t rest : string) :
  ((l ++ "@" ++ d ++ "." ++ t) ++ rest)%string =
  (l ++ "@" ++ d ++ "." ++ t ++ rest)%string.
Proof. repeat (rewrite append_assoc; simpl). reflexivity. Qed.

(** X2. The forms accept a text exactly when its stripped form begins
    with a local part, an at sign, a domain, a dot and a last part, none
    empty and none holding an at sign; what follows is not looked at. *)
Theorem X2_formas_aceptadas :
  forall email,
    acepta email = true <->
    exists l d t rest,
      Str.strip email = (l ++ "@" ++ d ++ "." ++ t ++ rest)%string /\
      parte l /\ parte d /\ parte t.
Proof.
  intros email. rewrite acepta_spec. split.
  - intros [p [rest [E [l [d [t [-> [Hl [Hd Ht]]]]]]]]].
    exists l, d, t, rest. split; [|auto].
    rewrite E. apply forma_con_resto.
  - intros [l [d [t [rest [E [Hl [Hd Ht]]]]]]].
    exists (l ++ "@" ++ d ++ "." ++ t)%string, rest. split.
    + rewrite E. symmetry. apply forma_con_resto.
    + exists l, d, t. auto.
Qed.

(** ** Frames *)

Section Conserva.

Context {B : Type} (campo : Estado -> B).

Lemma cv_ret {A} (a : A) : conserva campo (ret a).
Proof. intros st. reflexivity. Qed.

Lemma cv_raise {A} e : conserva campo (@raise A e).
Proof. intros st. reflexivity. Qed.

Lemma cv_get : conserva campo get.
Proof. intros st. reflexivity. Qed.

Lemma cv_bind {A C} (c : M A) (k : A -> M C) :
  conserva campo c -> (forall a, conserva campo (k a)) ->
  conserva campo (bind c k).
Proof.
  intros Hc Hk st. unfold bind. specialize (Hc st).
  destruct (c st) as [[a|e] st1]; simpl in *.
  - rewrite Hk. exact Hc.
  - exact Hc.
Qed.

Lemma cv_try {A} (c : M A) h :
  conserva campo c -> (forall e, conserva campo (h e)) ->
  conserva campo (try_except c h).
Proof.
  intros Hc Hh st. unfold try_except. specialize (Hc st).
  destruct (c st) as [[a|e] st1]; simpl in *.
  - exact Hc.
  - rewrite Hh. exact Hc.
Qed.

Lemma cv_modify f :
  (forall st, campo (f st) = campo st) -> conserva campo (modify f).
Proof. intros H st. apply H. Qed.

Lemma cv_read_csv {R} (path : Estado -> archivo R) :
  conserva campo (read_csv path).
Proof. intros st. unfold read_csv. destruct (path st); reflexivity. Qed.

Lemma cv_llamada r : conserva campo (llamada r).
Proof. destruct r; [apply cv_raise | apply cv_ret]. Qed.

End Conserva.

Ltac cv :=
  repeat first
    [ apply cv_bind; [|intro]
    | apply cv_try; [|intro]
    | apply cv_modify; intro; reflexivity
    | apply cv_ret | apply cv_raise | apply cv_get | apply cv_read_csv
    | apply cv_llamada
    | match goal with
      | |- conserva _ (if ?b then _ else _) => destruct b
      | |- conserva _ (match ?x with _ => _ end) => destruct x
      end ].

Lemma cv_load_users {B} (campo : Estado -> B) : conserva campo load_users.
Proof. unfold load_users. cv. Qed.

Lemma cv_primera {B} (campo : Estado -> B) e df : conserva campo (primera e df).
Proof. unfold primera. cv. Qed.

(** ** Logging in *)

Lemma login_user_esta email st u rest :
  filter (es_email (normaliza email)) (tabla st) = u :: rest ->
  login_user email st = (Ok (Some u), set_session_user (Some u) st).
Proof.
  intros H. unfold login_user, bind. rewrite load_users_tabla.
  fold (normaliza email).
  assert (Hin : email_in (normaliza email) (tabla st) = true).
  { unfold email_in. apply existsb_exists. exists u.
    assert (Hu : In u (filter (es_email (normaliza email)) (tabla st)))
      by (rewrite H; now left).
    apply filter_In in Hu. exact Hu. }
  rewrite Hin. unfold primera. rewrite H. reflexivity.
Qed.

Lemma form_entrar_rechaza email st :
  acepta email = false ->
  exists txt, form_entrar email st = (Ok tt, escribe_pagina (st_error txt) st).
Proof.
  unfold acepta, form_entrar. intros H.
  destruct (Str.truthy (Str.strip email)); simpl in *.
  - rewrite H. simpl. eexists. reflexivity.
  - eexists. reflexivity.
Qed.

Lemma form_entrar_esta email st u rest :
  acepta email = true ->
  filter (es_email (normaliza email)) (tabla st) = u :: rest ->
  form_entrar email st =
  (Ok tt,
   set_menu_request (Some "Registrar puntaje")
     (escribe_pagina
        (st_success ("Bienvenido, " ++ str_cell (get_display_name (Some u)))%string)
        (set_session_user (Some u) st))).
Proof.
  unfold acepta, form_entrar. intros H Hf.
  apply andb_true_iff in H. destruct H as [H1 H2]. rewrite H1, H2. simpl.
  unfold bind. rewrite (login_user_esta email st u rest Hf). reflexivity.
Qed.

Lemma form_entrar_no_esta email st :
  acepta email = true ->
  email_in (normaliza email) (tabla st) = false ->
  exists txt, form_entrar email st = (Ok tt, escribe_pagina (st_warning txt) st).
Proof.
  unfold acepta, form_entrar. intros H Hf.
  apply andb_true_iff in H. destruct H as [H1 H2]. rewrite H1, H2. simpl.
  unfold bind. rewrite (login_user_no_esta email st Hf). eexists. reflexivity.
Qed.

(** X3. The ["Entrar"] form never raises and writes neither file nor the
    worksheet.  It changes the session only when the text passes the
    tests and a row of usuarios.csv carries its normal form; the session
    then holds the first such row.  A rejected or unknown email leaves
    whoever is logged in logged in. *)
Theorem X3_entrar_no_escribe :
  forall email st,
    let st' := snd (form_entrar email st) in
    fst (form_entrar email st) = Ok tt /\
    USERS_FILE st' = USERS_FILE st /\
    SCORES_FILE st' = SCORES_FILE st /\
    worksheet st' = worksheet st /\
    (session_user st' = session_user st \/
     exists u rest,
       acepta email = true /\
       filter (es_email (normaliza email)) (tabla st) = u :: rest /\
       session_user st' = Some u /\
       menu_request st' = Some "Registrar puntaje").
Proof.
  intros email st st'. subst st'.
  destruct (acepta email) eqn:Ha.
  - destruct (email_in (normaliza email) (tabla st)) eqn:Hin.
    + destruct (email_in_filter _ _ Hin) as [u [rest [Hf _]]].
      rewrite (form_entrar_esta email st u rest Ha Hf). simpl.
      repeat (split; [reflexivity|]). right. exists u, rest. auto.
    + destruct (form_entrar_no_esta email st Ha Hin) as [txt ->]. simpl.
      repeat (split; [reflexivity|]). now left.
  - destruct (form_entrar_rechaza email st Ha) as [txt ->]. simpl.
    repeat (split; [reflexivity|]). now left.
Qed.

(** ** Registration, row by row *)

Lemma celda_leida_csv c : celda_leida c -> csv_cell c = c.
Proof.
  intros [->|[s [-> Hs]]]; [reflexivity | now apply csv_cell_texto].
Qed.

Lemma celda_leida_Str s : celda_leida (csv_cell (Str s)).
Proof.
  destruct s as [|a s]; simpl; [now left|].
  right. eexists. split; [reflexivity | discriminate].
Qed.

Lemma usuario_leido_csv u : usuario_leido u -> usuario_csv u = u.
Proof.
  intros [[e [He Hne]] [Hn Hk]]. destruct u as [em n k f]. simpl in *.
  unfold usuario_csv. simpl. subst em.
  rewrite (csv_cell_texto e Hne), (celda_leida_csv n Hn), (celda_leida_csv k Hk).
  reflexivity.
Qed.

Lemma map_usuario_csv_leidos df :
  Forall usuario_leido df -> map usuario_csv df = df.
Proof.
  intros H. induction H; simpl; [reflexivity|].
  f_equal; [now apply usuario_leido_csv | assumption].
Qed.

Lemma actualiza_leido nombre nick u :
  usuario_leido u -> usuario_leido (actualiza nombre nick u).
Proof.
  intros [He [Hn Hk]]. unfold actualiza.
  destruct (Str.truthy (Str.strip nombre)) eqn:En;
    destruct (Str.truthy (Str.strip nick)) eqn:Ek; simpl;
    repeat split; try assumption;
    right; eexists; (split; [reflexivity|]);
    now apply strip_truthy_nonempty.
Qed.

Lemma actualiza_eta nombre nick u :
  mk_usuario (u_email u) (u_nombre (actualiza nombre nick u))
    (u_nickname (actualiza nombre nick u)) (u_fecha_registro u)
  = actualiza nombre nick u.
Proof.
  destruct u as [em n k f]. unfold actualiza. simpl.
  destruct (Str.truthy (Str.strip nombre)), (Str.truthy (Str.strip nick));
    reflexivity.
Qed.

(** With one row per email, the assignment through [df.loc] rewrites the
    row it was computed from and no other. *)
Lemma loc_set_unica e nombre nick u df :
  NoDup (map u_email df) -> In u df -> u_email u = Str e ->
  loc_set e (u_nombre (actualiza nombre nick u))
    (u_nickname (actualiza nombre nick u)) df
  = map (fun w => if es_email e w then actualiza nombre nick w else w) df.
Proof.
  intros Hnd Hin Hu. unfold loc_set. apply map_ext_in. intros w Hw.
  destruct (es_email e w) eqn:E; [|reflexivity].
  apply es_email_iff in E.
  assert (w = u).
  { clear - Hnd Hin Hw Hu E. induction df as [|x df IH]; [destruct Hin|].
    simpl in Hnd. inversion Hnd as [|? ? Hnot Hnd']; subst.
    destruct Hin as [->|Hin], Hw as [->|Hw]; try reflexivity.
    - exfalso. apply Hnot. rewrite Hu, <- E. now apply in_map.
    - exfalso. apply Hnot. rewrite E, <- Hu. now apply in_map.
    - now apply IH. }
  subst w. apply actualiza_eta.
Qed.

Lemma form_registrar_nuevo ahora email nombre nick st :
  acepta email = true ->
  email_in (normaliza email) (tabla st) = false ->
  form_registrar ahora email nombre nick st =
  let nueva := mk_usuario (Str (normaliza email)) (Str (Str.strip nombre))
                 (Str (Str.strip nick)) (strftime ahora) in
  (Ok tt,
   set_menu_request (Some "Registrar puntaje")
     (escribe_pagina
        (st_success ("Usuario creado. Bienvenido, "
                     ++ nombre_visible email nombre nick)%string)
        (set_session_user (Some nueva)
           (set_USERS_FILE (Csv (map usuario_csv (tabla st ++ [nueva]))) st)))).
Proof.
  intros Ha Hin. pose proof Ha as Ha'. unfold acepta in Ha'.
  apply andb_true_iff in Ha'. destruct Ha' as [H1 H2].
  unfold form_registrar. rewrite H1, H2. simpl. unfold bind.
  rewrite (login_or_register_nuevo ahora email nombre nick st Hin).
  cbv zeta. unfold modify. simpl.
  replace (str_cell
             (if Str.truthy (Str.strip nick) then Str (Str.strip nick)
              else if Str.truthy (Str.strip nombre) then Str (Str.strip nombre)
              else Str (normaliza email)))
    with (nombre_visible email nombre nick); [reflexivity|].
  unfold nombre_visible.
  destruct (Str.truthy (Str.strip nick)), (Str.truthy (Str.strip nombre));
    reflexivity.
Qed.

(** What one submission of the registration form does to the table. *)
Lemma form_registrar_exacto ahora email nombre nick st :
  tabla_leida st ->
  let e := normaliza email in
  let st' := snd (form_registrar ahora email nombre nick st) in
  tabla_leida st' /\
  tabla st' =
  if acepta email then
    if email_in e (tabla st) then
      map (fun w => if es_email e w then actualiza nombre nick w else w)
        (tabla st)
    else
      tabla st ++ [usuario_csv (mk_usuario (Str e) (Str (Str.strip nombre))
                                  (Str (Str.strip nick)) (strftime ahora))]
  else tabla st.
Proof.
  intros [Hok Hle] e st'.
  destruct (form_registrar_tabla ahora email nombre nick st Hok) as [Hok' _].
  fold st' in Hok'.
  assert (Heq : tabla st' =
    if acepta email then
      if email_in e (tabla st) then
        map (fun w => if es_email e w then actualiza nombre nick w else w)
          (tabla st)
      else
        tabla st ++ [usuario_csv (mk_usuario (Str e) (Str (Str.strip nombre))
                                    (Str (Str.strip nick)) (strftime ahora))]
    else tabla st).
  { destruct (acepta email) eqn:Ha.
    - destruct (email_in e (tabla st)) eqn:Hin.
      + destruct (email_in_filter _ _ Hin) as [u [rest [Hfil Hu]]].
        subst st'.
        rewrite (form_registrar_existente ahora email nombre nick st u rest Ha Hfil).
        fold e.
        assert (Huin : In u (tabla st)).
        { assert (H : In u (filter (es_email e) (tabla st)))
            by (rewrite Hfil; now left).
          apply filter_In in H. tauto. }
        destruct Hok as [filas [Hf [Hnd _]]].
        pose proof (tabla_Csv _ _ Hf) as Ht.
        rewrite <- Ht in Hnd.
        rewrite (loc_set_unica e nombre nick u (tabla st)) by assumption.
        apply map_usuario_csv_leidos.
        apply Forall_forall. intros w Hw. apply in_map_iff in Hw.
        destruct Hw as [w0 [<- Hw0]].
        rewrite Forall_forall in Hle. specialize (Hle w0 Hw0).
        destruct (es_email e w0); [now apply actualiza_leido | exact Hle].
      + subst st'. rewrite (form_registrar_nuevo ahora email nombre nick st Ha Hin).
        cbv zeta. unfold tabla at 1. simpl. fold e.
        rewrite map_app, (map_usuario_csv_leidos _ Hle). reflexivity.
    - subst st'.
      destruct (form_registrar_rechaza ahora email nombre nick st Ha) as [txt ->].
      reflexivity. }
  split; [|exact Heq]. split; [exact Hok'|].
  rewrite Heq. destruct (acepta email) eqn:Ha; [|exact Hle].
  destruct (email_in e (tabla st)).
  - apply Forall_forall. intros w Hw. apply in_map_iff in Hw.
    destruct Hw as [w0 [<- Hw0]].
    rewrite Forall_forall in Hle. specialize (Hle w0 Hw0).
    destruct (es_email e w0); [now apply actualiza_leido | exact Hle].
  - apply Forall_app. split; [exact Hle|]. constructor; [|constructor].
    unfold usuario_leido, usuario_csv. cbn [u_email u_nombre u_nickname].
    pose proof (acepta_normaliza_nonempty _ Ha) as Hne. fold e in Hne.
    rewrite (csv_cell_texto e Hne).
    split; [eauto|]. split; apply celda_leida_Str.
Qed.

Lemma estado_inicial_leida : tabla_leida estado_inicial.
Proof. split; [apply estado_inicial_ok | constructor]. Qed.

Lemma registrar_todas_leida l : forall st,
  tabla_leida st -> tabla_leida (snd (registrar_todas l st)).
Proof.
  induction l as [|a l IH]; intros st H; [exact H|].
  rewrite registrar_todas_cons. apply IH.
  apply (form_registrar_exacto (a_ahora a) (a_email a) (a_nombre a) (a_nick a) st H).
Qed.

Lemma registrar_todas_app l1 : forall l2 st,
  snd (registrar_todas (l1 ++ l2) st) =
  snd (registrar_todas l2 (snd (registrar_todas l1 st))).
Proof.
  induction l1 as [|a l1 IH]; intros l2 st; [reflexivity|].
  rewrite <- app_comm_cons, !registrar_todas_cons. apply IH.
Qed.

Lemma alcanzable_leida previas :
  tabla_leida (snd (registrar_todas previas estado_inicial)).
Proof. apply registrar_todas_leida, estado_inicial_leida. Qed.

Lemma clave_actualiza nombre nick u : clave (actualiza nombre nick u) = clave u.
Proof.
  unfold clave, actualiza.
  destruct (Str.truthy (Str.strip nombre)), (Str.truthy (Str.strip nick));
    reflexivity.
Qed.

Lemma paso_clave ahora email nombre nick st :
  tabla_leida st ->
  exists extra,
    map clave (tabla (snd (form_registrar ahora email nombre nick st)))
    = map clave (tabla st) ++ extra.
Proof.
  intros H.
  destruct (form_registrar_exacto ahora email nombre nick st H) as [_ Heq].
  cbv zeta in Heq. rewrite Heq.
  destruct (acepta email); [|exists []; now rewrite app_nil_r].
  destruct (email_in (normaliza email) (tabla st)).
  - exists []. rewrite app_nil_r, map_map. apply map_ext. intros w.
    destruct (es_email (normaliza email) w);
      [apply clave_actualiza | reflexivity].
  - eexists. rewrite map_app. reflexivity.
Qed.

Lemma pasos_clave mas : forall st,
  tabla_leida st ->
  exists extra,
    map clave (tabla (snd (registrar_todas mas st)))
    = map clave (tabla st) ++ extra.
Proof.
  induction mas as [|a mas IH]; intros st H.
  - exists []. now rewrite app_nil_r.
  - rewrite registrar_todas_cons.
    destruct (paso_clave (a_ahora a) (a_email a) (a_nombre a) (a_nick a) st H)
      as [x1 H1].
    destruct (IH _ (proj1 (form_registrar_exacto (a_ahora a) (a_email a)
                             (a_nombre a) (a_nick a) st H))) as [x2 H2].
    exists (x1 ++ x2). rewrite H2, H1, app_assoc. reflexivity.
Qed.

(** X4. In any state reached by submissions of the registration form, a
    further submission does one of two things to the emails and
    registration times of usuarios.csv: nothing, when the text fails the
    tests or the email has a profile, so that an update adds, removes,
    moves and stamps no row; or, for an accepted email without a
    profile, it adds one pair at the end, the normal form of the email
    with the current time. *)
Theorem X4_registro_fila_por_fila :
  forall previas ahora email nombre nick,
    let st := snd (registrar_todas previas estado_inicial) in
    let e := normaliza email in
    let st' := snd (form_registrar ahora email nombre nick st) in
    map clave (tabla st') =
    if acepta email && negb (email_in e (tabla st))
    then map clave (tabla st) ++ [(Str e, strftime ahora)]
    else map clave (tabla st).
Proof.
  intros previas ahora email nombre nick st e st'.
  pose proof (alcanzable_leida previas) as H. fold st in H.
  destruct (form_registrar_exacto ahora email nombre nick st H) as [_ Heq].
  cbv zeta in Heq. fold st' e in Heq. rewrite Heq.
  destruct (acepta email) eqn:Ha; [|reflexivity].
  destruct (email_in e (tabla st)); simpl.
  - rewrite map_map. apply map_ext. intros w.
    destruct (es_email e w); [apply clave_actualiza | reflexivity].
  - rewrite map_app. f_equal.
    pose proof (acepta_normaliza_nonempty _ Ha) as Hne. fold e in Hne.
    unfold clave, usuario_csv.
    cbn [map u_email u_nombre u_nickname u_fecha_registro].
    rewrite (csv_cell_texto e Hne). reflexivity.
Qed.

(** X5. Profiles are never removed, reordered or stamped again: the
    emails and registration times stored after a sequence of submissions
    are still there, in the same places, after any further
    submissions. *)
Theorem X5_email_y_fecha_fijos :
  forall previas mas,
    exists extra,
      map clave (tabla (snd (registrar_todas (previas ++ mas) estado_inicial)))
      = map clave (tabla (snd (registrar_todas previas estado_inicial)))
        ++ extra.
Proof.
  intros previas mas. rewrite registrar_todas_app.
  apply pasos_clave, alcanzable_leida.
Qed.

(** X7. Registering and then logging in: after an accepted submission
    of the registration form, the ["Entrar"] form with any accepted
    spelling of the same email (case, surrounding blanks) opens the
    session on the one row of that email, asks for the score screen and
    leaves usuarios.csv as it was. *)
Theorem X7_registrar_y_entrar :
  forall previas ahora email nombre nick email',
    acepta email = true ->
    acepta email' = true ->
    normaliza email' = normaliza email ->
    let st := snd (registrar_todas previas estado_inicial) in
    let st1 := snd (form_registrar ahora email nombre nick st) in
    let st2 := snd (form_entrar email' st1) in
    exists u,
      session_user st2 = Some u /\
      filter (es_email (normaliza email)) (tabla st1) = [u] /\
      u_email u = Str (normaliza email) /\
      menu_request st2 = Some "Registrar puntaje" /\
      USERS_FILE st2 = USERS_FILE st1.
Proof.
  intros previas ahora email nombre nick email' Ha Ha' Hn st st1 st2.
  pose proof (alcanzable_leida previas) as H. fold st in H.
  destruct (form_registrar_emails ahora email nombre nick st (proj1 H))
    as [Hok1 [_ Hin]].
  fold st1 in Hok1, Hin. specialize (Hin Ha).
  destruct Hok1 as [filas [Hf [Hnd _]]].
  pose proof (tabla_Csv _ _ Hf) as Ht. rewrite <- Ht in Hnd.
  destruct (una_sola_fila _ _ Hnd Hin) as [u [Hu Hue]].
  exists u.
  assert (Hfil : filter (es_email (normaliza email')) (tabla st1) = u :: [])
    by (rewrite Hn; exact Hu).
  subst st2. rewrite (form_entrar_esta email' st1 u [] Ha' Hfil). simpl.
  split; [reflexivity|]. split; [exact Hu|]. split; [exact Hue|].
  split; reflexivity.
Qed.

Lemma X7_registrar_y_entrar_witness :
  let st1 := snd (form_registrar 1700000000000000 " Leo@Club.CL " "Leo" ""
                    estado_inicial) in
  let st2 := snd (form_entrar "leo@club.cl" st1) in
  exists u,
    session_user st2 = Some u /\
    filter (es_email "leo@club.cl") (tabla st1) = [u] /\
    u_email u = Str "leo@club.cl" /\
    menu_request st2 = Some "Registrar puntaje" /\
    USERS_FILE st2 = USERS_FILE st1.
Proof.
  exact (X7_registrar_y_entrar [] 1700000000000000 " Leo@Club.CL " "Leo" ""
           "leo@club.cl" eq_refl eq_refl eq_refl).
Defined.

(** ** Display names *)

(** X8. A player who registers a new email is greeted by the stripped
    nickname, else by the stripped name, else by the normal form of the
    email; the greeting is never empty, and the session holds the new
    profile. *)
Theorem X8_saludo_de_alta :
  forall ahora email nombre nick st,
    acepta email = true ->
    email_in (normaliza email) (tabla st) = false ->
    let st' := snd (form_registrar ahora email nombre nick st) in
    let nueva := mk_usuario (Str (normaliza email)) (Str (Str.strip nombre))
                   (Str (Str.strip nick)) (strftime ahora) in
    session_user st' = Some nueva /\
    get_display_name (Some nueva) = Str (nombre_visible email nombre nick) /\
    nombre_visible email nombre nick <> "" /\
    pagina st' =
    pagina st ++ [st_success ("Usuario creado. Bienvenido, "
                              ++ nombre_visible email nombre nick)%string].
Proof.
  intros ahora email nombre nick st Ha Hin st' nueva. subst st'.
  rewrite (form_registrar_nuevo ahora email nombre nick st Ha Hin).
  cbv zeta. simpl. split; [reflexivity|]. split; [|split; [|reflexivity]].
  - unfold nombre_visible.
    destruct (Str.truthy (Str.strip nick)), (Str.truthy (Str.strip nombre));
      reflexivity.
  - unfold nombre_visible.
    destruct (Str.truthy (Str.strip nick)) eqn:Ek;
      [now apply strip_truthy_nonempty|].
    destruct (Str.truthy (Str.strip nombre)) eqn:En;
      [now apply strip_truthy_nonempty|].
    now apply acepta_normaliza_nonempty.
Qed.

Lemma X8_saludo_de_alta_witness :
  let st' := snd (form_registrar 1700000000000000 "Eva@Club.cl" " Eva " ""
                    estado_inicial) in
  let nueva := mk_usuario (Str "eva@club.cl") (Str "Eva") (Str "") 1700000000 in
  session_user st' = Some nueva /\
  get_display_name (Some nueva) = Str "Eva" /\
  "Eva" <> "" /\
  pagina st' = [st_success "Usuario creado. Bienvenido, Eva"].
Proof.
  exact (X8_saludo_de_alta 1700000000000000 "Eva@Club.cl" " Eva " ""
           estado_inicial eq_refl eq_refl).
Defined.

(** ** Totals *)

Lemma fold_left_add_cotas a b l :
  Forall (fun v => a <= v <= b) l ->
  forall acc,
    acc + a * Z.of_nat (List.length l) <= fold_left Z.add l acc
    <= acc + b * Z.of_nat (List.length l).
Proof.
  intros H. induction H as [|v l Hv Hl IH]; intros acc.
  - simpl. lia.
  - cbn [fold_left List.length]. specialize (IH (acc + v)). lia.
Qed.

(** X10. A card saved through the form has 14 strokes and a total that
    is their sum and lies between 14 and 280. *)
Theorem X10_total_entre_14_y_280 :
  forall number_input g ahora user st filas,
    (forall i, min_value <= number_input i <= max_value) ->
    session_user st = Some user ->
    SCORES_FILE st = Csv filas ->
    exists st' nueva,
      registrar_puntaje number_input g ahora true st = (Ok tt, st') /\
      SCORES_FILE st' = Csv (map fila_csv filas ++ [nueva]) /\
      List.length (hoyos nueva) = 14%nat /\
      total nueva = sum (hoyos nueva) /\
      14 <= total nueva <= 280.
Proof.
  intros number_input g ahora user st filas Hb Hu Hf.
  pose proof (form_puntaje_validos number_input Hb) as [Hlen Hall].
  unfold registrar_puntaje, bind, get. rewrite Hu.
  destruct (guardar_puntaje_ok g ahora (u_email user)
              (get_display_name (Some user)) (form_puntaje number_input)
              st filas Hf Hlen) as [st' [txt [Hr [Hs _]]]].
  exists st'. eexists. split; [exact Hr|]. split.
  - rewrite Hs, map_app. reflexivity.
  - simpl. split; [exact Hlen|]. split; [reflexivity|].
    pose proof (fold_left_add_cotas _ _ _ Hall 0) as Hc.
    rewrite Hlen in Hc. unfold sum, min_value, max_value in *. lia.
Qed.

Lemma X10_total_entre_14_y_280_witness :
  exists st' nueva,
    registrar_puntaje (fun i => Z.min 20 (Z.max 1 (Z.of_nat i)))
      (mk_google false None None None None)
      1700000500000000 true
      (set_session_user
         (Some (mk_usuario (Str "ana@club.cl") (Str "Ana") (Str "anita")
                  1700000000)) estado_inicial)
    = (Ok tt, st') /\
    SCORES_FILE st' = Csv (map fila_csv [] ++ [nueva]) /\
    List.length (hoyos nueva) = 14%nat /\
    total nueva = sum (hoyos nueva) /\
    14 <= total nueva <= 280.
Proof.
  apply (X10_total_entre_14_y_280 (fun i => Z.min 20 (Z.max 1 (Z.of_nat i)))
           (mk_google false None None None None) 1700000500000000
           (mk_usuario (Str "ana@club.cl") (Str "Ana") (Str "anita") 1700000000)
           (set_session_user
              (Some (mk_usuario (Str "ana@club.cl") (Str "Ana") (Str "anita")
                       1700000000)) estado_inicial) []).
  - intros i. unfold min_value, max_value. lia.
  - reflexivity.
  - reflexivity.
Defined.

(** ** The mirror and the ledger *)

(** X11. [get_gsheet_client] never raises.  It returns a client exactly
    when the library was imported and both the credentials and the
    authorisation are obtained; otherwise it returns [None], with one
    warning on the sidebar when a call raised and with nothing written
    when the library is missing.  Nothing else changes. *)
Theorem X11_cliente_o_none :
  forall g st,
    exists r st',
      get_gsheet_client g st = (Ok r, st') /\
      (r = Some tt <->
       USE_GOOGLE_SHEETS g = true /\ from_service_account_file g = None /\
       authorize g = None) /\
      (r = Some tt \/ USE_GOOGLE_SHEETS g = false -> st' = st) /\
      (r = None -> USE_GOOGLE_SHEETS g = true ->
       exists txt, st' = escribe_sidebar (st_warning txt) st).
Proof.
  intros [[] [e1|] [e2|] o a] st; cbn;
    eexists; eexists; (split; [reflexivity|]);
    repeat split; intros; try discriminate;
    repeat match goal with
           | H : _ /\ _ |- _ => destruct H
           | H : _ \/ _ |- _ => destruct H
           end;
    try discriminate; try reflexivity; eauto.
Qed.

(** X12. When the mirror is enabled and every call returns, saving a
    valid card appends to the worksheet exactly the row built for
    scores.csv, writes no warning, and the last row of scores.csv is that
    row as the file gives it back. *)
Theorem X12_mirror_recibe_la_fila :
  forall g ahora user_email display_name golpes st filas,
    USE_GOOGLE_SHEETS g = true ->
    mirror_falla g = false ->
    SCORES_FILE st = Csv filas ->
    List.length golpes = 14%nat ->
    let nueva_fila := mk_fila (strftime ahora) user_email display_name golpes
                        (sum golpes) in
    exists st',
      guardar_puntaje g ahora user_email display_name golpes st = (Ok tt, st') /\
      worksheet st' = worksheet st ++ [nueva_fila] /\
      sidebar st' = sidebar st /\
      SCORES_FILE st' = Csv (map fila_csv filas ++ [fila_csv nueva_fila]).
Proof.
  intros g ahora ue dn golpes st filas Hon Hok Hf Hlen nueva_fila.
  destruct (guardar_puntaje_pasos g ahora ue dn golpes st filas Hf Hlen)
    as [txt Hg].
  cbv zeta in Hg. fold nueva_fila in Hg. rewrite Hg. clear Hg.
  destruct g as [[] [e1|] [e2|] [e3|] [e4|]]; try discriminate.
  eexists. split; [reflexivity|]. cbn. rewrite map_app. auto.
Qed.

Lemma X12_mirror_recibe_la_fila_witness :
  let nueva_fila := mk_fila 1700000000 (Str "ana@club.cl") (Str "")
                      (repeat 3 14) 42 in
  exists st',
    guardar_puntaje (mk_google true None None None None) 1700000000000000
      (Str "ana@club.cl") (Str "") (repeat 3 14) estado_inicial = (Ok tt, st') /\
    worksheet st' = [] ++ [nueva_fila] /\
    sidebar st' = [] /\
    SCORES_FILE st' = Csv (map fila_csv [] ++ [fila_csv nueva_fila]).
Proof.
  exact (X12_mirror_recibe_la_fila (mk_google true None None None None)
           1700000000000000 (Str "ana@club.cl") (Str "") (repeat 3 14)
           estado_inicial [] eq_refl eq_refl eq_refl eq_refl).
Defined.

Lemma cv_login_user {B} (campo : Estado -> B) email :
  (forall u st, campo (set_session_user u st) = campo st) ->
  conserva campo (login_user email).
Proof.
  intros Hs. unfold login_user.
  apply cv_bind; [apply cv_load_users|]. intros df.
  destruct (email_in _ df); [|apply cv_ret].
  apply cv_bind; [apply cv_primera|]. intro.
  apply cv_bind; [apply cv_modify; intro; apply Hs | intro; apply cv_ret].
Qed.

Lemma worksheet_form_entrar email : conserva worksheet (form_entrar email).
Proof.
  unfold form_entrar.
  destruct (negb _); [cv|]. destruct (negb _); [cv|].
  apply cv_bind; [apply cv_login_user; reflexivity|]. intros [u|]; cv.
Qed.

Lemma worksheet_form_registrar ahora email nombre nick :
  conserva worksheet (form_registrar ahora email nombre nick).
Proof.
  unfold form_registrar.
  destruct (negb _); [cv|]. destruct (negb _); [cv|].
  apply cv_bind; [|intro; cv].
  unfold login_or_register, save_users.
  apply cv_bind; [apply cv_load_users|]. intros df.
  apply cv_bind; [|intro; cv].
  destruct (email_in _ df); [|cv].
  apply cv_bind; [apply cv_primera|]. intro. cv.
Qed.

Lemma worksheet_pantalla_ranking sv f ahora :
  conserva worksheet (pantalla_ranking sv f ahora).
Proof. unfold pantalla_ranking. cv. Qed.

(** What any operation does to the ledger and to the worksheet
    together. *)
Lemma ejecuta_mirror sv o st filas :
  SCORES_FILE st = Csv filas ->
  let st' := snd (ejecuta sv o st) in
  (SCORES_FILE st' = Csv filas /\ worksheet st' = worksheet st) \/
  (exists nueva,
      SCORES_FILE st' = Csv (map fila_csv filas ++ [fila_csv nueva]) /\
      (worksheet st' = worksheet st \/ worksheet st' = worksheet st ++ [nueva])).
Proof.
  intros Hf st'.
  assert (Hsame : conserva SCORES_FILE (ejecuta sv o) ->
                  conserva worksheet (ejecuta sv o) ->
                  SCORES_FILE st' = Csv filas /\ worksheet st' = worksheet st).
  { intros H1 H2. subst st'. rewrite H1, H2. auto. }
  destruct o as [email_login|a|g ahora ue dn golpes|f ahora].
  - left. apply Hsame;
      [exact (conserva_form_entrar email_login) | apply worksheet_form_entrar].
  - left. apply Hsame;
      [exact (conserva_form_registrar _ _ _ _) | apply worksheet_form_registrar].
  - subst st'. simpl.
    destruct (Nat.eq_dec (List.length golpes) 14) as [Hlen|Hlen].
    + destruct (guardar_puntaje_ok g ahora ue dn golpes st filas Hf Hlen)
        as [st2 [txt [Hr [Hs [_ [_ Hw]]]]]].
      rewrite Hr. simpl. right. eexists. split.
      * rewrite Hs, map_app. reflexivity.
      * destruct Hw as [[Hw _]|[Hw _]]; [right | left]; exact Hw.
    + destruct (guardar_puntaje_raise g ahora ue dn golpes st (or_introl Hlen))
        as [e ->].
      left. auto.
  - left. apply Hsame; simpl.
    + apply cv_bind; [exact (conserva_pantalla_ranking sv f ahora)|].
      intro. apply cv_ret.
    + apply cv_bind; [apply worksheet_pantalla_ranking|]. intro. apply cv_ret.
Qed.

Lemma ronda_csv filas : map ronda (map fila_csv filas) = map ronda filas.
Proof. rewrite map_map. apply map_ext. intros f. reflexivity. Qed.

(** What any operation does to the rounds of the ledger and to the
    worksheet together. *)
Lemma ejecuta_ronda sv o st filas :
  SCORES_FILE st = Csv filas ->
  let st' := snd (ejecuta sv o st) in
  exists filas',
    SCORES_FILE st' = Csv filas' /\
    ((map ronda filas' = map ronda filas /\ worksheet st' = worksheet st) \/
     (exists nueva,
         map ronda filas' = map ronda filas ++ [ronda nueva] /\
         (worksheet st' = worksheet st \/
          worksheet st' = worksheet st ++ [nueva]))).
Proof.
  intros Hf st'.
  destruct (ejecuta_mirror sv o st filas Hf) as [[Hs Hw]|[nueva [Hs Hw]]];
    fold st' in Hs, Hw.
  - exists filas. split; [exact Hs|]. left. auto.
  - eexists. split; [exact Hs|]. right. exists nueva. split; [|exact Hw].
    rewrite map_app, ronda_csv. reflexivity.
Qed.

Lemma ejecuta_todas_ronda sv ops : forall st filas,
  SCORES_FILE st = Csv filas ->
  let st' := ejecuta_todas sv ops st in
  exists filas' mas,
    SCORES_FILE st' = Csv filas' /\
    map ronda filas' = map ronda filas ++ mas /\
    (incl (map ronda (worksheet st)) (map ronda filas) ->
     incl (map ronda (worksheet st')) (map ronda filas')) /\
    ((List.length (worksheet st) <= List.length filas)%nat ->
     (List.length (worksheet st') <= List.length filas')%nat).
Proof.
  induction ops as [|o ops IH]; intros st filas Hf; simpl.
  - exists filas, []. rewrite app_nil_r. auto.
  - destruct (ejecuta_ronda sv o st filas Hf) as [filas1 [Hf1 Hcase]].
    destruct (IH _ _ Hf1) as [filas2 [mas2 [Hf2 [Hr2 [Hi2 Hl2]]]]].
    assert (Hlen : forall (a b : list fila),
               map ronda a = map ronda b -> List.length a = List.length b).
    { intros a b E. rewrite <- (length_map ronda a), E. apply length_map. }
    destruct Hcase as [[Hr1 Hw1]|[nueva [Hr1 Hw1]]].
    + exists filas2, mas2. split; [exact Hf2|].
      split; [rewrite Hr2, Hr1; reflexivity|]. split.
      * intros Hi. apply Hi2. rewrite Hw1, Hr1. exact Hi.
      * intros Hl. apply Hl2. rewrite Hw1, (Hlen _ _ Hr1). exact Hl.
    + exists filas2, (ronda nueva :: mas2). split; [exact Hf2|].
      split; [rewrite Hr2, Hr1, <- app_assoc; reflexivity|].
      assert (Hl1 : List.length filas1 = S (List.length filas)).
      { rewrite <- (length_map ronda filas1), Hr1, length_app, length_map.
        simpl. lia. }
      split.
      * intros Hi. apply Hi2. rewrite Hr1.
        destruct Hw1 as [-> | ->].
        -- apply incl_appl. exact Hi.
        -- rewrite map_app. apply incl_app;
             [apply incl_appl; exact Hi | apply incl_appr, incl_refl].
      * intros Hl. apply Hl2. rewrite Hl1.
        destruct Hw1 as [-> | ->]; rewrite ?length_app; simpl; lia.
Qed.

(** X6. The rounds of the ledger only grow.  A run of the submit
    handler that returns adds, after the times, strokes and totals of
    the cards of scores.csv, those of the new card and nothing else; and
    whatever the application does next, with a mirror that answers or
    fails, the rounds recorded stay where they are, unchanged and in the
    order in which they were saved. *)
Theorem X6_rondas_solo_crecen :
  forall sort_values st filas,
    SCORES_FILE st = Csv filas ->
    (forall g ahora user_email display_name golpes st',
        guardar_puntaje g ahora user_email display_name golpes st = (Ok tt, st') ->
        map ronda (ledger st') =
        map ronda filas ++ [(strftime ahora, golpes, sum golpes)]) /\
    (forall ops,
        exists filas' mas,
          SCORES_FILE (ejecuta_todas sort_values ops st) = Csv filas' /\
          map ronda filas' = map ronda filas ++ mas).
Proof.
  intros sv st filas Hf. split.
  - intros g ahora ue dn golpes st' Hrun.
    destruct (Nat.eq_dec (List.length golpes) 14) as [Hlen|Hlen].
    + destruct (guardar_puntaje_ok g ahora ue dn golpes st filas Hf Hlen)
        as [st2 [txt [Hr [Hs _]]]].
      rewrite Hr in Hrun. injection Hrun as <-.
      unfold ledger. rewrite Hs, ronda_csv, map_app. reflexivity.
    + destruct (guardar_puntaje_raise g ahora ue dn golpes st (or_introl Hlen))
        as [e He].
      rewrite He in Hrun. discriminate.
  - intros ops.
    destruct (ejecuta_todas_ronda sv ops st filas Hf)
      as [filas' [mas [H1 [H2 _]]]].
    exists filas', mas. auto.
Qed.

Lemma X6_rondas_solo_crecen_witness :
  let fila0 := mk_fila 1700000000 (Str "ana@club.cl") (Str "anita")
                 (repeat 3 14) 42 in
  let st := set_SCORES_FILE (Csv [fila0]) estado_inicial in
  (forall g ahora user_email display_name golpes st',
      guardar_puntaje g ahora user_email display_name golpes st = (Ok tt, st') ->
      map ronda (ledger st') =
      map ronda [fila0] ++ [(strftime ahora, golpes, sum golpes)]) /\
  (forall ops,
      exists filas' mas,
        SCORES_FILE (ejecuta_todas orden_estable ops st) = Csv filas' /\
        map ronda filas' = map ronda [fila0] ++ mas).
Proof.
  exact (X6_rondas_solo_crecen orden_estable
           (set_SCORES_FILE
              (Csv [mk_fila 1700000000 (Str "ana@club.cl") (Str "anita")
                      (repeat 3 14) 42]) estado_inicial)
           _ eq_refl).
Defined.

(** X13. Whatever is done from the first run on, and whatever the
    mirror answers each time, scores.csv stays readable, the worksheet
    never holds more rows than scores.csv, and the time, the strokes and
    the total of every row of the worksheet are those of a card of
    scores.csv. *)
Theorem X13_mirror_dentro_del_ledger :
  forall sort_values ops,
    let st := ejecuta_todas sort_values ops estado_inicial in
    exists filas,
      SCORES_FILE st = Csv filas /\
      incl (map ronda (worksheet st)) (map ronda filas) /\
      (List.length (worksheet st) <= List.length filas)%nat.
Proof.
  intros sv ops st.
  destruct (ejecuta_todas_ronda sv ops estado_inicial [] eq_refl)
    as [filas [mas [H1 [_ [H3 H4]]]]].
  fold st in H1, H3, H4.
  exists filas. split; [exact H1|]. split.
  - apply H3. intros x [].
  - apply H4. simpl. lia.
Qed.

(** X14. An unreadable scores.csv is not hidden as an unreadable
    usuarios.csv is: saving a card and showing the ranking both raise the
    exception of [pd.read_csv], and the state is left as it was, so that
    nothing is relayed to the mirror and no success is reported. *)
Theorem X14_scores_ilegible :
  forall sort_values g ahora user_email display_name golpes f st e,
    SCORES_FILE st = Ilegible e ->
    guardar_puntaje g ahora user_email display_name golpes st = (Raise e, st) /\
    pantalla_ranking sort_values f ahora st = (Raise e, st).
Proof.
  intros sv g ahora ue dn golpes f st e Hf.
  unfold guardar_puntaje, pantalla_ranking, bind, read_csv.
  rewrite Hf. split; reflexivity.
Qed.

Lemma X14_scores_ilegible_witness :
  let st := set_SCORES_FILE (Ilegible (ParserError "Error tokenizing data"))
              estado_inicial in
  guardar_puntaje (mk_google true None None None None) 1700000000000000
    (Str "ana@club.cl") (Str "anita") (repeat 3 14) st
  = (Raise (ParserError "Error tokenizing data"), st) /\
  pantalla_ranking orden_estable Historico 1700000000000000 st
  = (Raise (ParserError "Error tokenizing data"), st).
Proof.
  exact (X14_scores_ilegible orden_estable (mk_google true None None None None)
           1700000000000000 (Str "ana@club.cl") (Str "anita") (repeat 3 14)
           Historico
           (set_SCORES_FILE (Ilegible (ParserError "Error tokenizing data"))
              estado_inicial)
           (ParserError "Error tokenizing data") eq_refl).
Defined.

(** ** Windows of the ranking *)

Lemma hoy_dentro_de_7 ahora fd :
  fd / un_dia = ahora / un_dia -> ahora - 7 * un_dia <= fd.
Proof.
  intros H.
  assert (Hd : 0 < un_dia) by reflexivity.
  pose proof (Z.mul_div_le fd un_dia Hd) as H1.
  pose proof (Z.mul_succ_div_gt ahora un_dia Hd) as H2.
  rewrite H in H1. rewrite Z.mul_succ_r in H2. lia.
Qed.

(** X15. The windows are nested: a card of today is in the last 7 days,
    a card of the last 7 days is in the last 30, and every card is in the
    whole history; so each wider window ranks at least the cards of the
    narrower one. *)
Theorem X15_ventanas_anidadas :
  forall ahora df,
    incl (filter (en_rango Hoy ahora) df)
         (filter (en_rango Ultimos_7_dias ahora) df) /\
    incl (filter (en_rango Ultimos_7_dias ahora) df)
         (filter (en_rango Ultimos_30_dias ahora) df) /\
    filter (en_rango Historico ahora) df = df.
Proof.
  intros ahora df. split; [|split].
  - intros x Hx. apply filter_In in Hx. destruct Hx as [Hin Hx].
    apply filter_In. split; [exact Hin|].
    unfold en_rango in *. apply Z.eqb_eq in Hx. apply Z.leb_le.
    now apply hoy_dentro_de_7.
  - intros x Hx. apply filter_In in Hx. destruct Hx as [Hin Hx].
    apply filter_In. split; [exact Hin|].
    unfold en_rango in *. apply Z.leb_le in Hx. apply Z.leb_le.
    assert (0 < un_dia) by reflexivity. lia.
  - induction df as [|x df IH]; simpl; [reflexivity|]. now rewrite IH.
Qed.

Lemma fecha_mismo_dia ahora :
  to_datetime (strftime ahora) / un_dia = ahora / un_dia.
Proof.
  unfold to_datetime, strftime, un_dia.
  rewrite Z.div_mul_cancel_r by (unfold un_segundo; lia).
  rewrite Z.div_div by (unfold un_segundo; lia).
  rewrite Z.mul_comm. reflexivity.
Qed.

Lemma fecha_no_futura ahora :
  ahora - un_segundo < to_datetime (strftime ahora) <= ahora.
Proof.
  unfold to_datetime, strftime.
  assert (Hs : 0 < un_segundo) by reflexivity.
  pose proof (Z.mul_div_le ahora un_segundo Hs) as H1.
  pose proof (Z.mul_succ_div_gt ahora un_segundo Hs) as H2.
  rewrite Z.mul_succ_r in H2. lia.
Qed.

(** A card stamped at the instant of the query is in every window. *)
Lemma recien_guardada_en_rango f ahora user_email display_name golpes t :
  en_rango f ahora (mk_fila (strftime ahora) user_email display_name golpes t)
  = true.
Proof.
  unfold en_rango. cbn [fecha].
  pose proof (fecha_no_futura ahora) as H.
  assert (Hs : un_segundo <= un_dia) by (unfold un_dia, un_segundo; lia).
  assert (Hd : 0 < un_dia) by reflexivity.
  destruct f.
  - reflexivity.
  - apply Z.eqb_eq. apply fecha_mismo_dia.
  - apply Z.leb_le. lia.
  - apply Z.leb_le. lia.
Qed.

Lemma ver_ranking_tabla sv f ahora df :
  filter (en_rango f ahora) df <> [] ->
  ver_ranking sv f ahora df =
  Tabla (head 50 (con_pos (sv (filter (en_rango f ahora) df)))).
Proof.
  intros H. unfold ver_ranking.
  destruct df as [|x df]; [contradiction H; reflexivity|].
  destruct (filter (en_rango f ahora) (x :: df)); [contradiction H; reflexivity|].
  reflexivity.
Qed.

(** X16. Saving and looking: right after a card is saved, the ranking
    screen shows a table, never a notice, in every window; the card is
    among the rows the window selects, and it is in the table whenever
    the window selects at most 50 cards. *)
Theorem X16_la_carta_guardada_aparece :
  forall sort_values,
    ordena_por_total sort_values ->
    forall g ahora user_email display_name golpes st filas f,
      SCORES_FILE st = Csv filas ->
      List.length golpes = 14%nat ->
      let st' := snd (guardar_puntaje g ahora user_email display_name golpes st) in
      let nueva := fila_csv (mk_fila (strftime ahora) user_email display_name
                               golpes (sum golpes)) in
      let elegidas := filter (en_rango f ahora) (ledger st') in
      In nueva elegidas /\
      exists mostrar,
        pantalla_ranking sort_values f ahora st' = (Ok (Tabla mostrar), st') /\
        mostrar <> [] /\
        ((List.length elegidas <= 50)%nat ->
         In (datos_fila nueva) (map datos mostrar)).
Proof.
  intros sv Hsv g ahora ue dn golpes st filas f Hf Hlen st' nueva elegidas.
  destruct (guardar_puntaje_ok g ahora ue dn golpes st filas Hf Hlen)
    as [st2 [txt [Hr [Hs _]]]].
  assert (Hst : st' = st2) by (unfold st'; rewrite Hr; reflexivity).
  assert (Hled : ledger st' = map fila_csv filas ++ [nueva]).
  { unfold ledger. rewrite Hst, Hs, map_app. reflexivity. }
  assert (Hin : In nueva elegidas).
  { unfold elegidas. rewrite Hled. apply filter_In. split.
    - apply in_or_app. right. now left.
    - apply recien_guardada_en_rango. }
  split; [exact Hin|].
  assert (Hne : elegidas <> []) by (intros E; rewrite E in Hin; destruct Hin).
  exists (head 50 (con_pos (sv elegidas))).
  assert (Hread : SCORES_FILE st' = Csv (ledger st')).
  { unfold ledger. rewrite Hst, Hs. reflexivity. }
  split.
  - unfold pantalla_ranking, bind, read_csv. rewrite Hread.
    rewrite (ver_ranking_tabla sv f ahora (ledger st') Hne). reflexivity.
  - destruct (Hsv elegidas) as [Hp _].
    split.
    + intros E. apply (f_equal (@List.length renglon)) in E.
      unfold head in E. rewrite length_firstn, con_pos_length in E.
      rewrite <- (Permutation_length Hp) in E.
      destruct elegidas; [now apply Hne|]. simpl in E. discriminate.
    + intros Hle. unfold head. rewrite <- firstn_map, con_pos_datos.
      rewrite firstn_all2
        by (rewrite length_map, <- (Permutation_length Hp); exact Hle).
      apply in_map. eapply Permutation_in; eassumption.
Qed.

Lemma X16_la_carta_guardada_aparece_witness :
  let st' := snd (guardar_puntaje (mk_google false None None None None)
                    1700000000000000 (Str "ana@club.cl") (Str "anita")
                    (repeat 3 14) estado_inicial) in
  let nueva := fila_csv (mk_fila (strftime 1700000000000000)
                           (Str "ana@club.cl") (Str "anita") (repeat 3 14)
                           (sum (repeat 3 14))) in
  let elegidas := filter (en_rango Hoy 1700000000000000) (ledger st') in
  In nueva elegidas /\
  exists mostrar,
    pantalla_ranking orden_estable Hoy 1700000000000000 st'
    = (Ok (Tabla mostrar), st') /\
    mostrar <> [] /\
    ((List.length elegidas <= 50)%nat ->
     In (datos_fila nueva) (map datos mostrar)).
Proof.
  exact (X16_la_carta_guardada_aparece orden_estable orden_estable_ordena
           (mk_google false None None None None) 1700000000000000
           (Str "ana@club.cl") (Str "anita") (repeat 3 14) estado_inicial []
           Hoy eq_refl eq_refl).
Defined.

(** X17. The ranking screen shows a notice exactly when the window
    selects no card, a different one when the ledger itself is empty;
    otherwise it shows a table, which is never empty. *)
Theorem X17_aviso_o_tabla :
  forall sort_values,
    ordena_por_total sort_values ->
    forall f ahora df,
      match ver_ranking sort_values f ahora df with
      | Aviso txt =>
          filter (en_rango f ahora) df = [] /\
          txt = match df with
                | [] => "Todavía no hay partidas registradas."
                | _ => "No hay registros en este rango de tiempo."
                end
      | Tabla mostrar =>
          filter (en_rango f ahora) df <> [] /\ mostrar <> []
      end.
Proof.
  intros sv Hsv f ahora df.
  destruct (filter (en_rango f ahora) df) as [|y l] eqn:E.
  - unfold ver_ranking. destruct df as [|x df]; [split; reflexivity|].
    rewrite E. split; reflexivity.
  - assert (Hne : filter (en_rango f ahora) df <> [])
      by (rewrite E; discriminate).
    rewrite (ver_ranking_tabla sv f ahora df Hne), E.
    split; [discriminate|].
    destruct (Hsv (y :: l)) as [Hp _].
    intros E'. apply (f_equal (@List.length renglon)) in E'.
    unfold head in E'. rewrite length_firstn, con_pos_length in E'.
    rewrite <- (Permutation_length Hp) in E'. simpl in E'. discriminate.
Qed.

Lemma X17_aviso_o_tabla_witness :
  match ver_ranking orden_estable Hoy 1800000000000000 cartas4 with
  | Aviso txt =>
      filter (en_rango Hoy 1800000000000000) cartas4 = [] /\
      txt = "No hay registros en este rango de tiempo."
  | Tabla mostrar =>
      filter (en_rango Hoy 1800000000000000) cartas4 <> [] /\ mostrar <> []
  end.
Proof.
  exact (X17_aviso_o_tabla orden_estable orden_estable_ordena Hoy
           1800000000000000 cartas4).
Defined.

(** ** Logging out, screens and files *)

Lemma del_todas {V} (claves : list string) : forall ss : list (string * V),
  fold_left (fun ss k => del k ss) claves ss =
  filter (fun kv => forallb (fun k => negb (String.eqb (fst kv) k)) claves) ss.
Proof.
  induction claves as [|k claves IH]; intros ss; simpl.
  - symmetry. induction ss as [|x ss IHs]; simpl; [reflexivity|].
    now rewrite IHs.
  - rewrite IH. unfold del. clear IH.
    induction ss as [|x ss IHs]; simpl; [reflexivity|].
    destruct (String.eqb (fst x) k); simpl; [exact IHs|].
    destruct (forallb _ claves); [f_equal|]; exact IHs.
Qed.

Lemma fold_left_map {A B C} (f : A -> C -> A) (g : B -> C) l : forall a,
  fold_left (fun a b => f a (g b)) l a = fold_left f (map g l) a.
Proof. induction l as [|x l IH]; intros a; simpl; [reflexivity | apply IH]. Qed.

Lemma logout_user_pide_login (V : Type) (ss : list (string * V)) st :
  exists ss' st',
    logout_user ss st = (Ok ss', st') /\
    menu_request st' = Some "Iniciar sesión / Registro".
Proof.
  unfold logout_user, bind, modify, ret. eexists. eexists.
  split; reflexivity.
Qed.

(** X18. [logout_user] never raises.  Afterwards nobody is logged in,
    the login screen is requested, none of the keys hoyo_1 .. hoyo_14 is
    left in the session while every other key is kept, the files and the
    worksheet are untouched, and the score screen writes nothing: it
    shows the warning that asks to log in. *)
Theorem X18_logout :
  forall (V : Type) (ss : list (string * V)) st,
    exists ss' st',
      logout_user ss st = (Ok ss', st') /\
      session_user st' = None /\
      menu_request st' = Some "Iniciar sesión / Registro" /\
      USERS_FILE st' = USERS_FILE st /\
      SCORES_FILE st' = SCORES_FILE st /\
      worksheet st' = worksheet st /\
      (forall i, In i (seq 1 14) ->
                 ~ In ("hoyo_" ++ Str.of_nat i)%string (map fst ss')) /\
      (forall kv, In kv ss' <->
                  In kv ss /\
                  forall i, In i (seq 1 14) ->
                            fst kv <> ("hoyo_" ++ Str.of_nat i)%string) /\
      (forall number_input g ahora submit_puntaje,
          exists txt,
            registrar_puntaje number_input g ahora submit_puntaje st'
            = (Ok tt, escribe_pagina (st_warning txt) st')).
Proof.
  intros V ss st. unfold logout_user, bind, modify, ret.
  rewrite (fold_left_map (fun ss k => del k ss)
             (fun i => ("hoyo_" ++ Str.of_nat i)%string)).
  rewrite del_todas.
  set (hoyos_k := map (fun i => ("hoyo_" ++ Str.of_nat i)%string) (seq 1 14)).
  eexists. eexists. split; [reflexivity|].
  cbn [session_user menu_request USERS_FILE SCORES_FILE worksheet
       escribe_sidebar set_menu_request set_session_user].
  repeat (split; [reflexivity|]).
  assert (Hkey : forall kv : string * V,
             forallb (fun k => negb (String.eqb (fst kv) k)) hoyos_k = true <->
             forall i, In i (seq 1 14) ->
                       fst kv <> ("hoyo_" ++ Str.of_nat i)%string).
  { intros kv. rewrite forallb_forall. unfold hoyos_k. split.
    - intros H i Hi E.
      specialize (H _ (in_map _ _ _ Hi)). rewrite E, String.eqb_refl in H.
      discriminate.
    - intros H k Hk. apply in_map_iff in Hk. destruct Hk as [i [<- Hi]].
      apply negb_true_iff, String.eqb_neq. now apply H. }
  split; [|split].
  - intros i Hi Hin. apply in_map_iff in Hin. destruct Hin as [kv [Hk Hin]].
    apply filter_In in Hin. destruct Hin as [_ Hf].
    apply (proj1 (Hkey kv) Hf i Hi). exact Hk.
  - intros kv. rewrite filter_In, Hkey. reflexivity.
  - intros number_input g ahora submit_puntaje. eexists. reflexivity.
Qed.

(** X19. [init_files] creates what is missing and nothing else: a
    missing file becomes a table with no row, a file that is there,
    readable or not, is left as it is, and a second call changes
    nothing. *)
Theorem X19_init_files :
  forall d,
    init_files (init_files d) = init_files d /\
    d_usuarios (init_files d) =
      Some (match d_usuarios d with Some f => f | None => Csv [] end) /\
    d_scores (init_files d) =
      Some (match d_scores d with Some f => f | None => Csv [] end).
Proof.
  intros [[u|] [s|]]; repeat split.
Qed.

(** X20. A request to change screen is served once: after a login that
    succeeds the next run shows the score screen, after a logout it shows
    the login screen, whatever the radio held; the request is then gone,
    and a run with no request shows what the radio holds, the login
    screen when it holds nothing. *)
Theorem X20_cambio_de_pantalla :
  forall (V : Type) (ss : list (string * V)) email menu st u rest,
    acepta email = true ->
    filter (es_email (normaliza email)) (tabla st) = u :: rest ->
    (exists st1,
        aplica_menu_request menu (snd (form_entrar email st))
        = (Ok "Registrar puntaje", st1) /\
        menu_request st1 = None) /\
    (exists st1,
        aplica_menu_request menu (snd (logout_user ss st))
        = (Ok "Iniciar sesión / Registro", st1) /\
        menu_request st1 = None) /\
    (forall st0,
        menu_request st0 = None ->
        aplica_menu_request menu st0 =
        (Ok (match menu with
             | Some m => m
             | None => "Iniciar sesión / Registro"
             end), st0)).
Proof.
  intros V ss email menu st u rest Ha Hfil. split; [|split].
  - rewrite (form_entrar_esta email st u rest Ha Hfil).
    eexists. split; reflexivity.
  - destruct (logout_user_pide_login V ss st) as [ss' [st' [Hr Hm]]].
    rewrite Hr. unfold aplica_menu_request, bind, get. cbn [snd].
    rewrite Hm. eexists. split; reflexivity.
  - intros st0 H0. unfold aplica_menu_request, bind, get. rewrite H0.
    reflexivity.
Qed.

Lemma X20_cambio_de_pantalla_witness :
  (exists st1,
      aplica_menu_request (Some "Ver ranking")
        (snd (form_entrar "ana@club.cl" estado_con_ana))
      = (Ok "Registrar puntaje", st1) /\
      menu_request st1 = None) /\
  (exists st1,
      aplica_menu_request (Some "Ver ranking")
        (snd (logout_user [("hoyo_3", 5)] estado_con_ana))
      = (Ok "Iniciar sesión / Registro", st1) /\
      menu_request st1 = None) /\
  (forall st0,
      menu_request st0 = None ->
      aplica_menu_request (Some "Ver ranking") st0 = (Ok "Ver ranking", st0)).
Proof.
  exact (X20_cambio_de_pantalla Z [("hoyo_3", 5)] "ana@club.cl"
           (Some "Ver ranking") estado_con_ana
           (mk_usuario (Str "ana@club.cl") (Str "Ana") (Str "anita") 1700000000)
           [] eq_refl eq_refl).
Defined.
